(** * Network connection inventory: parsers, streaming scan and owner lookup

    A shallow embedding of [lib/parsers.js] (splitHostPort, parseWindowsNetstat,
    parseLinuxSS, parseLsof), of [js/syslib_ports.js] (splitHostPort,
    buildPidMapWindows, scanPorts), of [lib/owners.js], [lib/windows.js],
    [lib/sysExec.js] and [lib/collector.js], and of the formatting helpers of
    [js/syslib_network_inspector.js] (hp, escapeHtml, csvEscape).

    JavaScript strings are sequences of UTF-16 code units, JavaScript numbers
    are IEEE 754 binary64 values ([spec_float] with precision 53), [null] and
    [undefined] results are [None], a [Buffer] is its bytes and
    [buf.toString('utf8')] the UTF-8 decoder that writes U+FFFD for
    ill-formed input.  Every regular expression of the source is written out
    as the matcher it denotes, next to the expression itself. *)

From Stdlib Require Import List ZArith NArith QArith Qround Qabs Lia Bool.
From Stdlib Require Ascii String.
From Stdlib Require Import SpecFloat Sorted.
Import ListNotations.
Import String.StringSyntax.
Delimit Scope string_scope with string.

(* ===================================================================== *)
(** * Strings as lists of UTF-16 code units *)
(* ===================================================================== *)

Definition jsstring := list N.

(** An ASCII literal as a JavaScript string. *)
Definition js (s : String.string) : jsstring :=
  map Ascii.N_of_ascii (String.list_ascii_of_string s).
Arguments js s%_string.

Module Str.
Local Open Scope N_scope.

Fixpoint eqb (a b : jsstring) : bool :=
  match a, b with
  | [], [] => true
  | x :: a', y :: b' => (x =? y) && eqb a' b'
  | _, _ => false
  end.

(** ToBoolean of a string: the empty string is the only falsy one. *)
Definition truthy (s : jsstring) : bool :=
  match s with [] => false | _ => true end.

(** [a || b] on strings. *)
Definition or_else (a b : jsstring) : jsstring := if truthy a then a else b.

(** ** Character classes *)

(** WhiteSpace and LineTerminator of ECMA-262: the set stripped by
    [String.prototype.trim] and matched by [\s]. *)
Definition isSpace (c : N) : bool :=
  ((9 <=? c) && (c <=? 13)) || (c =? 32) || (c =? 160) || (c =? 5760)
  || ((8192 <=? c) && (c <=? 8202)) || (c =? 8232) || (c =? 8233)
  || (c =? 8239) || (c =? 8287) || (c =? 12288) || (c =? 65279).

(** LineTerminator: the code units [.] does not match. *)
Definition isLineTerminator (c : N) : bool :=
  (c =? 10) || (c =? 13) || (c =? 8232) || (c =? 8233).

(** [\d] *)
Definition isDigit (c : N) : bool := (48 <=? c) && (c <=? 57).

(** [\w] (without the [u] flag): [A-Za-z0-9_]. *)
Definition isWord (c : N) : bool :=
  isDigit c || ((65 <=? c) && (c <=? 90)) || (c =? 95) || ((97 <=? c) && (c <=? 122)).

(** ** Slicing and searching *)

Fixpoint span (p : N -> bool) (s : jsstring) : jsstring * jsstring :=
  match s with
  | c :: s' => if p c then let (a, b) := span p s' in (c :: a, b) else ([], s)
  | [] => ([], [])
  end.

Fixpoint dropWhile (p : N -> bool) (s : jsstring) : jsstring :=
  match s with
  | c :: s' => if p c then dropWhile p s' else s
  | [] => []
  end.

Definition trimStart (s : jsstring) : jsstring := dropWhile isSpace s.
Definition trimEnd (s : jsstring) : jsstring := rev (dropWhile isSpace (rev s)).
(** [s.trim()] *)
Definition trim (s : jsstring) : jsstring := trimEnd (trimStart s).

(** [s.startsWith(p)] *)
Fixpoint startsWith (p s : jsstring) : bool :=
  match p, s with
  | [], _ => true
  | x :: p', y :: s' => (x =? y) && startsWith p' s'
  | _ :: _, [] => false
  end.

(** [s.indexOf(p)], [None] for -1. *)
Fixpoint indexOf (p s : jsstring) : option nat :=
  if startsWith p s then Some 0%nat
  else match s with
       | [] => None
       | _ :: s' => option_map S (indexOf p s')
       end.

(** [s.lastIndexOf(c)] for a one-unit [c], [None] for -1. *)
Fixpoint lastIndexOf1 (c : N) (s : jsstring) : option nat :=
  match s with
  | [] => None
  | x :: s' =>
      match lastIndexOf1 c s' with
      | Some i => Some (S i)
      | None => if x =? c then Some 0%nat else None
      end
  end.

(** [s.includes(p)] *)
Definition includes (p s : jsstring) : bool :=
  match indexOf p s with Some _ => true | None => false end.

(** [s.slice(0, k)] and [s.slice(k)] for [0 <= k]. *)
Definition slice_to (k : nat) (s : jsstring) : jsstring := firstn k s.
Definition slice_from (k : nat) (s : jsstring) : jsstring := skipn k s.

(** [s.split(sep)] for a non-empty string separator: [skip] counts the code
    units of a separator still to be passed over, [cur] is the piece being
    read, reversed. *)
Fixpoint split_aux (sep : jsstring) (skip : nat) (cur : jsstring) (s : jsstring)
  : list jsstring :=
  match s with
  | [] => [rev cur]
  | c :: s' =>
      match skip with
      | S k => split_aux sep k cur s'
      | O =>
          if startsWith sep s
          then rev cur :: split_aux sep (length sep - 1) [] s'
          else split_aux sep 0 (c :: cur) s'
      end
  end.
Definition split (sep s : jsstring) : list jsstring := split_aux sep 0 [] s.

(** [s.split(/\r?\n/)]: every line feed ends a piece, and a carriage return
    directly before it belongs to the separator. *)
Fixpoint splitLines_aux (cur : jsstring) (s : jsstring) : list jsstring :=
  match s with
  | [] => [rev cur]
  | c :: s' =>
      if c =? 10 then rev cur :: splitLines_aux [] s'
      else if c =? 13 then
        match s' with
        | d :: s'' =>
            if d =? 10 then rev cur :: splitLines_aux [] s''
            else splitLines_aux (c :: cur) s'
        | [] => splitLines_aux (c :: cur) s'
        end
      else splitLines_aux (c :: cur) s'
  end.
Definition splitLines (s : jsstring) : list jsstring := splitLines_aux [] s.

(** [s.split(/\s+/)]: the pieces between maximal runs of white space; a
    leading or trailing run leaves an empty first or last piece. *)
Fixpoint splitSpaces_aux (cur : jsstring) (s : jsstring) : list jsstring :=
  match s with
  | [] => [rev cur]
  | c :: s' =>
      if isSpace c then
        match s' with
        | d :: _ => if isSpace d then splitSpaces_aux cur s'
                    else rev cur :: splitSpaces_aux [] s'
        | [] => rev cur :: splitSpaces_aux [] s'
        end
      else splitSpaces_aux (c :: cur) s'
  end.
Definition splitSpaces (s : jsstring) : list jsstring := splitSpaces_aux [] s.

(** [s.replace(/\s+/g, ' ')] *)
Fixpoint collapseSpaces (s : jsstring) : jsstring :=
  match s with
  | [] => []
  | c :: s' =>
      if isSpace c then
        match s' with
        | d :: _ => if isSpace d then collapseSpaces s' else 32 :: collapseSpaces s'
        | [] => [32]
        end
      else c :: collapseSpaces s'
  end.

End Str.

(* ===================================================================== *)
(** * Case conversion *)
(* ===================================================================== *)

(** [String.prototype.toUpperCase] and the case folding of the [i] flag use
    the upper-case mapping of the Unicode Character Database (here Unicode
    14).  [simple_uppercase] lists the one-to-one mappings as runs
    [(first, last, step, image of first)]; [special_uppercase] lists the code
    points whose upper case is longer than one code point. *)
Module Unicode.
Local Open Scope N_scope.

Definition simple_uppercase : list (N * N * N * N) :=
  [
   (97, 122, 1, 65); (181, 181, 1, 924); (224, 246, 1, 192); (248, 254, 1, 216);
   (255, 255, 1, 376); (257, 303, 2, 256); (305, 305, 1, 73); (307, 311, 2, 306);
   (314, 328, 2, 313); (331, 375, 2, 330); (378, 382, 2, 377); (383, 383, 1, 83);
   (384, 384, 1, 579); (387, 389, 2, 386); (392, 392, 1, 391); (396, 396, 1, 395);
   (402, 402, 1, 401); (405, 405, 1, 502); (409, 409, 1, 408); (410, 410, 1, 573);
   (414, 414, 1, 544); (417, 421, 2, 416); (424, 424, 1, 423); (429, 429, 1, 428);
   (432, 432, 1, 431); (436, 438, 2, 435); (441, 441, 1, 440); (445, 445, 1, 444);
   (447, 447, 1, 503); (453, 453, 1, 452); (454, 454, 1, 452); (456, 456, 1, 455);
   (457, 457, 1, 455); (459, 459, 1, 458); (460, 460, 1, 458); (462, 476, 2, 461);
   (477, 477, 1, 398); (479, 495, 2, 478); (498, 498, 1, 497); (499, 499, 1, 497);
   (501, 501, 1, 500); (505, 543, 2, 504); (547, 563, 2, 546); (572, 572, 1, 571);
   (575, 576, 1, 11390); (578, 578, 1, 577); (583, 591, 2, 582); (592, 592, 1, 11375);
   (593, 593, 1, 11373); (594, 594, 1, 11376); (595, 595, 1, 385); (596, 596, 1, 390);
   (598, 599, 1, 393); (601, 601, 1, 399); (603, 603, 1, 400); (604, 604, 1, 42923);
   (608, 608, 1, 403); (609, 609, 1, 42924); (611, 611, 1, 404); (613, 613, 1, 42893);
   (614, 614, 1, 42922); (616, 616, 1, 407); (617, 617, 1, 406); (618, 618, 1, 42926);
   (619, 619, 1, 11362); (620, 620, 1, 42925); (623, 623, 1, 412); (625, 625, 1, 11374);
   (626, 626, 1, 413); (629, 629, 1, 415); (637, 637, 1, 11364); (640, 640, 1, 422);
   (642, 642, 1, 42949); (643, 643, 1, 425); (647, 647, 1, 42929); (648, 648, 1, 430);
   (649, 649, 1, 580); (650, 651, 1, 433); (652, 652, 1, 581); (658, 658, 1, 439);
   (669, 669, 1, 42930); (670, 670, 1, 42928); (837, 837, 1, 921); (881, 883, 2, 880);
   (887, 887, 1, 886); (891, 893, 1, 1021); (940, 940, 1, 902); (941, 943, 1, 904);
   (945, 961, 1, 913); (962, 962, 1, 931); (963, 971, 1, 931); (972, 972, 1, 908);
   (973, 974, 1, 910); (976, 976, 1, 914); (977, 977, 1, 920); (981, 981, 1, 934);
   (982, 982, 1, 928); (983, 983, 1, 975); (985, 1007, 2, 984); (1008, 1008, 1, 922);
   (1009, 1009, 1, 929); (1010, 1010, 1, 1017); (1011, 1011, 1, 895); (1013, 1013, 1, 917);
   (1016, 1016, 1, 1015); (1019, 1019, 1, 1018); (1072, 1103, 1, 1040); (1104, 1119, 1, 1024);
   (1121, 1153, 2, 1120); (1163, 1215, 2, 1162); (1218, 1230, 2, 1217); (1231, 1231, 1, 1216);
   (1233, 1327, 2, 1232); (1377, 1414, 1, 1329); (4304, 4346, 1, 7312); (4349, 4351, 1, 7357);
   (5112, 5117, 1, 5104); (7296, 7296, 1, 1042); (7297, 7297, 1, 1044); (7298, 7298, 1, 1054);
   (7299, 7300, 1, 1057); (7301, 7301, 1, 1058); (7302, 7302, 1, 1066); (7303, 7303, 1, 1122);
   (7304, 7304, 1, 42570); (7545, 7545, 1, 42877); (7549, 7549, 1, 11363);
   (7566, 7566, 1, 42950); (7681, 7829, 2, 7680); (7835, 7835, 1, 7776); (7841, 7935, 2, 7840);
   (7936, 7943, 1, 7944); (7952, 7957, 1, 7960); (7968, 7975, 1, 7976); (7984, 7991, 1, 7992);
   (8000, 8005, 1, 8008); (8017, 8023, 2, 8025); (8032, 8039, 1, 8040); (8048, 8049, 1, 8122);
   (8050, 8053, 1, 8136); (8054, 8055, 1, 8154); (8056, 8057, 1, 8184); (8058, 8059, 1, 8170);
   (8060, 8061, 1, 8186); (8112, 8113, 1, 8120); (8126, 8126, 1, 921); (8144, 8145, 1, 8152);
   (8160, 8161, 1, 8168); (8165, 8165, 1, 8172); (8526, 8526, 1, 8498); (8560, 8575, 1, 8544);
   (8580, 8580, 1, 8579); (9424, 9449, 1, 9398); (11312, 11359, 1, 11264);
   (11361, 11361, 1, 11360); (11365, 11365, 1, 570); (11366, 11366, 1, 574);
   (11368, 11372, 2, 11367); (11379, 11379, 1, 11378); (11382, 11382, 1, 11381);
   (11393, 11491, 2, 11392); (11500, 11502, 2, 11499); (11507, 11507, 1, 11506);
   (11520, 11557, 1, 4256); (11559, 11559, 1, 4295); (11565, 11565, 1, 4301);
   (42561, 42605, 2, 42560); (42625, 42651, 2, 42624); (42787, 42799, 2, 42786);
   (42803, 42863, 2, 42802); (42874, 42876, 2, 42873); (42879, 42887, 2, 42878);
   (42892, 42892, 1, 42891); (42897, 42899, 2, 42896); (42900, 42900, 1, 42948);
   (42903, 42921, 2, 42902); (42933, 42947, 2, 42932); (42952, 42954, 2, 42951);
   (42961, 42961, 1, 42960); (42967, 42969, 2, 42966); (42998, 42998, 1, 42997);
   (43859, 43859, 1, 42931); (43888, 43967, 1, 5024); (65345, 65370, 1, 65313);
   (66600, 66639, 1, 66560); (66776, 66811, 1, 66736); (66967, 66977, 1, 66928);
   (66979, 66993, 1, 66940); (66995, 67001, 1, 66956); (67003, 67004, 1, 66964);
   (68800, 68850, 1, 68736); (71872, 71903, 1, 71840); (93792, 93823, 1, 93760);
   (125218, 125251, 1, 125184)
  ].

Definition special_uppercase : list (N * (N * list N)) :=
  [
   (223, (83, [83])); (329, (700, [78])); (496, (74, [780])); (912, (921, [776; 769]));
   (944, (933, [776; 769])); (1415, (1333, [1362])); (7830, (72, [817])); (7831, (84, [776]));
   (7832, (87, [778])); (7833, (89, [778])); (7834, (65, [702])); (8016, (933, [787]));
   (8018, (933, [787; 768])); (8020, (933, [787; 769])); (8022, (933, [787; 834]));
   (8064, (7944, [921])); (8065, (7945, [921])); (8066, (7946, [921])); (8067, (7947, [921]));
   (8068, (7948, [921])); (8069, (7949, [921])); (8070, (7950, [921])); (8071, (7951, [921]));
   (8072, (7944, [921])); (8073, (7945, [921])); (8074, (7946, [921])); (8075, (7947, [921]));
   (8076, (7948, [921])); (8077, (7949, [921])); (8078, (7950, [921])); (8079, (7951, [921]));
   (8080, (7976, [921])); (8081, (7977, [921])); (8082, (7978, [921])); (8083, (7979, [921]));
   (8084, (7980, [921])); (8085, (7981, [921])); (8086, (7982, [921])); (8087, (7983, [921]));
   (8088, (7976, [921])); (8089, (7977, [921])); (8090, (7978, [921])); (8091, (7979, [921]));
   (8092, (7980, [921])); (8093, (7981, [921])); (8094, (7982, [921])); (8095, (7983, [921]));
   (8096, (8040, [921])); (8097, (8041, [921])); (8098, (8042, [921])); (8099, (8043, [921]));
   (8100, (8044, [921])); (8101, (8045, [921])); (8102, (8046, [921])); (8103, (8047, [921]));
   (8104, (8040, [921])); (8105, (8041, [921])); (8106, (8042, [921])); (8107, (8043, [921]));
   (8108, (8044, [921])); (8109, (8045, [921])); (8110, (8046, [921])); (8111, (8047, [921]));
   (8114, (8122, [921])); (8115, (913, [921])); (8116, (902, [921])); (8118, (913, [834]));
   (8119, (913, [834; 921])); (8124, (913, [921])); (8130, (8138, [921]));
   (8131, (919, [921])); (8132, (905, [921])); (8134, (919, [834])); (8135, (919, [834; 921]));
   (8140, (919, [921])); (8146, (921, [776; 768])); (8147, (921, [776; 769]));
   (8150, (921, [834])); (8151, (921, [776; 834])); (8162, (933, [776; 768]));
   (8163, (933, [776; 769])); (8164, (929, [787])); (8166, (933, [834]));
   (8167, (933, [776; 834])); (8178, (8186, [921])); (8179, (937, [921]));
   (8180, (911, [921])); (8182, (937, [834])); (8183, (937, [834; 921])); (8188, (937, [921]));
   (64256, (70, [70])); (64257, (70, [73])); (64258, (70, [76])); (64259, (70, [70; 73]));
   (64260, (70, [70; 76])); (64261, (83, [84])); (64262, (83, [84])); (64275, (1348, [1350]));
   (64276, (1348, [1333])); (64277, (1348, [1339])); (64278, (1358, [1350]));
   (64279, (1348, [1341]))
  ].

Fixpoint lookup_simple (c : N) (t : list (N * N * N * N)) : option N :=
  match t with
  | [] => None
  | (lo, hi, step, img) :: t' =>
      if (lo <=? c) && (c <=? hi) && ((c - lo) mod step =? 0)
      then Some (img + (c - lo))
      else lookup_simple c t'
  end.

Fixpoint lookup_special (c : N) (t : list (N * (N * list N))) : option (N * list N) :=
  match t with
  | [] => None
  | (k, v) :: t' => if k =? c then Some v else lookup_special c t'
  end.

(** The upper case of a code point, as a non-empty sequence of code points. *)
Definition toUppercase (c : N) : N * list N :=
  match lookup_special c special_uppercase with
  | Some v => v
  | None =>
      match lookup_simple c simple_uppercase with
      | Some u => (u, [])
      | None => (c, [])
      end
  end.

Definition isHighSurrogate (c : N) : bool := (55296 <=? c) && (c <=? 56319).
Definition isLowSurrogate (c : N) : bool := (56320 <=? c) && (c <=? 57343).

(** The code point of a surrogate pair and the UTF-16 form of a code point. *)
Definition codePoint (hi lo : N) : N := 65536 + (hi - 55296) * 1024 + (lo - 56320).
Definition utf16 (c : N) : jsstring :=
  if c <? 65536 then [c]
  else [55296 + (c - 65536) / 1024; 56320 + (c - 65536) mod 1024].

Definition upperUnits (c : N) : jsstring :=
  let (u, us) := toUppercase c in utf16 u ++ flat_map utf16 us.

(** [s.toUpperCase()]: code point by code point; an unpaired surrogate is
    its own upper case. *)
Fixpoint toUpperCase (s : jsstring) : jsstring :=
  match s with
  | [] => []
  | c :: s' =>
      match s' with
      | d :: s'' =>
          if isHighSurrogate c && isLowSurrogate d
          then upperUnits (codePoint c d) ++ toUpperCase s''
          else upperUnits c ++ toUpperCase s'
      | [] => upperUnits c
      end
  end.

(** Canonicalize of ECMA-262 for an [i] flag without [u]: a code unit is
    compared by its upper case when that is one code unit, except that a
    non-ASCII unit never folds onto an ASCII one. *)
Definition canonicalize (c : N) : N :=
  match toUppercase c with
  | (u, []) => if (128 <=? c) && (u <? 128) then c else if u <? 65536 then u else c
  | _ => c
  end.

(** A pattern character under the [i] flag. *)
Definition ci (p c : N) : bool := canonicalize c =? canonicalize p.

(** A literal under the [i] flag at the head of [s]: the matched text and
    the rest. *)
Fixpoint matchCI (p s : jsstring) : option (jsstring * jsstring) :=
  match p with
  | [] => Some ([], s)
  | x :: p' =>
      match s with
      | c :: s' =>
          if ci x c
          then match matchCI p' s' with
               | Some (m, r) => Some (c :: m, r)
               | None => None
               end
          else None
      | [] => None
      end
  end.

End Unicode.

(* ===================================================================== *)
(** * Numbers *)
(* ===================================================================== *)

(** JavaScript numbers are binary64 floating-point values.  Conversions from
    text round the exact decimal value to the nearest value, ties to even. *)
Module Num.
Local Open Scope Z_scope.

Definition number := spec_float.
Definition prec : Z := 53.
Definition emax : Z := 1024.

Definition NaN : number := S754_nan.

(** The number of an integer. *)
Definition ofZ (z : Z) : number := binary_normalize prec emax z 0 false.

Definition isNaN (x : number) : bool :=
  match x with S754_nan => true | _ => false end.

(** [Number.isFinite(x)] *)
Definition isFinite (x : number) : bool :=
  match x with S754_zero _ | S754_finite _ _ _ => true | _ => false end.

(** ToBoolean of a number: zero and NaN are falsy. *)
Definition truthy (x : number) : bool :=
  match x with S754_zero _ | S754_nan => false | _ => true end.

(** [x <= y], [x - y] *)
Definition leb (x y : number) : bool := SFleb x y.
Definition sub (x y : number) : number := SFsub prec emax x y.

(** [Math.max(x, y)], [Math.min(x, y)] *)
Definition max (x y : number) : number :=
  match SFcompare x y with
  | None => NaN
  | Some Lt => y
  | Some Gt => x
  | Some Eq => match x with S754_zero true => y | _ => x end
  end.
Definition min (x y : number) : number :=
  match SFcompare x y with
  | None => NaN
  | Some Lt => x
  | Some Gt => y
  | Some Eq => match x with S754_zero false => y | _ => x end
  end.

(** [Math.floor(x)] *)
Definition floor (x : number) : number :=
  match x with
  | S754_finite s m e =>
      if 0 <=? e then x
      else
        let q := Z.shiftr (Zpos m) (- e) in
        if s then
          binary_normalize prec emax
            (- (if Z.shiftl q (- e) =? Zpos m then q else q + 1)) 0 true
        else binary_normalize prec emax q 0 false
  | _ => x
  end.

(** The value nearest to [m * 10^e], for [0 <= m]; [neg] is the sign.  A
    negative exponent divides with enough extra bits for the remainder to
    decide the rounding. *)
Definition ofDecimal (neg : bool) (m e : Z) : number :=
  match m with
  | Zpos _ =>
      if 0 <=? e then binary_normalize prec emax ((if neg then - m else m) * 10 ^ e) 0 neg
      else
        let d := 10 ^ (- e) in
        let s := Zdigits2 d + 1100 in
        let (q, r) := Z.div_eucl (Z.shiftl m s) d in
        binary_round_aux prec emax neg q (- s) (new_location d r)
  | _ => S754_zero neg
  end.

Definition digitVal (c : N) : Z := Z.of_N c - 48.

Fixpoint digitsValue (acc : Z) (ds : jsstring) : Z :=
  match ds with
  | [] => acc
  | c :: ds' => digitsValue (10 * acc + digitVal c) ds'
  end.

(** An optional sign: [true] for [-]. *)
Definition takeSign (s : jsstring) : bool * jsstring :=
  match s with
  | c :: r => if (c =? 45)%N then (true, r) else if (c =? 43)%N then (false, r) else (false, s)
  | [] => (false, s)
  end.

(** ExponentPart, optional, up to the end of the literal. *)
Definition parseExponent (s : jsstring) : option Z :=
  match s with
  | [] => Some 0
  | c :: r =>
      if ((c =? 101) || (c =? 69))%N then
        let (neg, r1) := takeSign r in
        let (ds, r2) := Str.span Str.isDigit r1 in
        match ds, r2 with
        | _ :: _, [] => Some (if neg then - digitsValue 0 ds else digitsValue 0 ds)
        | _, _ => None
        end
      else None
  end.

(** StrUnsignedDecimalLiteral *)
Definition parseUnsigned (neg : bool) (s : jsstring) : number :=
  if Str.eqb s (js "Infinity") then S754_infinity neg
  else
    let (ip, r1) := Str.span Str.isDigit s in
    let (dot, r1') := match r1 with
                      | c :: r => if (c =? 46)%N then (true, r) else (false, r1)
                      | [] => (false, r1)
                      end in
    let (fp, r2) := if dot then Str.span Str.isDigit r1' else ([], r1') in
    match ip ++ fp with
    | [] => NaN
    | ds =>
        match parseExponent r2 with
        | Some e => ofDecimal neg (digitsValue 0 ds) (e - Z.of_nat (length fp))
        | None => NaN
        end
    end.

(** The value of a digit in a radix up to 16, if it is one. *)
Definition radixDigit (radix : Z) (c : N) : option Z :=
  let v := if Str.isDigit c then Z.of_N c - 48
           else if ((97 <=? c) && (c <=? 102))%N then Z.of_N c - 87
           else if ((65 <=? c) && (c <=? 70))%N then Z.of_N c - 55
           else radix in
  if v <? radix then Some v else None.

Fixpoint radixValue (radix acc : Z) (ds : jsstring) : option Z :=
  match ds with
  | [] => Some acc
  | c :: ds' =>
      match radixDigit radix c with
      | Some v => radixValue radix (radix * acc + v) ds'
      | None => None
      end
  end.

(** NonDecimalIntegerLiteral after its prefix *)
Definition parseRadix (radix : Z) (ds : jsstring) : number :=
  match ds with
  | [] => NaN
  | _ => match radixValue radix 0 ds with
         | Some v => ofZ v
         | None => NaN
         end
  end.

(** StrDecimalLiteral *)
Definition parseDecimal (t : jsstring) : number :=
  let (neg, r) := takeSign t in parseUnsigned neg r.

(** [Number(s)] for a string [s] (StringToNumber): white space around the
    literal is ignored, the empty literal is 0, anything that is not a
    numeric literal is NaN. *)
Definition Number (s : jsstring) : number :=
  let t := Str.trim s in
  match t with
  | [] => S754_zero false
  | z :: c :: r =>
      if (z =? 48)%N then
        if ((c =? 120) || (c =? 88))%N then parseRadix 16 r
        else if ((c =? 111) || (c =? 79))%N then parseRadix 8 r
        else if ((c =? 98) || (c =? 66))%N then parseRadix 2 r
        else parseDecimal t
      else parseDecimal t
  | _ => parseDecimal t
  end.

(** [parseInt(s, 10)]: leading white space, an optional sign and the longest
    run of decimal digits; NaN when there is no digit. *)
Definition parseInt10 (s : jsstring) : number :=
  let (neg, r) := takeSign (Str.trimStart s) in
  match fst (Str.span Str.isDigit r) with
  | [] => NaN
  | ds => ofDecimal neg (digitsValue 0 ds) 0
  end.

(** [Number(s) || null] *)
Definition orNull (x : number) : option number :=
  if truthy x then Some x else None.

(** ** Number to string *)

Fixpoint digitsOf_aux (fuel : nat) (n : Z) (acc : jsstring) : jsstring :=
  match fuel with
  | O => acc
  | S f =>
      let acc' := Z.to_N (n mod 10 + 48) :: acc in
      if n <? 10 then acc' else digitsOf_aux f (n / 10) acc'
  end.

(** The decimal digits of a non-negative integer. *)
Definition digitsOf (n : Z) : jsstring :=
  digitsOf_aux (S (Z.to_nat (Z.log2 n))) n [].

Definition pow10 (p : Z) : Q := Qpower (inject_Z 10) p.

(** The pairs [(s, n)] with [s] of exactly [k] digits and [s * 10^(n-k)]
    rounding to the positive value [xf], whose exact value is [x]; [est]
    approximates the decimal exponent of [x]. *)
Definition candidates (x : Q) (xf : number) (est k : Z) : list (Z * Z) :=
  flat_map
    (fun n =>
       let lo := Qfloor (Qdiv x (pow10 (n - k))) in
       filter
         (fun sn => (10 ^ (k - 1) <=? fst sn) && (fst sn <? 10 ^ k)
                    && SFeqb (ofDecimal false (fst sn) (n - k)) xf)
         [(lo, n); (lo + 1, n)])
    [est - 1; est; est + 1; est + 2].

(** Of two candidates the one nearer to [x], the even [s] on a tie. *)
Definition nearer (x : Q) (k : Z) (a b : Z * Z) : Z * Z :=
  let dist sn := Qabs (Qminus (Qmult (inject_Z (fst sn)) (pow10 (snd sn - k))) x) in
  match Qcompare (dist a) (dist b) with
  | Lt => a
  | Gt => b
  | Eq => if Z.even (fst a) then a else b
  end.

Fixpoint shortest (fuel : nat) (x : Q) (xf : number) (est k : Z) : option (Z * Z * Z) :=
  match fuel with
  | O => None
  | S f =>
      match candidates x xf est k with
      | c :: cs => let (s, n) := fold_left (nearer x k) cs c in Some (s, n, k)
      | [] => shortest f x xf est (k + 1)
      end
  end.

Definition zeros (n : Z) : jsstring := repeat 48%N (Z.to_nat n).

(** Number::toString of a positive finite value [m * 2^e], radix 10. *)
Definition positiveToString (m : positive) (e : Z) : jsstring :=
  let x := Qmult (inject_Z (Zpos m)) (Qpower (inject_Z 2) e) in
  let est := (Zdigits2 (Zpos m) + e) * 30103 / 100000 in
  match shortest 17 x (S754_finite false m e) est 1 with
  | None => []
  | Some (s, n, k) =>
      let ds := digitsOf s in
      if (k <=? n) && (n <=? 21) then ds ++ zeros (n - k)
      else if (0 <? n) && (n <=? 21) then
        firstn (Z.to_nat n) ds ++ [46%N] ++ skipn (Z.to_nat n) ds
      else if (-6 <? n) && (n <=? 0) then [48%N; 46%N] ++ zeros (- n) ++ ds
      else
        let ex := [101%N; (if 0 <=? n - 1 then 43%N else 45%N)] ++ digitsOf (Z.abs (n - 1)) in
        match ds with
        | d :: ((_ :: _) as r) => d :: 46%N :: r ++ ex
        | _ => ds ++ ex
        end
  end.

(** [String(x)] for a number: the text of a template literal hole and of a
    property key. *)
Definition toString (x : number) : jsstring :=
  match x with
  | S754_nan => js "NaN"
  | S754_zero _ => js "0"
  | S754_infinity s => if s then js "-Infinity" else js "Infinity"
  | S754_finite s m e =>
      if s then 45%N :: positiveToString m e else positiveToString m e
  end.

End Num.

(* ===================================================================== *)
(** * Regular-expression helpers *)
(* ===================================================================== *)

Module Re.
Local Open Scope N_scope.
Import Str Unicode.

(** One pattern position under the [i] flag: the characters written at it
    (one for a literal, several for a class such as [[ÉE]]). *)
Definition atom := list N.
Definition lit (s : jsstring) : list atom := map (fun c => [c]) s.

Definition matchAtom (a : atom) (c : N) : bool := existsb (fun p => ci p c) a.

(** A sequence of positions at the head of [s]: the matched text and the
    rest. *)
Fixpoint matchAtoms (p : list atom) (s : jsstring) : option (jsstring * jsstring) :=
  match p with
  | [] => Some ([], s)
  | a :: p' =>
      match s with
      | c :: s' =>
          if matchAtom a c
          then match matchAtoms p' s' with
               | Some (m, r) => Some (c :: m, r)
               | None => None
               end
          else None
      | [] => None
      end
  end.

(** The first alternative that matches at the head of [s]. *)
Fixpoint matchAlt (ps : list (list atom)) (s : jsstring) : option (jsstring * jsstring) :=
  match ps with
  | [] => None
  | p :: ps' =>
      match matchAtoms p s with
      | Some r => Some r
      | None => matchAlt ps' s
      end
  end.

Definition isWordOpt (c : option N) : bool :=
  match c with Some x => isWord x | None => false end.

(** [\b] between the unit before a position and the unit after it. *)
Definition wordBoundary (prev next : option N) : bool :=
  xorb (isWordOpt prev) (isWordOpt next).

Definition matchWordHere (ps : list (list atom)) (prev : option N) (s : jsstring)
  : option (jsstring * jsstring) :=
  if wordBoundary prev (hd_error s) then
    match matchAlt ps s with
    | Some (m, r) =>
        if wordBoundary (match rev m with x :: _ => Some x | [] => prev end) (hd_error r)
        then Some (m, r) else None
    | None => None
    end
  else None.

(** The leftmost match of [/\b(p1|p2|...)\b/i] in [s], the unit before [s]
    being [prev]: the text before the match, the match, the text after. *)
Fixpoint searchWord (ps : list (list atom)) (prev : option N) (s : jsstring)
  : option (jsstring * jsstring * jsstring) :=
  match matchWordHere ps prev s with
  | Some (m, r) => Some ([], m, r)
  | None =>
      match s with
      | [] => None
      | c :: s' =>
          match searchWord ps (Some c) s' with
          | Some (b, m, r) => Some (c :: b, m, r)
          | None => None
          end
      end
  end.

(** [s.replace(/\b(p)\b/i, by)]: the first match only. *)
Definition replaceWord (p : list atom) (by_ : jsstring) (s : jsstring) : jsstring :=
  match searchWord [p] None s with
  | Some (b, _, r) => b ++ by_ ++ r
  | None => s
  end.

(** [s.replace(/^p/i, by)] *)
Definition replacePrefix (p : list atom) (by_ : jsstring) (s : jsstring) : jsstring :=
  match matchAtoms p s with
  | Some (_, r) => by_ ++ r
  | None => s
  end.

(** [\s+] and [\S+] at the head of [s]: the run, when it is not empty, and
    the rest.  Both are greedy and what follows them in the patterns below
    can never start inside the run, so the longest run is the only one. *)
Definition spaces1 (s : jsstring) : option (jsstring * jsstring) :=
  match span isSpace s with
  | ((_ :: _) as m, r) => Some (m, r)
  | _ => None
  end.
Definition token1 (s : jsstring) : option (jsstring * jsstring) :=
  match span (fun c => negb (isSpace c)) s with
  | ((_ :: _) as m, r) => Some (m, r)
  | _ => None
  end.
Definition digits1 (s : jsstring) : option (jsstring * jsstring) :=
  match span isDigit s with
  | ((_ :: _) as m, r) => Some (m, r)
  | _ => None
  end.
(** [[^c]+] *)
Definition notChar1 (c : N) (s : jsstring) : option (jsstring * jsstring) :=
  match span (fun x => negb (x =? c)) s with
  | ((_ :: _) as m, r) => Some (m, r)
  | _ => None
  end.

(** A case-sensitive literal at the head of [s]. *)
Fixpoint literal (p s : jsstring) : option jsstring :=
  match p, s with
  | [], _ => Some s
  | x :: p', c :: s' => if x =? c then literal p' s' else None
  | _ :: _, [] => None
  end.

(** [/\b(TCP|UDP)\b/i] *)
Definition protoWord : list (list atom) := [lit (js "TCP"); lit (js "UDP")].

End Re.

(* ===================================================================== *)
(** * lib/parsers.js *)
(* ===================================================================== *)

Module Parsers.
Local Open Scope N_scope.
Import Str Unicode Re.
Import Num (number).

Record hostPort := { host : jsstring; port : option number }.

(** [/^\[([^\]]+)\]:(\d+)$/]: the bracketed host and the port digits. *)
Definition matchBracket (addr : jsstring) : option (jsstring * jsstring) :=
  match literal (js "[") addr with
  | Some r =>
      match notChar1 93 r with
      | Some (h, r1) =>
          match literal (js "]:") r1 with
          | Some r2 =>
              match digits1 r2 with
              | Some (d, []) => Some (h, d)
              | _ => None
              end
          | None => None
          end
      | None => None
      end
  | None => None
  end.

(** [splitHostPort(addr)] *)
Definition splitHostPort (addr : jsstring) : hostPort :=
  if negb (truthy addr) then {| host := addr; port := None |}
  else
    match matchBracket addr with
    | Some (h, d) => {| host := h; port := Some (Num.Number d) |}
    | None =>
        let other :=
          if Str.eqb addr (js "*:*") then {| host := js "*"; port := None |}
          else {| host := addr; port := None |} in
        match lastIndexOf1 58 addr, indexOf (js ":") addr with
        | Some lastColon, Some firstColon =>
            if Nat.eqb firstColon lastColon then
              let p := Num.Number (slice_from (lastColon + 1) addr) in
              {| host := slice_to lastColon addr;
                 port := if Num.isFinite p then Some p else None |}
            else other
        | _, _ => other
        end
    end.

Record ConnectionRecord := {
  key : jsstring;
  protocol : jsstring;
  localAddress : jsstring;
  localPort : option number;
  remoteAddress : jsstring;
  remotePort : option number;
  state : jsstring;
  pid : option number;
  processName : option jsstring;
  owner : option jsstring
}.

(** [`${a}|${b}|${c}|${d}`] *)
Definition keyOf (a b c d : jsstring) : jsstring :=
  a ++ js "|" ++ b ++ js "|" ++ c ++ js "|" ++ d.

(** [pid ?? ''] inside a template literal *)
Definition pidText (p : option number) : jsstring :=
  match p with Some n => Num.toString n | None => [] end.

(** ** Windows: netstat -ano *)

(** The French to English replacements of one line, in source order. *)
Definition normalizeLine (line : jsstring) : jsstring :=
  let l1 := replacePrefix (lit (js "Connexions actives")) (js "Active Connections") line in
  let l2 := replaceWord (lit (js "Adresse locale")) (js "Local Address") l1 in
  let l3 := replaceWord (lit (js "Adresse distante")) (js "Foreign Address") l2 in
  let l4 := replaceWord ([201; 69] :: lit (js "tat")) (js "State") l3 in
  let l5 := replaceWord (lit (201 :: js "COUTE")) (js "LISTENING") l4 in
  let l6 := replaceWord (lit (js "ECOUTE")) (js "LISTENING") l5 in
  replaceWord (lit (js "FERM") ++ [[201; 69]] ++ lit (js "E")) (js "CLOSED") l6.

(** [/\b(TCP|UDP)\b/i.test(l)] *)
Definition hasProtoWord (l : jsstring) : bool :=
  match searchWord protoWord None l with Some _ => true | None => false end.

(** The record pushed for one data line, if any. *)
Definition windowsRecord (line : jsstring) : option ConnectionRecord :=
  let parts := split (js " ") (collapseSpaces line) in
  let proto := toUpperCase (or_else (nth 0 parts []) []) in
  if Str.eqb proto (js "TCP") && (5 <=? length parts)%nat then
    let local := nth 1 parts [] in
    let remote := nth 2 parts [] in
    let st := nth 3 parts [] in
    let p := nth 4 parts [] in
    let l := splitHostPort local in
    let r := splitHostPort remote in
    Some {| key := keyOf proto local remote p;
            protocol := js "TCP";
            localAddress := host l; localPort := port l;
            remoteAddress := host r; remotePort := port r;
            state := toUpperCase (or_else st []);
            pid := Num.orNull (Num.Number p);
            processName := None;
            owner := None |}
  else if Str.eqb proto (js "UDP") && (4 <=? length parts)%nat then
    let local := nth 1 parts [] in
    let remote := nth 2 parts [] in
    let p := nth 3 parts [] in
    let l := splitHostPort local in
    let r := splitHostPort remote in
    Some {| key := keyOf proto local remote p;
            protocol := js "UDP";
            localAddress := host l; localPort := port l;
            remoteAddress := host r; remotePort := port r;
            state := js "UNSPECIFIED";
            pid := Num.orNull (Num.Number p);
            processName := None;
            owner := None |}
  else None.

(** Records of a list of lines, in order: the [for] loops of the three
    extractors push at most one record per line. *)
Definition collect {A} (f : jsstring -> option A) (lines : list jsstring) : list A :=
  flat_map (fun l => match f l with Some r => [r] | None => [] end) lines.

(** [parseWindowsNetstat(text)] *)
Definition parseWindowsNetstat (text : jsstring) : list ConnectionRecord :=
  let lines := filter truthy (map trim (splitLines text)) in
  let normalized := map normalizeLine lines in
  let dataLines := filter hasProtoWord normalized in
  collect windowsRecord dataLines.

(** ** Linux: ss -tunap *)

(** [/^\s*Netid\s+/i.test(l)] *)
Definition isHeader (l : jsstring) : bool :=
  match matchAtoms (lit (js "Netid")) (dropWhile isSpace l) with
  | Some (_, r) => match spaces1 r with Some _ => true | None => false end
  | None => false
  end.

(** [(.+)\)\)]: the longest non-empty text, free of line terminators, that
    is followed by two closing parentheses. *)
Fixpoint beforeLastParens (acc : jsstring) (s : jsstring) : option jsstring :=
  match s with
  | [] => None
  | c :: s' =>
      match (if isLineTerminator c then None else beforeLastParens (c :: acc) s') with
      | Some m => Some m
      | None => if truthy acc && startsWith (js "))") s then Some (rev acc) else None
      end
  end.

(** [(?:\s+users:\(\((.+)\)\))?] after the remote address: capture 5. *)
Definition usersGroup (r : jsstring) : option jsstring :=
  match spaces1 r with
  | Some (_, r1) =>
      match matchAtoms (lit (js "users:((")) r1 with
      | Some (_, r2) => beforeLastParens [] r2
      | None => None
      end
  | None => None
  end.

(** [/^(tcp|udp)\s+(\S+)\s+\S+\s+\S+\s+(\S+)\s+(\S+)(?:\s+users:\(\((.+)\)\))?/i]:
    captures 1 to 5. *)
Definition matchSS (line : jsstring)
  : option (jsstring * jsstring * jsstring * jsstring * option jsstring) :=
  match matchAlt [lit (js "tcp"); lit (js "udp")] line with
  | Some (m1, r0) =>
      match spaces1 r0 with Some (_, r1) =>
      match token1 r1 with Some (m2, r2) =>
      match spaces1 r2 with Some (_, r3) =>
      match token1 r3 with Some (_, r4) =>
      match spaces1 r4 with Some (_, r5) =>
      match token1 r5 with Some (_, r6) =>
      match spaces1 r6 with Some (_, r7) =>
      match token1 r7 with Some (m3, r8) =>
      match spaces1 r8 with Some (_, r9) =>
      match token1 r9 with Some (m4, r10) =>
        Some (m1, m2, m3, m4, usersGroup r10)
      | None => None end | None => None end | None => None end
      | None => None end | None => None end | None => None end
      | None => None end | None => None end | None => None end
      | None => None end
  | None => None
  end.

(** The user pattern at the head of [s]: a double quote, [([^Q]+)] with [Q]
    the double quote, a double quote, [[,)]\s*pid=(\d+)].  Captures 1, 2. *)
Definition matchUserHere (s : jsstring) : option (jsstring * jsstring) :=
  match literal [34] s with
  | Some r =>
      match notChar1 34 r with
      | Some (name, r1) =>
          match literal [34] r1 with
          | Some (c :: r2) =>
              if (c =? 44) || (c =? 41) then
                match literal (js "pid=") (dropWhile isSpace r2) with
                | Some r3 =>
                    match digits1 r3 with
                    | Some (d, _) => Some (name, d)
                    | None => None
                    end
                | None => None
                end
              else None
          | _ => None
          end
      | None => None
      end
  | None => None
  end.

(** [users.match(...)] with the user pattern: the leftmost match. *)
Fixpoint matchUser (s : jsstring) : option (jsstring * jsstring) :=
  match matchUserHere s with
  | Some r => Some r
  | None => match s with [] => None | _ :: s' => matchUser s' end
  end.

Definition ssRecord (line : jsstring) : option ConnectionRecord :=
  match matchSS line with
  | None => None
  | Some (m1, m2, m3, m4, m5) =>
      let proto := toUpperCase m1 in
      let st := toUpperCase m2 in
      let users := match m5 with Some u => or_else u [] | None => [] end in
      let l := splitHostPort m3 in
      let r := splitHostPort m4 in
      let u := matchUser users in
      let p := match u with Some (_, d) => Some (Num.Number d) | None => None end in
      Some {| key := keyOf proto m3 m4 (pidText p);
              protocol := proto;
              localAddress := host l; localPort := port l;
              remoteAddress := host r; remotePort := port r;
              state := st;
              pid := p;
              processName := match u with Some (name, _) => Some name | None => None end;
              owner := None |}
  end.

(** [parseLinuxSS(text)] *)
Definition parseLinuxSS (text : jsstring) : list ConnectionRecord :=
  let lines := filter truthy (splitLines text) in
  let data := filter (fun l => negb (isHeader l)) lines in
  collect ssRecord data.

(** ** macOS and Linux fallback: lsof -nP -i *)

(** [/^(\S+)\s+(\d+)\s+(\S+)/]: captures 1 to 3. *)
Definition matchHead (line : jsstring) : option (jsstring * jsstring * jsstring) :=
  match token1 line with Some (m1, r1) =>
  match spaces1 r1 with Some (_, r2) =>
  match digits1 r2 with Some (m2, r3) =>
  match spaces1 r3 with Some (_, r4) =>
  match token1 r4 with Some (m3, _) => Some (m1, m2, m3)
  | None => None end | None => None end | None => None end
  | None => None end | None => None end.

(** [\(([^)]+)\)\s*$] at the head of [s]: capture 1. *)
Definition matchStateHere (s : jsstring) : option jsstring :=
  match literal (js "(") s with
  | Some r =>
      match notChar1 41 r with
      | Some (m, r1) =>
          match literal (js ")") r1 with
          | Some r2 => match dropWhile isSpace r2 with [] => Some m | _ => None end
          | None => None
          end
      | None => None
      end
  | None => None
  end.

(** The leftmost match of [/\(([^)]+)\)\s*$/]: the text before it and
    capture 1. *)
Fixpoint matchState (s : jsstring) : option (jsstring * jsstring) :=
  match matchStateHere s with
  | Some m => Some ([], m)
  | None =>
      match s with
      | [] => None
      | c :: s' =>
          match matchState s' with
          | Some (b, m) => Some (c :: b, m)
          | None => None
          end
      end
  end.

Definition lsofRecord (line : jsstring) : option ConnectionRecord :=
  match searchWord protoWord None line with
  | None => None
  | Some (_, protoM, _) =>
      let proto := toUpperCase protoM in
      let headM := matchHead line in
      let p := match headM with Some (_, d, _) => Some (Num.Number d) | None => None end in
      let own := match headM with Some (_, _, o) => Some o | None => None end in
      let at_ := match indexOf protoM line with Some i => i | None => O end in
      let afterProto := trim (slice_from (at_ + length protoM) line) in
      let stateM := matchState afterProto in
      let st := match stateM with
                | Some (_, m) => toUpperCase m
                | None => if Str.eqb proto (js "UDP") then js "UNSPECIFIED" else js "UNKNOWN"
                end in
      let arrow := trim (match stateM with Some (b, _) => b | None => afterProto end) in
      let (local, remote) :=
        if includes (js "->") arrow then
          let s := split (js "->") arrow in
          (trim (nth 0 s []), trim (nth 1 s []))
        else (trim arrow, js "*:*") in
      let l := splitHostPort local in
      let r := splitHostPort remote in
      Some {| key := keyOf proto local remote (pidText p);
              protocol := proto;
              localAddress := host l; localPort := port l;
              remoteAddress := host r; remotePort := port r;
              state := st;
              pid := p;
              processName := match token1 line with Some (n, _) => Some n | None => None end;
              owner := own |}
  end.

(** [parseLsof(text)] *)
Definition parseLsof (text : jsstring) : list ConnectionRecord :=
  collect lsofRecord (filter truthy (splitLines text)).

End Parsers.

(* ===================================================================== *)
(** * js/syslib_ports.js *)
(* ===================================================================== *)

Module Ports.
Local Open Scope Z_scope.
Import Str Unicode Re.
Import Num (number).

(** [/^\[(.+)\]:(\d+)$/]: the port is the run of digits at the end, the
    host the non-empty text without line terminators between the opening
    bracket and the [\]:] before the port. *)
Definition matchBracket (addr : jsstring) : option (jsstring * jsstring) :=
  match literal (js "[") addr with
  | Some r =>
      match digits1 (rev r) with
      | Some (d, r1) =>
          match literal (js ":]") r1 with
          | Some h =>
              if truthy h && forallb (fun c => negb (isLineTerminator c)) h
              then Some (rev h, rev d) else None
          | None => None
          end
      | None => None
      end
  | None => None
  end.

Record hostPort := { host : jsstring; port : number }.

(** [splitHostPort(addr)]: the port is a number or NaN. *)
Definition splitHostPort (addr : jsstring) : hostPort :=
  if negb (truthy addr) then {| host := []; port := Num.NaN |}
  else
    match matchBracket addr with
    | Some (h, d) => {| host := h; port := Num.Number d |}
    | None =>
        match lastIndexOf1 58 addr with
        | None => {| host := addr; port := Num.NaN |}
        | Some idx =>
            let p := Num.Number (slice_from (idx + 1) addr) in
            {| host := slice_to idx addr;
               port := if Num.isFinite p then p else Num.NaN |}
        end
    end.

(** ** The pid to image name table *)

(** A [Map] with number keys: keys are compared by SameValueZero, [set]
    keeps the position of a key already present and stores a new key -0
    as +0. *)
Definition pidMap := list (number * jsstring).

Definition sameValueZero (x y : number) : bool :=
  match x, y with
  | S754_nan, S754_nan => true
  | _, _ => SFeqb x y
  end.

Fixpoint mapGet (m : pidMap) (k : number) : option jsstring :=
  match m with
  | [] => None
  | (k', v) :: m' => if sameValueZero k' k then Some v else mapGet m' k
  end.

Definition keyOfMap (k : number) : number :=
  match k with S754_zero _ => S754_zero false | _ => k end.

Fixpoint mapSet (m : pidMap) (k : number) (v : jsstring) : pidMap :=
  match m with
  | [] => [(keyOfMap k, v)]
  | (k', v') :: m' =>
      if sameValueZero k' k then (k', v) :: m' else (k', v') :: mapSet m' k v
  end.

(** The quoted-CSV loop over the code units of a line: [cols] in reverse,
    [cur] in reverse, [inQuotes]. *)
Fixpoint csvCols (cols : list jsstring) (cur : jsstring) (inQuotes : bool)
  (line : jsstring) : list jsstring :=
  match line with
  | [] => rev (rev cur :: cols)
  | ch :: line' =>
      if (ch =? 34)%N then csvCols cols cur (negb inQuotes) line'
      else if (ch =? 44)%N && negb inQuotes then csvCols (rev cur :: cols) [] inQuotes line'
      else csvCols cols (ch :: cur) inQuotes line'
  end.

(** One row of [tasklist /fo csv /nh] entered into the table. *)
Definition csvRow (line : jsstring) (m : pidMap) : pidMap :=
  let cols := csvCols [] [] false line in
  let imageName := trim (or_else (nth 0 cols []) []) in
  let pid := Num.parseInt10 (trim (or_else (nth 1 cols []) [])) in
  if truthy imageName && negb (Num.isNaN pid) then mapSet m pid imageName else m.

Section Streams.
(** The chunks of a child process stream arrive as buffers; [decode] is
    [buf.toString('utf8')]. *)
Context {Buffer : Type} (decode : Buffer -> jsstring).

(** [lines = chunk.split(/\r?\n/); leftover = lines.pop() || ''] *)
Definition popLines (chunk : jsstring) : list jsstring * jsstring :=
  let lines := splitLines chunk in
  (removelast lines, or_else (last lines []) []).

(** The [data] handler of [buildPidMapWindows] on the table and leftover. *)
Definition pidMapData (st : pidMap * jsstring) (buf : Buffer) : pidMap * jsstring :=
  let (m, leftover) := st in
  let (lines, leftover') := popLines (leftover ++ decode buf) in
  (fold_left (fun m line => if truthy (trim line) then csvRow line m else m) lines m,
   leftover').

(** [buildPidMapWindows()] on the chunks [tasklist] writes before its
    output ends. *)
Definition buildPidMapWindows (chunks : list Buffer) : pidMap :=
  let (m, leftover) := fold_left pidMapData chunks ([], []) in
  if truthy (trim leftover) then csvRow (trim leftover) m else m.

(** ** scanPorts *)

Record entry := {
  protocol : jsstring;
  localAddress : jsstring;
  localPort : number;
  foreignAddress : jsstring;
  foreignPort : number;
  state : jsstring;
  pid : option number;
  processName : jsstring
}.

(** How the promise of [scanPorts] settles; an error is its message. *)
Inductive outcome :=
| Resolved (entries : list entry)
| Rejected (message : jsstring).

(** The variables of the promise body.  The counters are integers far below
    2^53, so they are kept exact.  [notifications] lists the calls of the
    progress callback, oldest first, as [(current, total)]. *)
Record scan := {
  entries : list entry;
  leftover : jsstring;
  parsedCount : Z;
  estimateTotal : Z;
  notifications : list (Z * Z);
  settled : option outcome
}.

Definition initial : scan :=
  {| entries := []; leftover := []; parsedCount := 0; estimateTotal := 200;
     notifications := []; settled := None |}.

(** [maxPort] after the first two statements of [scanPorts]; [None] is an
    argument that is missing or not a number. *)
Definition clampMaxPort (maxPort : option number) : number :=
  let m := match maxPort with
           | Some m => if Num.isFinite m then m else Num.ofZ 65535
           | None => Num.ofZ 65535
           end in
  Num.min (Num.ofZ 65535) (Num.max (Num.ofZ 1) (Num.floor m)).

Section Scan.
Variable maxPort : number.
(** [typeof progressCb === 'function'] *)
Variable hasCb : bool.
Variable names : pidMap.

Definition nameOf (p : number) : jsstring :=
  if Num.isNaN p then []
  else or_else (match mapGet names p with Some n => n | None => [] end) [].

Definition pidOf (p : number) : option number :=
  if Num.isNaN p then None else Some p.

(** [/^(TCP|UDP)\s+/i.test(line)] *)
Definition isDataLine (line : jsstring) : bool :=
  match matchAlt protoWord line with
  | Some (_, r) => match spaces1 r with Some _ => true | None => false end
  | None => false
  end.

Definition push (e : entry) (st : scan) : scan :=
  {| entries := entries st ++ [e]; leftover := leftover st;
     parsedCount := parsedCount st; estimateTotal := estimateTotal st;
     notifications := notifications st; settled := settled st |}.

Definition count (st : scan) : scan :=
  {| entries := entries st; leftover := leftover st;
     parsedCount := parsedCount st + 1; estimateTotal := estimateTotal st;
     notifications := notifications st; settled := settled st |}.

Definition keep (p : number) : bool := Num.isFinite p && Num.leb p maxPort.

(** The TCP and UDP branches on a trimmed data line, the same code in the
    [data] and the [end] handler. *)
Definition parseLine (line : jsstring) (st : scan) : scan :=
  let parts := splitSpaces line in
  let proto := toUpperCase (nth 0 parts []) in
  if Str.eqb proto (js "TCP") && (5 <=? length parts)%nat then
    let local := or_else (nth 1 parts []) [] in
    let foreign := or_else (nth 2 parts []) [] in
    let st_ := or_else (nth 3 parts []) [] in
    let p := Num.parseInt10 (nth 4 parts []) in
    let l := splitHostPort local in
    let f := splitHostPort foreign in
    let st1 := count st in
    if keep (port l) then
      push {| protocol := proto; localAddress := host l; localPort := port l;
              foreignAddress := host f; foreignPort := port f; state := st_;
              pid := pidOf p; processName := nameOf p |} st1
    else st1
  else if Str.eqb proto (js "UDP") then
    let p := Num.parseInt10 (last parts []) in
    let local := or_else (nth 1 parts []) [] in
    let foreign := or_else (nth 2 parts []) (js "*:*") in
    let l := splitHostPort local in
    let f := splitHostPort foreign in
    let st1 := count st in
    if keep (port l) then
      push {| protocol := proto; localAddress := host l; localPort := port l;
              foreignAddress := host f; foreignPort := port f; state := [];
              pid := pidOf p; processName := nameOf p |} st1
    else st1
  else st.

(** [progressCb(current, total)] inside its [try], when there is a callback. *)
Definition notify (current total : Z) (st : scan) : scan :=
  if hasCb then
    {| entries := entries st; leftover := leftover st;
       parsedCount := parsedCount st; estimateTotal := estimateTotal st;
       notifications := notifications st ++ [(current, total)];
       settled := settled st |}
  else st.

(** The throttled progress at the end of a loop iteration. *)
Definition throttle (st : scan) : scan :=
  if parsedCount st mod 25 =? 0 then
    let est := Z.max (estimateTotal st) (parsedCount st + 50) in
    notify (parsedCount st) (Z.max (parsedCount st + 1) est)
      {| entries := entries st; leftover := leftover st;
         parsedCount := parsedCount st; estimateTotal := est;
         notifications := notifications st; settled := settled st |}
  else st.

(** One iteration of [for (const raw of lines)]. *)
Definition dataLine (st : scan) (raw : jsstring) : scan :=
  let line := trim raw in
  if negb (truthy line) || negb (isDataLine line) then st
  else throttle (parseLine line st).

Definition setLeftover (l : jsstring) (st : scan) : scan :=
  {| entries := entries st; leftover := l;
     parsedCount := parsedCount st; estimateTotal := estimateTotal st;
     notifications := notifications st; settled := settled st |}.

(** [ns.stdout.on('data', ...)] on a decoded chunk. *)
Definition feed (st : scan) (text : jsstring) : scan :=
  let (lines, rest) := popLines (leftover st ++ text) in
  fold_left dataLine lines (setLeftover rest st).

Definition onData (st : scan) (buf : Buffer) : scan := feed st (decode buf).

(** A promise settles once: later [resolve] and [reject] calls are ignored. *)
Definition settle (o : outcome) (st : scan) : scan :=
  match settled st with
  | Some _ => st
  | None =>
      {| entries := entries st; leftover := leftover st;
         parsedCount := parsedCount st; estimateTotal := estimateTotal st;
         notifications := notifications st; settled := Some o |}
  end.

(** ** The final order *)

(** [a.localeCompare(b)] as -1, 0 or 1, by code units: on the two protocol
    names, the only strings compared here, every collation gives this. *)
Fixpoint localeCompare (a b : jsstring) : Z :=
  match a, b with
  | [], [] => 0
  | [], _ :: _ => -1
  | _ :: _, [] => 1
  | x :: a', y :: b' =>
      match N.compare x y with
      | Lt => -1
      | Gt => 1
      | Eq => localeCompare a' b'
      end
  end.

Definition signOf (x : number) : Z :=
  match x with
  | S754_finite s _ _ | S754_infinity s => if s then -1 else 1
  | _ => 0
  end.

(** The sign of [(a.localPort - b.localPort) || a.protocol.localeCompare(b.protocol)]. *)
Definition compareEntries (a b : entry) : Z :=
  let d := Num.sub (localPort a) (localPort b) in
  if Num.truthy d then signOf d else localeCompare (protocol a) (protocol b).

(** [Array.prototype.sort] is stable: an element moves behind a later one
    only when the comparison is positive. *)
Fixpoint insertEntry (x : entry) (l : list entry) : list entry :=
  match l with
  | [] => [x]
  | y :: l' => if 0 <? compareEntries x y then y :: insertEntry x l' else x :: l
  end.
Definition sortEntries (l : list entry) : list entry := fold_right insertEntry [] l.

(** [ns.stdout.on('end', ...)] *)
Definition onEnd (st : scan) : scan :=
  let line := trim (leftover st) in
  let st1 := if truthy line
             then if isDataLine line then parseLine line st else st
             else st in
  let st2 := notify (parsedCount st1) (parsedCount st1) st1 in
  let sorted := sortEntries (entries st2) in
  settle (Resolved sorted)
    {| entries := sorted; leftover := leftover st2;
       parsedCount := parsedCount st2; estimateTotal := estimateTotal st2;
       notifications := notifications st2; settled := settled st2 |}.

(** [ns.stderr.on('data', ...)] *)
Definition onStderr (st : scan) (buf : Buffer) : scan :=
  let s := trim (decode buf) in
  if truthy s then settle (Rejected (js "netstat stderr: " ++ s)) st else st.

(** What [netstat] does before its output ends. *)
Inductive event :=
| StdoutData (buf : Buffer)
| StderrData (buf : Buffer)
| ProcessError (message : jsstring).

Definition handle (st : scan) (ev : event) : scan :=
  match ev with
  | StdoutData buf => onData st buf
  | StderrData buf => onStderr st buf
  | ProcessError message => settle (Rejected message) st
  end.

(** The promise body of [scanPorts] run on the events of [netstat -ano],
    the end of its output being the last one. *)
Definition runScan (events : list event) : scan :=
  onEnd (fold_left handle events initial).

End Scan.

(** [scanPorts(maxPort, progressCb)]: the table of [tasklist] is built
    first, then [netstat] is read. *)
Definition scanPorts (maxPort : option number) (hasCb : bool)
  (tasklist : list Buffer) (events : list event) : scan :=
  runScan (clampMaxPort maxPort) hasCb (buildPidMapWindows tasklist) events.

End Streams.
End Ports.

(* ===================================================================== *)
(** * lib/owners.js, Linux *)
(* ===================================================================== *)

Module Owners.
Local Open Scope N_scope.
Import Str Re.
Import Num (number).

(** The files the resolver reads: [readFileSync(path, 'utf8')] and
    [readdirSync(path)], [None] when the call throws. *)
Record fileSystem := {
  readFile : jsstring -> option jsstring;
  readdir : jsstring -> option (list jsstring)
}.

(** A plain object used as a table, built by assignments from the empty
    object: a number used as a key is its string; the keys are listed as
    JavaScript lists them, array indices in ascending order first, then the
    other keys in the order of their first assignment. *)
Definition object := list (jsstring * jsstring).

Fixpoint objGet (o : object) (k : jsstring) : option jsstring :=
  match o with
  | [] => None
  | (k', v) :: o' => if Str.eqb k' k then Some v else objGet o' k
  end.

(** The array index a key is, if it is one: the canonical text of an
    integer below 2^32 - 1. *)
Definition arrayIndex (k : jsstring) : option N :=
  match k with
  | [] => None
  | c :: r =>
      if forallb isDigit k
         && (negb (c =? 48) || match r with [] => true | _ => false end)
      then let n := fold_left (fun a d => a * 10 + (d - 48)) k 0 in
           if n <=? 4294967294 then Some n else None
      else None
  end.

(** [k] is listed before [k'], two different keys. *)
Definition listedBefore (k k' : jsstring) : bool :=
  match arrayIndex k, arrayIndex k' with
  | Some i, Some j => i <? j
  | Some _, None => true
  | None, _ => false
  end.

Fixpoint objSet (o : object) (k v : jsstring) : object :=
  match o with
  | [] => [(k, v)]
  | (k', v') :: o' =>
      if Str.eqb k' k then (k', v) :: o'
      else if listedBefore k k' then (k, v) :: o
      else (k', v') :: objSet o' k v
  end.

Definition backslash : N := 92.

(** The separator [/\\r?\\n/] of the source at the head of [s]: a backslash,
    an optional letter r, a backslash and the letter n; its length. *)
Definition escapedNewline (s : jsstring) : option nat :=
  match s with
  | a :: b :: c :: r =>
      if (a =? backslash) && (b =? 114) && (c =? backslash)
         && (match r with d :: _ => d =? 110 | [] => false end)
      then Some 4%nat
      else if (a =? backslash) && (b =? backslash) && (c =? 110) then Some 3%nat
      else None
  | _ => None
  end.

(** [txt.split(/\\r?\\n/)] *)
Fixpoint splitEscaped_aux (skip : nat) (cur : jsstring) (s : jsstring) : list jsstring :=
  match s with
  | [] => [rev cur]
  | c :: s' =>
      match skip with
      | S k => splitEscaped_aux k cur s'
      | O =>
          match escapedNewline s with
          | Some n => rev cur :: splitEscaped_aux (n - 1) [] s'
          | None => splitEscaped_aux 0 (c :: cur) s'
          end
      end
  end.
Definition splitEscaped (s : jsstring) : list jsstring := splitEscaped_aux 0 [] s.

(** [readPasswd()] *)
Definition readPasswd (fs : fileSystem) : jsstring :=
  match readFile fs (js "/etc/passwd") with Some t => t | None => [] end.

(** The body of the loop of [buildUidNameMap] for one line. *)
Definition passwdLine (map : object) (line : jsstring) : object :=
  if negb (truthy line) || startsWith (js "#") line then map
  else
    let parts := split (js ":") line in
    if (3 <=? length parts)%nat then
      let name := nth 0 parts [] in
      let uid := Num.Number (nth 2 parts []) in
      if Num.isFinite uid then objSet map (Num.toString uid) name else map
    else map.

(** [buildUidNameMap()] *)
Definition buildUidNameMap (fs : fileSystem) : object :=
  fold_left passwdLine (splitEscaped (readPasswd fs)) [].

(** [Uid:\\s+(\\d+)] of the source at the head of [s]: the text [Uid:], a
    backslash, letters s, a backslash and letters d.  Capture 1. *)
Definition matchUidHere (s : jsstring) : option jsstring :=
  match literal (js "Uid:" ++ [backslash]) s with
  | Some r =>
      match span (fun c => c =? 115) r with
      | (_ :: _, r1) =>
          match literal [backslash] r1 with
          | Some r2 =>
              match span (fun c => c =? 100) r2 with
              | ((_ :: _) as ds, _) => Some (backslash :: ds)
              | _ => None
              end
          | None => None
          end
      | _ => None
      end
  | None => None
  end.

(** [txt.match(/^Uid:\\s+(\\d+)/m)]: the leftmost match at the start of the
    text or after a line terminator. *)
Fixpoint matchUid (lineStart : bool) (s : jsstring) : option jsstring :=
  match (if lineStart then matchUidHere s else None) with
  | Some m => Some m
  | None =>
      match s with
      | [] => None
      | c :: s' => matchUid (isLineTerminator c) s'
      end
  end.

(** [pidToUid(pid)] *)
Definition pidToUid (fs : fileSystem) (pid : number) : option number :=
  match readFile fs (js "/proc/" ++ Num.toString pid ++ js "/status") with
  | Some txt =>
      match matchUid true txt with
      | Some m => Some (Num.Number m)
      | None => None
      end
  | None => None
  end.

(** The body of the loop of [ownersLinux] for one entry of [/proc]. *)
Definition procEntry (fs : fileSystem) (uidName : object) (map : object)
  (name : jsstring) : object :=
  let pid := Num.Number name in
  if negb (Num.isFinite pid) then map
  else
    match pidToUid fs pid with
    | Some uid =>
        match objGet uidName (Num.toString uid) with
        | Some n => if truthy n then objSet map (Num.toString pid) n else map
        | None => map
        end
    | None => map
    end.

(** [ownersLinux()] *)
Definition ownersLinux (fs : fileSystem) : object :=
  let uidName := buildUidNameMap fs in
  let entries := match readdir fs (js "/proc") with Some l => l | None => [] end in
  fold_left (procEntry fs uidName) entries [].

End Owners.

(* ===================================================================== *)
(** * Sample inputs and the port range of the data model *)
(* ===================================================================== *)

Module Sample.
Local Open Scope N_scope.
Import Parsers.

(** An integer within [0, 65535]. *)
Definition validPort (p : Num.number) : bool :=
  Num.isFinite p && SFeqb (Num.floor p) p
  && Num.leb (Num.ofZ 0) p && Num.leb p (Num.ofZ 65535).

Definition listeningLine : jsstring :=
  js "  TCP    0.0.0.0:135            0.0.0.0:0              LISTENING       900".

Definition listeningRecord : ConnectionRecord :=
  {| key := js "TCP|0.0.0.0:135|0.0.0.0:0|900";
     protocol := js "TCP";
     localAddress := js "0.0.0.0"; localPort := Some (Num.ofZ 135);
     remoteAddress := js "0.0.0.0"; remotePort := Some (Num.ofZ 0);
     state := js "LISTENING";
     pid := Some (Num.ofZ 900);
     processName := None;
     owner := None |}.

Definition Eacute : N := 201.

(** The same connection with the state in French and in English. *)
Definition etablieLine : jsstring :=
  js "  TCP    192.168.1.10:50000     93.184.216.34:443      "
  ++ [Eacute] ++ js "TABLIE     4321".
Definition establishedLine : jsstring :=
  js "  TCP    192.168.1.10:50000     93.184.216.34:443      ESTABLISHED     4321".
Definition ecouteLine : jsstring :=
  js "  TCP    0.0.0.0:135            0.0.0.0:0              "
  ++ [Eacute] ++ js "COUTE       900".

Definition etablieRecord : ConnectionRecord :=
  {| key := js "TCP|192.168.1.10:50000|93.184.216.34:443|4321";
     protocol := js "TCP";
     localAddress := js "192.168.1.10"; localPort := Some (Num.ofZ 50000);
     remoteAddress := js "93.184.216.34"; remotePort := Some (Num.ofZ 443);
     state := Eacute :: js "TABLIE";
     pid := Some (Num.ofZ 4321);
     processName := None;
     owner := None |}.

Definition bigPortLine : jsstring :=
  js "  TCP    0.0.0.0:99999          0.0.0.0:0              LISTENING       900".

Definition ssUdpLine : jsstring := js "udp   UNCONN 0      0      0.0.0.0:68     0.0.0.0:*".

Definition ssUdpRecord : ConnectionRecord :=
  {| key := js "UDP|0.0.0.0:68|0.0.0.0:*|";
     protocol := js "UDP";
     localAddress := js "0.0.0.0"; localPort := Some (Num.ofZ 68);
     remoteAddress := js "0.0.0.0"; remotePort := None;
     state := js "UNCONN";
     pid := None;
     processName := None;
     owner := None |}.

Definition lsofTcpLine : jsstring :=
  js "nc        4242 alice    3u  IPv4 0x1234      0t0  TCP *:8080".

Definition lsofTcpRecord : ConnectionRecord :=
  {| key := js "TCP|*:8080|*:*|4242";
     protocol := js "TCP";
     localAddress := js "*"; localPort := Some (Num.ofZ 8080);
     remoteAddress := js "*"; remotePort := None;
     state := js "UNKNOWN";
     pid := Some (Num.ofZ 4242);
     processName := Some (js "nc");
     owner := Some (js "alice") |}.





(** Output of [netstat -ano], whole and cut inside a line and inside a
    line break. *)
Definition cr : jsstring := [13].
Definition lf : jsstring := [10].

Definition netstatWhole : jsstring :=
  js "Active Connections" ++ cr ++ lf ++ cr ++ lf
  ++ js "  Proto  Local Address          Foreign Address        State           PID"
  ++ cr ++ lf
  ++ js "  TCP    0.0.0.0:135            0.0.0.0:0              LISTENING       900"
  ++ cr ++ lf
  ++ js "  UDP    0.0.0.0:500            *:*                                    4"
  ++ cr ++ lf.

Definition netstatCut : list jsstring :=
  [ js "Active Connections" ++ cr ++ lf ++ cr ++ lf
    ++ js "  Proto  Local Address          Foreign Address        State           PID"
    ++ cr ++ lf
    ++ js "  TCP    0.0.0.0:13";
    js "5            0.0.0.0:0              LISTENING       900" ++ cr;
    lf ++ js "  UDP    0.0.0.0:500            *:*                                    4"
    ++ cr ++ lf ].

Definition tcpEntry : Ports.entry :=
  {| Ports.protocol := js "TCP";
     Ports.localAddress := js "0.0.0.0"; Ports.localPort := Num.ofZ 135;
     Ports.foreignAddress := js "0.0.0.0"; Ports.foreignPort := Num.ofZ 0;
     Ports.state := js "LISTENING";
     Ports.pid := Some (Num.ofZ 900);
     Ports.processName := [] |}.

Definition udpEntry : Ports.entry :=
  {| Ports.protocol := js "UDP";
     Ports.localAddress := js "0.0.0.0"; Ports.localPort := Num.ofZ 500;
     Ports.foreignAddress := js "*"; Ports.foreignPort := Num.NaN;
     Ports.state := [];
     Ports.pid := Some (Num.ofZ 4);
     Ports.processName := [] |}.

(** A Linux system with one account and one process. *)
Definition tab : jsstring := [9].

Definition passwdText : jsstring :=
  js "root:x:0:0:root:/root:/bin/bash" ++ lf.

Definition statusText : jsstring :=
  js "Name:" ++ tab ++ js "systemd" ++ lf
  ++ js "Uid:" ++ tab ++ js "0" ++ tab ++ js "0" ++ tab ++ js "0" ++ tab ++ js "0" ++ lf.

Definition linuxFiles : Owners.fileSystem :=
  {| Owners.readFile := fun path =>
       if Str.eqb path (js "/etc/passwd") then Some passwdText
       else if Str.eqb path (js "/proc/1/status") then Some statusText
       else None;
     Owners.readdir := fun path =>
       if Str.eqb path (js "/proc") then Some [js "1"; js "self"] else None |}.

End Sample.

(* ===================================================================== *)
(** * Predicates used by the proofs *)
(* ===================================================================== *)

Module Aux.
Local Open Scope Z_scope.

(** [p] put in front of the first piece. *)
Definition prependFirst (p : jsstring) (l : list jsstring) : list jsstring :=
  match l with
  | x :: l' => (p ++ x) :: l'
  | [] => []
  end.

Definition headIsNot (c : N) (s : jsstring) : Prop :=
  match s with d :: _ => d <> c | [] => True end.

(** No two blanks in a row. *)
Fixpoint noDoubleSpace (t : jsstring) : Prop :=
  match t with
  | a :: ((b :: _) as t') => ~ (a = 32%N /\ b = 32%N) /\ noDoubleSpace t'
  | _ => True
  end.

Definition asciiUpper (c : N) : N :=
  if ((97 <=? c) && (c <=? 122))%N then (c - 32)%N else c.

Definition asciiCheck (c : N) : bool :=
  match Unicode.toUppercase c with
  | (v, []) => (v =? asciiUpper c)%N
  | _ => false
  end.

(** Both ports of a record, when present, are numbers other than NaN. *)
Definition portsAreNumbers (r : Parsers.ConnectionRecord) : Prop :=
  (forall p, Parsers.localPort r = Some p -> Num.isNaN p = false)
  /\ (forall p, Parsers.remotePort r = Some p -> Num.isNaN p = false).

(** What [parseLine] pushes: the port passed the bound, and the entry is a
    TCP one or a UDP one with the empty state. *)
Definition goodEntry (maxPort : Num.number) (e : Ports.entry) : Prop :=
  Ports.keep maxPort (Ports.localPort e) = true
  /\ (Ports.protocol e = js "TCP"
      \/ (Ports.protocol e = js "UDP" /\ Ports.state e = [])).

(** What every state reached by the handlers satisfies. *)
Record inv (maxPort : Num.number) (hasCb : bool) (st : Ports.scan) : Prop := {
  inv_entries : Forall (goodEntry maxPort) (Ports.entries st);
  inv_sorted : StronglySorted Z.le (map fst (Ports.notifications st));
  inv_bound : Forall (fun p => fst p <= Ports.parsedCount st) (Ports.notifications st);
  inv_nocb : hasCb = false -> Ports.notifications st = [];
  inv_unresolved : forall l, Ports.settled st <> Some (Ports.Resolved l)
}.

(** The state of the [end] handler before the final notification and the
    sort. *)
Definition flushed (maxPort : Num.number) (names : Ports.pidMap) (st : Ports.scan)
  : Ports.scan :=
  let line := Str.trim (Ports.leftover st) in
  if Str.truthy line
  then if Ports.isDataLine line then Ports.parseLine maxPort names line st else st
  else st.

End Aux.

(* ===================================================================== *)
(** * Predicates of the further properties *)
(* ===================================================================== *)

Module Shape.
Local Open Scope Z_scope.

(** A throttled notification: sent at a multiple of 25 parsed lines, with a
    total of at least 200 that is at least 50 ahead. *)
Definition throttled (p : Z * Z) : Prop :=
  fst p mod 25 = 0 /\ fst p + 50 <= snd p /\ 200 <= snd p.

(** What the progress estimate satisfies in every state of a scan. *)
Record estimate (st : Ports.scan) : Prop := {
  est_floor : 200 <= Ports.estimateTotal st;
  est_shape : Forall throttled (Ports.notifications st);
  est_bound : Forall (fun p => snd p <= Ports.estimateTotal st) (Ports.notifications st);
  est_sorted : StronglySorted Z.le (map snd (Ports.notifications st))
}.

(** The [data] handler of [buildPidMapWindows] on a decoded chunk. *)
Definition feedRows (st : Ports.pidMap * jsstring) (text : jsstring)
  : Ports.pidMap * jsstring :=
  (fold_left
     (fun m line => if Str.truthy (Str.trim line) then Ports.csvRow line m else m)
     (fst (Ports.popLines (snd st ++ text))) (fst st),
   snd (Ports.popLines (snd st ++ text))).

End Shape.

Module Shape2.
Local Open Scope N_scope.

(** A piece without the carriage return that ends it, if there is one. *)
Fixpoint stripCR (l : jsstring) : jsstring :=
  match l with
  | [] => []
  | [c] => if c =? 13 then [] else [c]
  | c :: l' => c :: stripCR l'
  end.

End Shape2.

(* ===================================================================== *)
(** * lib/sysExec.js, lib/windows.js, lib/owners.js and lib/collector.js *)
(* ===================================================================== *)

Module Collector.
Local Open Scope N_scope.
Import Str Re.
Import Num (number).

(** The operating system as the collector sees it: [exec] gives the output
    of a command, or [None] when [execPromise] rejects. *)
Definition shell := jsstring -> option jsstring.

Definition dquote : jsstring := [34].

Definition cmdNetstat : jsstring := js "netstat -ano".
Definition cmdSS : jsstring := js "ss -tunap".
Definition cmdLsof : jsstring := js "lsof -nP -i".
Definition cmdPs : jsstring := js "ps -axo pid,user".
Definition cmdGetProcess : jsstring :=
  js "powershell -NoProfile -Command " ++ dquote
  ++ js "Get-Process | Select-Object Id,ProcessName | ConvertTo-Csv -NoTypeInformation"
  ++ dquote.
Definition cmdWmi : jsstring :=
  js "powershell -NoProfile -Command " ++ dquote
  ++ js "Get-WmiObject Win32_Process | Select-Object ProcessId, @{Name="
  ++ [Owners.backslash] ++ dquote ++ js "Owner" ++ [Owners.backslash] ++ dquote
  ++ js ";Expression={(($_.GetOwner()).User)}} | ConvertTo-Csv -NoTypeInformation"
  ++ dquote.

(** [tryExec(cmds)]: the output of the first command that succeeds. *)
Fixpoint tryExec (exec : shell) (cmds : list jsstring) : option jsstring :=
  match cmds with
  | [] => None
  | cmd :: cmds' =>
      match exec cmd with
      | Some out => Some out
      | None => tryExec exec cmds'
      end
  end.

(** The replacement of a double quote at the start and of one at the end by
    nothing, as the two CSV readers do before they split a row. *)
Definition stripQuotes (s : jsstring) : jsstring :=
  let s1 := match s with
            | c :: r => if c =? 34 then r else s
            | [] => []
            end in
  match rev s1 with
  | c :: r => if c =? 34 then rev r else s1
  | [] => s1
  end.

(** The separator of two quoted CSV fields: quote, comma, quote. *)
Definition fieldSeparator : jsstring := [34; 44; 34].

(** An object whose properties may hold [undefined], its keys listed as
    those of [Owners.object]. *)
Definition objectU := list (jsstring * option jsstring).

Fixpoint objGetU (o : objectU) (k : jsstring) : option (option jsstring) :=
  match o with
  | [] => None
  | (k', v) :: o' => if Str.eqb k' k then Some v else objGetU o' k
  end.

Fixpoint objSetU (o : objectU) (k : jsstring) (v : option jsstring) : objectU :=
  match o with
  | [] => [(k, v)]
  | (k', v') :: o' =>
      if Str.eqb k' k then (k', v) :: o'
      else if Owners.listedBefore k k' then (k, v) :: o
      else (k', v') :: objSetU o' k v
  end.

(** The body of the loop of [getWindowsPidMap] for one row. *)
Definition pidRow (map : objectU) (line : jsstring) : objectU :=
  let parts := split fieldSeparator (stripQuotes line) in
  let pid := Num.Number (nth 0 parts []) in
  if Num.isFinite pid then objSetU map (Num.toString pid) (nth_error parts 1) else map.

(** [getWindowsPidMap()] *)
Definition getWindowsPidMap (exec : shell) : objectU :=
  match exec cmdGetProcess with
  | Some stdout => fold_left pidRow (skipn 1 (filter truthy (splitLines stdout))) []
  | None => []
  end.

(** The body of the loop of [ownersWindows] for one row. *)
Definition ownerRow (map : Owners.object) (line : jsstring) : Owners.object :=
  let parts := split fieldSeparator (stripQuotes line) in
  let pid := Num.Number (nth 0 parts []) in
  match nth_error parts 1 with
  | Some owner =>
      if Num.isFinite pid && truthy owner
      then Owners.objSet map (Num.toString pid) owner else map
  | None => map
  end.

(** [ownersWindows()] *)
Definition ownersWindows (exec : shell) : Owners.object :=
  match exec cmdWmi with
  | Some stdout =>
      fold_left ownerRow (skipn 1 (filter truthy (Owners.splitEscaped stdout))) []
  | None => []
  end.

(** [s.split(/\\s+/)] as the source writes it: the separator is a backslash
    followed by letters s, as many as there are. *)
Fixpoint splitEscapedSpaces_aux (skipping : bool) (cur : jsstring) (s : jsstring)
  : list jsstring :=
  match s with
  | [] => [rev cur]
  | c :: s' =>
      if skipping && (c =? 115) then splitEscapedSpaces_aux true cur s'
      else if (c =? Owners.backslash)
              && (match s' with d :: _ => d =? 115 | [] => false end)
      then rev cur :: splitEscapedSpaces_aux true [] s'
      else splitEscapedSpaces_aux false (c :: cur) s'
  end.
Definition splitEscapedSpaces (s : jsstring) : list jsstring :=
  splitEscapedSpaces_aux false [] s.

(** The body of the loop of [ownersDarwin] for one row. *)
Definition psRow (map : Owners.object) (line : jsstring) : Owners.object :=
  let parts := splitEscapedSpaces (trim line) in
  if (2 <=? length parts)%nat then
    let pid := Num.Number (nth 0 parts []) in
    let user := nth 1 parts [] in
    if Num.isFinite pid && truthy user
    then Owners.objSet map (Num.toString pid) user else map
  else map.

(** [ownersDarwin()] *)
Definition ownersDarwin (exec : shell) : Owners.object :=
  match exec cmdPs with
  | Some stdout => fold_left psRow (skipn 1 (Owners.splitEscaped stdout)) []
  | None => []
  end.

(** [getOwnerMap()] on a platform. *)
Definition getOwnerMap (platform : jsstring) (exec : shell) (fs : Owners.fileSystem)
  : Owners.object :=
  if Str.eqb platform (js "win32") then ownersWindows exec
  else if Str.eqb platform (js "linux") then Owners.ownersLinux fs
  else if Str.eqb platform (js "darwin") then ownersDarwin exec
  else [].

(** ** lib/collector.js *)

Import Parsers.

(** A record as [normalize] returns it. *)
Record Connection := {
  nKey : jsstring;
  nProtocol : option jsstring;
  nLocalAddress : option jsstring;
  nLocalPort : option number;
  nRemoteAddress : option jsstring;
  nRemotePort : option number;
  nState : option jsstring;
  nPid : option number;
  nProcessName : option jsstring;
  nOwner : option jsstring
}.

(** [s || null] *)
Definition textOrNull (s : jsstring) : option jsstring :=
  if truthy s then Some s else None.

(** [Number.isFinite(x) ? x : null] *)
Definition finiteOrNull (x : option number) : option number :=
  match x with
  | Some p => if Num.isFinite p then Some p else None
  | None => None
  end.

Definition normalizeRecord (d : ConnectionRecord) : Connection :=
  {| nKey := or_else (key d) [];
     nProtocol := textOrNull (protocol d);
     nLocalAddress := textOrNull (localAddress d);
     nLocalPort := finiteOrNull (localPort d);
     nRemoteAddress := textOrNull (remoteAddress d);
     nRemotePort := finiteOrNull (remotePort d);
     nState := textOrNull (state d);
     nPid := finiteOrNull (pid d);
     nProcessName := match processName d with Some s => textOrNull s | None => None end;
     nOwner := match owner d with Some s => textOrNull s | None => None end |}.

(** [normalize(records)] *)
Definition normalize (records : list ConnectionRecord) : list Connection :=
  map normalizeRecord records.

Definition setProcessName (n : jsstring) (c : ConnectionRecord) : ConnectionRecord :=
  {| key := key c; protocol := protocol c;
     localAddress := localAddress c; localPort := localPort c;
     remoteAddress := remoteAddress c; remotePort := remotePort c;
     state := state c; pid := pid c;
     processName := Some n; owner := owner c |}.

Definition setOwner (o : jsstring) (c : ConnectionRecord) : ConnectionRecord :=
  {| key := key c; protocol := protocol c;
     localAddress := localAddress c; localPort := localPort c;
     remoteAddress := remoteAddress c; remotePort := remotePort c;
     state := state c; pid := pid c;
     processName := processName c; owner := Some o |}.

(** [if (c.pid && pidMap[c.pid]) c.processName = pidMap[c.pid]] *)
Definition enrichName (pidMap : objectU) (c : ConnectionRecord) : ConnectionRecord :=
  match pid c with
  | Some p =>
      if Num.truthy p then
        match objGetU pidMap (Num.toString p) with
        | Some (Some n) => if truthy n then setProcessName n c else c
        | _ => c
        end
      else c
  | None => c
  end.

(** [if (c.pid && ownerMap[c.pid]) c.owner = ownerMap[c.pid]] *)
Definition enrichOwner (ownerMap : Owners.object) (c : ConnectionRecord)
  : ConnectionRecord :=
  match pid c with
  | Some p =>
      if Num.truthy p then
        match Owners.objGet ownerMap (Num.toString p) with
        | Some o => if truthy o then setOwner o c else c
        | None => c
        end
      else c
  | None => c
  end.

(** The Linux branch: [ss], and [lsof] when [ss] fails or yields nothing. *)
Definition linuxConnections (exec : shell) : option (list ConnectionRecord) :=
  let fallback := option_map parseLsof (exec cmdLsof) in
  match exec cmdSS with
  | Some out =>
      match parseLinuxSS out with
      | [] => fallback
      | conns => Some conns
      end
  | None => fallback
  end.

(** The records of the platform before the owner is looked up. *)
Definition platformConnections (platform : jsstring) (exec : shell)
  : option (list ConnectionRecord) :=
  if Str.eqb platform (js "win32") then
    match exec cmdNetstat with
    | Some out => Some (map (enrichName (getWindowsPidMap exec)) (parseWindowsNetstat out))
    | None => None
    end
  else if Str.eqb platform (js "linux") then linuxConnections exec
  else option_map parseLsof (tryExec exec [cmdLsof]).

Record collected := {
  ok : bool;
  count : nat;
  connections : list Connection;
  platformName : jsstring
}.

(** [collectConnections()]; [None] when the promise rejects. *)
Definition collectConnections (platform : jsstring) (exec : shell)
  (fs : Owners.fileSystem) : option collected :=
  match platformConnections platform exec with
  | Some conns =>
      let ownerMap := getOwnerMap platform exec fs in
      let norm := normalize (map (enrichOwner ownerMap) conns) in
      Some {| ok := true; count := length norm; connections := norm;
              platformName := platform |}
  | None => None
  end.

(** [getRawOSOutput()] *)
Definition getRawOSOutput (platform : jsstring) (exec : shell) : option jsstring :=
  if Str.eqb platform (js "win32") then exec cmdNetstat
  else if Str.eqb platform (js "linux") then
    match exec cmdSS with
    | Some out => Some out
    | None => exec cmdLsof
    end
  else exec cmdLsof.

End Collector.

(* ===================================================================== *)
(** * public/syslib_network_inspector.js: the formatting helpers *)
(* ===================================================================== *)

Module Inspector.
Local Open Scope N_scope.
Import Str.
Import Num (number).

(** [hp(addr, port)]; a port that is [null] is [None]. *)
Definition hp (addr : jsstring) (port : option number) : jsstring :=
  if negb (truthy addr) then []
  else
    match port with
    | Some p =>
        if includes (js ":") addr && negb (startsWith (js "[") addr)
        then js "[" ++ addr ++ js "]:" ++ Num.toString p
        else addr ++ js ":" ++ Num.toString p
    | None => addr
    end.

(** [splitHostPort(addr)] of the page: the code of lib/parsers.js again. *)
Definition splitHostPort (addr : jsstring) : Parsers.hostPort :=
  Parsers.splitHostPort addr.

(** [s.replaceAll(c, by)] for a one-unit [c]. *)
Definition replaceAll1 (c : N) (by_ : jsstring) (s : jsstring) : jsstring :=
  flat_map (fun x => if x =? c then by_ else [x]) s.

(** [escapeHtml(s)] *)
Definition escapeHtml (s : jsstring) : jsstring :=
  replaceAll1 39 (js "&#39;")
    (replaceAll1 34 (js "&quot;")
       (replaceAll1 62 (js "&gt;")
          (replaceAll1 60 (js "&lt;")
             (replaceAll1 38 (js "&amp;") s)))).

(** [csvEscape(v)] on the text of [v]. *)
Definition csvEscape (s : jsstring) : jsstring :=
  if existsb (fun c => (c =? 34) || (c =? 44) || (c =? 13) || (c =? 10)) s
  then [34] ++ replaceAll1 34 [34; 34] s ++ [34]
  else s.

End Inspector.

(** Sample command outputs for the collector. *)
Module CollectorSample.
Local Open Scope N_scope.
Import Str.

(** A machine where only [ss] answers, with one line of output. *)
Definition ssShell : Collector.shell :=
  fun cmd => if Str.eqb cmd Collector.cmdSS then Some Sample.ssUdpLine else None.

(** A machine where every command prints the same two words. *)
Definition plainShell : Collector.shell := fun _ => Some (js "PID USER").

(** No file can be read. *)
Definition noFiles : Owners.fileSystem :=
  {| Owners.readFile := fun _ => None; Owners.readdir := fun _ => None |}.

(** The output of [Get-Process ... | ConvertTo-Csv] for one process. *)
Definition processHeader : jsstring :=
  [34] ++ js "Id" ++ Collector.fieldSeparator ++ js "ProcessName" ++ [34].
Definition processCsv : jsstring :=
  processHeader ++ [13; 10]
  ++ [34] ++ js "4321" ++ Collector.fieldSeparator ++ js "node" ++ [34] ++ [13; 10].
Definition processShell : Collector.shell :=
  fun cmd => if Str.eqb cmd Collector.cmdGetProcess then Some processCsv else None.

End CollectorSample.

(** Rows of quoted fields, as [tasklist /fo csv] writes them. *)
Module Csv.
Local Open Scope N_scope.

(** A field between double quotes. *)
Definition quoted (f : jsstring) : jsstring := [34] ++ f ++ [34].

(** Quoted fields joined by commas. *)
Fixpoint row (fs : list jsstring) : jsstring :=
  match fs with
  | [] => []
  | [f] => quoted f
  | f :: fs' => quoted f ++ [44] ++ row fs'
  end.

(** One process of a [tasklist] listing, whole and cut inside a field. *)
Definition tasklistFields : list jsstring :=
  [js "node.exe"; js "4321"; js "Console"; js "1"; js "45,000 K"].
Definition tasklistWhole : jsstring := row tasklistFields ++ [13; 10].
Definition tasklistCut : list jsstring :=
  [firstn 20 tasklistWhole; skipn 20 tasklistWhole].

End Csv.

(* ===================================================================== *)
(** * Buffers: buf.toString('utf8') *)
(* ===================================================================== *)

Module Utf8.
Local Open Scope N_scope.

(** A buffer is its bytes. *)
Definition buffer := list N.

(** U+FFFD, written for every ill-formed piece of the input. *)
Definition replacement : N := 65533.

(** The UTF-16 code units of a code point. *)
Definition codeUnits (cp : N) : jsstring :=
  if cp <? 65536 then [cp]
  else [55296 + (cp - 65536) / 1024; 56320 + (cp - 65536) mod 1024].

(** Between two characters, or inside one: the bits read so far, the
    number of bytes still needed and the range allowed for the next one. *)
Inductive state :=
| Start
| Pending (cp : N) (remaining : nat) (lower upper : N).

(** A byte read between two characters. *)
Definition lead (b : N) : jsstring * state :=
  if b <=? 127 then ([b], Start)
  else if (194 <=? b) && (b <=? 223) then ([], Pending (N.land b 31) 1 128 191)
  else if (224 <=? b) && (b <=? 239) then
    ([], Pending (N.land b 15) 2
           (if b =? 224 then 160 else 128) (if b =? 237 then 159 else 191))
  else if (240 <=? b) && (b <=? 244) then
    ([], Pending (N.land b 7) 3
           (if b =? 240 then 144 else 128) (if b =? 244 then 143 else 191))
  else ([replacement], Start).

(** One byte: a continuation byte in range extends the character; any other
    byte ends it with U+FFFD and is read again as a first byte. *)
Definition step (st : state) (b : N) : jsstring * state :=
  match st with
  | Start => lead b
  | Pending cp remaining lower upper =>
      if (lower <=? b) && (b <=? upper) then
        match remaining with
        | S (S k) => ([], Pending (cp * 64 + N.land b 63) (S k) 128 191)
        | _ => (codeUnits (cp * 64 + N.land b 63), Start)
        end
      else let (out, st') := lead b in (replacement :: out, st')
  end.

(** The bytes of a buffer in order; a character cut off by the end of the
    buffer becomes U+FFFD. *)
Fixpoint decodeFrom (st : state) (bytes : buffer) : jsstring :=
  match bytes with
  | [] => match st with Start => [] | Pending _ _ _ _ => [replacement] end
  | b :: bytes' => let (out, st') := step st b in out ++ decodeFrom st' bytes'
  end.

(** [buf.toString('utf8')] *)
Definition toString (buf : buffer) : jsstring := decodeFrom Start buf.

End Utf8.

(** The output of [netstat] as bytes. *)
Module ByteSample.
Local Open Scope N_scope.

(** The connection of the French example, its state in UTF-8: É is the two
    bytes C3 89. *)
Definition etablieHead : Utf8.buffer :=
  js "  TCP    192.168.1.10:50000     93.184.216.34:443      ".
Definition etablieTail : Utf8.buffer := js "TABLIE     4321" ++ [13; 10].
Definition etablieBytes : Utf8.buffer := etablieHead ++ [195; 137] ++ etablieTail.

(** The same bytes in two chunks, cut between the two bytes of É. *)
Definition etablieCut : list Utf8.buffer :=
  [etablieHead ++ [195]; [137] ++ etablieTail].

Definition etablieEntry : Ports.entry :=
  {| Ports.protocol := js "TCP";
     Ports.localAddress := js "192.168.1.10"; Ports.localPort := Num.ofZ 50000;
     Ports.foreignAddress := js "93.184.216.34"; Ports.foreignPort := Num.ofZ 443;
     Ports.state := Sample.Eacute :: js "TABLIE";
     Ports.pid := Some (Num.ofZ 4321);
     Ports.processName := [] |}.

Definition garbledEntry : Ports.entry :=
  {| Ports.protocol := js "TCP";
     Ports.localAddress := js "192.168.1.10"; Ports.localPort := Num.ofZ 50000;
     Ports.foreignAddress := js "93.184.216.34"; Ports.foreignPort := Num.ofZ 443;
     Ports.state := Utf8.replacement :: Utf8.replacement :: js "TABLIE";
     Ports.pid := Some (Num.ofZ 4321);
     Ports.processName := [] |}.

(** An ASCII listing cut inside a line. *)
Definition asciiWhole : Utf8.buffer := Sample.netstatWhole.
Definition asciiCut : list Utf8.buffer := Sample.netstatCut.

End ByteSample.

(** The port of an address token. *)
Module PortText.
Local Open Scope N_scope.

(** [p] is read off [token]: it is [Number(d)] for the text [d] that follows
    the last colon of the token, and it is not NaN. *)
Definition readOff (token : jsstring) (p : Num.number) : Prop :=
  Num.isNaN p = false
  /\ exists h d, token = h ++ js ":" ++ d /\ ~ In 58 d /\ p = Num.Number d.

(** The key of a record names its two address tokens, and a port that is
    present is read off the token of its side. *)
Definition portsFromTokens (r : Parsers.ConnectionRecord) : Prop :=
  exists local remote pidText,
    Parsers.key r = Parsers.keyOf (Parsers.protocol r) local remote pidText
    /\ (forall p, Parsers.localPort r = Some p -> readOff local p)
    /\ (forall p, Parsers.remotePort r = Some p -> readOff remote p).

End PortText.

(* ===================================================================== *)
(** * Facts about strings *)
(* ===================================================================== *)

Section StrFacts.
Import Str.
Local Open Scope N_scope.

Lemma eqb_eq (a b : jsstring) : Str.eqb a b = true <-> a = b.
Proof.
  revert b; induction a as [|x a IH]; destruct b as [|y b]; simpl; split;
    try congruence; try reflexivity.
  - intros H; apply andb_true_iff in H as [H1 H2].
    apply N.eqb_eq in H1; apply IH in H2; congruence.
  - intros H; injection H as -> ->. rewrite N.eqb_refl; simpl. now apply IH.
Qed.

Lemma or_else_nil (s : jsstring) : or_else s [] = s.
Proof. now destruct s. Qed.

Lemma span_all (p : N -> bool) (s m r : jsstring) :
  span p s = (m, r) -> forallb p m = true.
Proof.
  revert m r; induction s as [|c s IH]; simpl; intros m r H.
  - now injection H as <- <-.
  - destruct (p c) eqn:Hc.
    + destruct (span p s) as [a b] eqn:E. injection H as <- <-.
      simpl. rewrite Hc. now apply (IH a b).
    + now injection H as <- <-.
Qed.

Lemma span_app (p : N -> bool) (s m r : jsstring) :
  span p s = (m, r) -> s = m ++ r.
Proof.
  revert m r; induction s as [|c s IH]; simpl; intros m r H.
  - now injection H as <- <-.
  - destruct (p c) eqn:Hc.
    + destruct (span p s) as [a b] eqn:E. injection H as <- <-.
      simpl. f_equal. now apply IH.
    + now injection H as <- <-.
Qed.

Lemma dropWhile_none (p : N -> bool) (s : jsstring) :
  match s with c :: _ => p c = false | [] => True end -> dropWhile p s = s.
Proof. destruct s as [|c s]; simpl; [reflexivity|]. now intros ->. Qed.

Lemma dropWhile_incl (p : N -> bool) (s : jsstring) (x : N) :
  In x (dropWhile p s) -> In x s.
Proof.
  induction s as [|c s IH]; simpl; [easy|].
  destruct (p c); [right; auto | simpl; auto].
Qed.

Lemma trim_incl (s : jsstring) (x : N) : In x (trim s) -> In x s.
Proof.
  unfold trim, trimEnd, trimStart. intros H.
  apply in_rev, dropWhile_incl, in_rev, dropWhile_incl in H. exact H.
Qed.

(** A string with no white space at either end is its own [trim]. *)
Lemma trim_id (c : N) (s : jsstring) (d : N) :
  isSpace c = false -> isSpace (last (c :: s) d) = false -> trim (c :: s) = c :: s.
Proof.
  intros Hc Hl. unfold trim, trimStart, trimEnd.
  simpl dropWhile at 2. rewrite Hc.
  destruct (exists_last (l := c :: s)) as [l [z E]]; [discriminate|].
  rewrite E in *. rewrite last_last in Hl.
  rewrite rev_app_distr. simpl. rewrite Hl. simpl.
  rewrite rev_involutive. reflexivity.
Qed.

End StrFacts.

(* ===================================================================== *)
(** * Line reassembly *)
(* ===================================================================== *)

Section Lines.
Import Str Aux.
Local Open Scope N_scope.

Lemma splitLines_aux_nonempty (s cur : jsstring) : splitLines_aux cur s <> [].
Proof.
  revert cur; induction s as [|c s IH]; intros cur; simpl; [discriminate|].
  destruct (c =? 10); [discriminate|].
  destruct (c =? 13); [|apply IH].
  destruct s as [|d s']; [apply IH|].
  destruct (d =? 10); [discriminate|apply IH].
Qed.

Lemma splitLines_nonempty (s : jsstring) : splitLines s <> [].
Proof. apply splitLines_aux_nonempty. Qed.

(** The piece being read only prefixes the first piece of the result. *)
Lemma splitLines_aux_cur (s cur : jsstring) :
  splitLines_aux cur s = prependFirst (rev cur) (splitLines_aux [] s).
Proof.
  revert cur; induction s as [|c s IH]; intros cur; simpl.
  - now rewrite app_nil_r.
  - assert (K : splitLines_aux (c :: cur) s
                = prependFirst (rev cur) (splitLines_aux [c] s)).
    { rewrite (IH (c :: cur)), (IH [c]).
      destruct (splitLines_aux [] s); simpl; [reflexivity|].
      now rewrite <- app_assoc. }
    destruct (c =? 10); [simpl; now rewrite app_nil_r|].
    destruct (c =? 13); [|exact K].
    destruct s as [|d s']; [exact K|].
    destruct (d =? 10); [simpl; now rewrite app_nil_r|exact K].
Qed.

Lemma splitLines_lf (s : jsstring) : splitLines (10 :: s) = [] :: splitLines s.
Proof. reflexivity. Qed.

Lemma splitLines_crlf (s : jsstring) : splitLines (13 :: 10 :: s) = [] :: splitLines s.
Proof. reflexivity. Qed.

Lemma splitLines_other (c : N) (s : jsstring) :
  c <> 10 -> (c = 13 -> headIsNot 10 s) ->
  splitLines (c :: s) = prependFirst [c] (splitLines s).
Proof.
  intros H10 H13. unfold splitLines. simpl.
  apply N.eqb_neq in H10. rewrite H10.
  destruct (c =? 13) eqn:E13; [|apply (splitLines_aux_cur s [c])].
  apply N.eqb_eq in E13. specialize (H13 E13).
  destruct s as [|d s']; [reflexivity|].
  simpl in H13. apply N.eqb_neq in H13. rewrite H13.
  apply (splitLines_aux_cur (d :: s') [c]).
Qed.

(** The three shapes of a non-empty text. *)
Lemma text_shape (c : N) (s : jsstring) :
  c = 10 \/ (c = 13 /\ exists s', s = 10 :: s')
  \/ (c <> 10 /\ (c = 13 -> headIsNot 10 s)).
Proof.
  destruct (N.eq_dec c 10) as [->|H10]; [now left|].
  destruct s as [|d s'].
  - right; right; split; [assumption|]. intros _; exact I.
  - destruct (N.eq_dec d 10) as [->|Hd].
    + destruct (N.eq_dec c 13) as [->|H13].
      * right; left; split; [reflexivity|now exists s'].
      * right; right; split; [assumption|]. intros; contradiction.
    + right; right; split; [assumption|]. intros _; exact Hd.
Qed.

(** A text that splits into one piece is that piece. *)
Lemma splitLines_single (s x : jsstring) : splitLines s = [x] -> x = s.
Proof.
  revert x; induction s as [|c s IH]; intros x H.
  - now injection H as <-.
  - destruct (text_shape c s) as [->|[[-> [s' ->]]|[H10 H13]]].
    + rewrite splitLines_lf in H. injection H as _ H.
      now apply splitLines_nonempty in H.
    + rewrite splitLines_crlf in H. injection H as _ H.
      now apply splitLines_nonempty in H.
    + rewrite (splitLines_other _ _ H10 H13) in H.
      destruct (splitLines s) as [|y l] eqn:E; [discriminate|].
      simpl in H. injection H as <- ->. f_equal. now apply IH.
Qed.

Lemma removelast_cons {A} (x : A) (l : list A) :
  l <> [] -> removelast (x :: l) = x :: removelast l.
Proof. destruct l; [congruence|reflexivity]. Qed.

Lemma last_cons {A} (x d : A) (l : list A) :
  l <> [] -> last (x :: l) d = last l d.
Proof. destruct l; [congruence|reflexivity]. Qed.

(** Splitting a text read in two parts: the pieces completed by the first
    part, then the split of its unfinished piece followed by the second. *)
Lemma splitLines_app_bounded (n : nat) :
  forall a : jsstring, (length a <= n)%nat -> forall b : jsstring,
  splitLines (a ++ b)
  = removelast (splitLines a) ++ splitLines (last (splitLines a) [] ++ b).
Proof.
  induction n as [|n IH]; intros a Hlen b.
  - destruct a; [reflexivity|simpl in Hlen; lia].
  - destruct a as [|c a]; [reflexivity|].
    simpl in Hlen.
    destruct (text_shape c a) as [->|[[-> [a' ->]]|[H10 H13]]].
    + rewrite <- app_comm_cons, !splitLines_lf.
      rewrite removelast_cons, last_cons by apply splitLines_nonempty.
      simpl. f_equal. apply IH; lia.
    + rewrite <- !app_comm_cons, !splitLines_crlf.
      rewrite removelast_cons, last_cons by apply splitLines_nonempty.
      simpl. f_equal. apply IH; simpl in Hlen; lia.
    + destruct a as [|d a'] eqn:Ea.
      { rewrite (splitLines_other c [] H10 (fun _ => I)). reflexivity. }
      rewrite <- Ea in *.
      assert (H13' : c = 13 -> headIsNot 10 (a ++ b)).
      { intros E; specialize (H13 E). rewrite Ea in *. exact H13. }
      rewrite <- app_comm_cons.
      rewrite (splitLines_other _ _ H10 H13'), (splitLines_other _ _ H10 H13).
      rewrite (IH a) by lia.
      destruct (splitLines a) as [|x [|y l]] eqn:E.
      * now apply splitLines_nonempty in E.
      * simpl. apply splitLines_single in E. subst x.
        symmetry. apply (splitLines_other _ _ H10 H13').
      * reflexivity.
Qed.

Lemma splitLines_app (a b : jsstring) :
  splitLines (a ++ b)
  = removelast (splitLines a) ++ splitLines (last (splitLines a) [] ++ b).
Proof. now apply (splitLines_app_bounded (length a)). Qed.

Lemma removelast_app_nonempty {A} (l m : list A) :
  m <> [] -> removelast (l ++ m) = l ++ removelast m.
Proof. intros H. now apply removelast_app. Qed.

Lemma last_app_nonempty {A} (l m : list A) (d : A) :
  m <> [] -> last (l ++ m) d = last m d.
Proof.
  intros H. induction l as [|x l IH]; [reflexivity|].
  simpl app. rewrite last_cons; [exact IH|].
  destruct l; simpl; [assumption|discriminate].
Qed.

End Lines.

Section Reassembly.
Import Ports.
Context {Buffer : Type} (decode : Buffer -> jsstring).

(** [popLines] on a text read in two parts. *)
Lemma popLines_app (a b : jsstring) :
  popLines (a ++ b)
  = (fst (popLines a) ++ fst (popLines (snd (popLines a) ++ b)),
     snd (popLines (snd (popLines a) ++ b))).
Proof.
  unfold popLines. simpl fst; simpl snd. rewrite !or_else_nil.
  rewrite (splitLines_app a b).
  rewrite removelast_app_nonempty, last_app_nonempty by apply splitLines_nonempty.
  reflexivity.
Qed.

End Reassembly.

(* ===================================================================== *)
(** * The streaming scan *)
(* ===================================================================== *)

Section ScanFacts.
Import Ports.
Local Open Scope Z_scope.
Context {Buffer : Type} (decode : Buffer -> jsstring).
Variables (maxPort : Num.number) (hasCb : bool) (names : pidMap).

Local Abbreviation goodEntry := (Aux.goodEntry maxPort).
Local Abbreviation inv := (Aux.inv maxPort hasCb).
Local Abbreviation flushed := (Aux.flushed maxPort names).

Lemma parseLine_cases (line : jsstring) (st : scan) :
  parseLine maxPort names line st = st
  \/ parseLine maxPort names line st = count st
  \/ exists e, goodEntry e /\ parseLine maxPort names line st = push e (count st).
Proof.
  unfold parseLine.
  destruct (Str.eqb (Unicode.toUpperCase (nth 0 (Str.splitSpaces line) [])) (js "TCP")
            && (5 <=? length (Str.splitSpaces line))%nat) eqn:Etcp.
  - apply andb_true_iff in Etcp as [Etcp _]. apply eqb_eq in Etcp.
    match goal with |- context [if keep maxPort ?p then _ else _] =>
      destruct (keep maxPort p) eqn:Ek end.
    + right; right. eexists; split; [|reflexivity].
      split; [exact Ek|left; exact Etcp].
    + right; left; reflexivity.
  - destruct (Str.eqb (Unicode.toUpperCase (nth 0 (Str.splitSpaces line) [])) (js "UDP"))
      eqn:Eudp; [|left; reflexivity].
    apply eqb_eq in Eudp.
    match goal with |- context [if keep maxPort ?p then _ else _] =>
      destruct (keep maxPort p) eqn:Ek end.
    + right; right. eexists; split; [|reflexivity].
      split; [exact Ek|right; split; [exact Eudp|reflexivity]].
    + right; left; reflexivity.
Qed.

(** ** The handlers leave the leftover to the chunk loop *)

Lemma parseLine_setLeftover (l line : jsstring) (st : scan) :
  parseLine maxPort names line (setLeftover l st)
  = setLeftover l (parseLine maxPort names line st).
Proof.
  unfold parseLine.
  repeat match goal with
         | |- context [if ?c then _ else _] => destruct c
         end; reflexivity.
Qed.

Lemma throttle_setLeftover (l : jsstring) (st : scan) :
  throttle hasCb (setLeftover l st) = setLeftover l (throttle hasCb st).
Proof.
  unfold throttle, notify. simpl.
  destruct (parsedCount st mod 25 =? 0); [|reflexivity].
  destruct hasCb; reflexivity.
Qed.

Lemma dataLine_setLeftover (l raw : jsstring) (st : scan) :
  dataLine maxPort hasCb names (setLeftover l st) raw
  = setLeftover l (dataLine maxPort hasCb names st raw).
Proof.
  unfold dataLine.
  destruct (negb (Str.truthy (Str.trim raw)) || negb (isDataLine (Str.trim raw)));
    [reflexivity|].
  now rewrite parseLine_setLeftover, throttle_setLeftover.
Qed.

Lemma fold_dataLine_setLeftover (l : jsstring) (lines : list jsstring) (st : scan) :
  fold_left (dataLine maxPort hasCb names) lines (setLeftover l st)
  = setLeftover l (fold_left (dataLine maxPort hasCb names) lines st).
Proof.
  revert st; induction lines as [|x lines IH]; intros st; simpl; [reflexivity|].
  now rewrite dataLine_setLeftover, IH.
Qed.

Lemma setLeftover_twice (a b : jsstring) (st : scan) :
  setLeftover a (setLeftover b st) = setLeftover a st.
Proof. reflexivity. Qed.

Lemma leftover_setLeftover (a : jsstring) (st : scan) :
  leftover (setLeftover a st) = a.
Proof. reflexivity. Qed.

Lemma feed_unfold (st : scan) (text : jsstring) :
  feed maxPort hasCb names st text
  = setLeftover (snd (popLines (leftover st ++ text)))
      (fold_left (dataLine maxPort hasCb names)
         (fst (popLines (leftover st ++ text))) st).
Proof.
  unfold feed. destruct (popLines (leftover st ++ text)) as [lines rest].
  simpl. apply fold_dataLine_setLeftover.
Qed.

(** Two chunks fed one after the other act as their concatenation. *)
Lemma feed_feed (st : scan) (a b : jsstring) :
  feed maxPort hasCb names (feed maxPort hasCb names st a) b
  = feed maxPort hasCb names st (a ++ b).
Proof.
  rewrite (feed_unfold st (a ++ b)), app_assoc, popLines_app.
  simpl fst; simpl snd. rewrite fold_left_app.
  rewrite (feed_unfold (feed _ _ _ st a) b).
  rewrite (feed_unfold st a) at 1 2 3.
  rewrite !leftover_setLeftover.
  now rewrite fold_dataLine_setLeftover, setLeftover_twice.
Qed.

Lemma feed_nil_initial : feed maxPort hasCb names initial [] = initial.
Proof. reflexivity. Qed.

Lemma fold_stdout (bufs : list Buffer) (st : scan) (t : jsstring) :
  fold_left (handle decode maxPort hasCb names) (map StdoutData bufs)
    (feed maxPort hasCb names st t)
  = feed maxPort hasCb names st (t ++ concat (map decode bufs)).
Proof.
  revert t; induction bufs as [|b bufs IH]; intros t; simpl.
  - now rewrite app_nil_r.
  - unfold onData. rewrite feed_feed, IH. now rewrite app_assoc.
Qed.

(** A scan that only receives output is the scan of the whole text. *)
Lemma runScan_stdout (bufs : list Buffer) :
  runScan decode maxPort hasCb names (map StdoutData bufs)
  = onEnd maxPort hasCb names
      (feed maxPort hasCb names initial (concat (map decode bufs))).
Proof.
  unfold runScan. rewrite <- feed_nil_initial at 1.
  now rewrite fold_stdout.
Qed.

(** ** What every reachable state satisfies *)

Lemma inv_initial : inv initial.
Proof.
  split; simpl.
  - constructor.
  - constructor.
  - constructor.
  - reflexivity.
  - discriminate.
Qed.

Lemma Forall_le_mono (ns : list (Z * Z)) (a b : Z) :
  a <= b -> Forall (fun p => fst p <= a) ns -> Forall (fun p => fst p <= b) ns.
Proof.
  intros Hab H. eapply Forall_impl; [|exact H]. simpl; intros; lia.
Qed.

Lemma inv_parseLine (line : jsstring) (st : scan) :
  inv st -> inv (parseLine maxPort names line st).
Proof.
  intros [He Hs Hb Hn Hu].
  destruct (parseLine_cases line st) as [->|[->|[e [Hg ->]]]].
  - now split.
  - split; simpl; try assumption. eapply Forall_le_mono; [|exact Hb]. lia.
  - split; simpl; try assumption.
    + apply Forall_app; split; [assumption|now constructor].
    + eapply Forall_le_mono; [|exact Hb]. lia.
Qed.

Lemma StronglySorted_snoc (l : list Z) (x : Z) :
  StronglySorted Z.le l -> Forall (fun y => y <= x) l ->
  StronglySorted Z.le (l ++ [x]).
Proof.
  induction 1 as [|y l Hl IH Hy]; intros Hx; simpl.
  - constructor; constructor.
  - inversion Hx; subst. constructor; [now apply IH|].
    apply Forall_app; split; [assumption|now constructor].
Qed.

Lemma inv_notify (total : Z) (st : scan) :
  inv st -> inv (notify hasCb (parsedCount st) total st).
Proof.
  intros [He Hs Hb Hn Hu]. unfold notify.
  destruct hasCb eqn:Ecb;
    [|split; simpl; try assumption; intros _; now apply Hn].
  split; simpl; try assumption.
  - rewrite map_app. simpl. apply StronglySorted_snoc; [assumption|].
    apply Forall_map. exact Hb.
  - apply Forall_app; split; [assumption|]. constructor; [simpl; lia|constructor].
  - intros E; congruence.
Qed.

Lemma inv_throttle (st : scan) : inv st -> inv (throttle hasCb st).
Proof.
  intros H. unfold throttle.
  destruct (parsedCount st mod 25 =? 0); [|assumption].
  match goal with |- inv (notify _ _ _ ?s) =>
    change (parsedCount st) with (parsedCount s) at 1; apply inv_notify end.
  destruct H; now split.
Qed.

Lemma inv_dataLine (raw : jsstring) (st : scan) :
  inv st -> inv (dataLine maxPort hasCb names st raw).
Proof.
  intros H. unfold dataLine.
  destruct (negb (Str.truthy (Str.trim raw)) || negb (isDataLine (Str.trim raw)));
    [assumption|].
  now apply inv_throttle, inv_parseLine.
Qed.

Lemma inv_setLeftover (l : jsstring) (st : scan) : inv st -> inv (setLeftover l st).
Proof. intros []; now split. Qed.

Lemma inv_feed (t : jsstring) (st : scan) :
  inv st -> inv (feed maxPort hasCb names st t).
Proof.
  intros H. rewrite feed_unfold. apply inv_setLeftover.
  generalize (fst (popLines (leftover st ++ t))) as lines.
  intros lines; revert st H; induction lines as [|x lines IH]; intros st H; simpl;
    [assumption|].
  now apply IH, inv_dataLine.
Qed.

Lemma inv_reject (m : jsstring) (st : scan) : inv st -> inv (settle (Rejected m) st).
Proof.
  intros H. unfold settle. destruct (settled st) eqn:E; [assumption|].
  destruct H; split; simpl; try assumption. discriminate.
Qed.

Lemma inv_handle (ev : event) (st : scan) :
  inv st -> inv (handle decode maxPort hasCb names st ev).
Proof.
  intros H. destruct ev as [buf|buf|m]; simpl.
  - now apply inv_feed.
  - unfold onStderr. destruct (Str.truthy _); [now apply inv_reject|assumption].
  - now apply inv_reject.
Qed.

Lemma inv_events (events : list event) (st : scan) :
  inv st -> inv (fold_left (handle decode maxPort hasCb names) events st).
Proof.
  revert st; induction events as [|ev events IH]; intros st H; simpl; [assumption|].
  now apply IH, inv_handle.
Qed.

(** ** The end of the output *)

Lemma insertEntry_In (x y : entry) (l : list entry) :
  In y (insertEntry x l) -> y = x \/ In y l.
Proof.
  induction l as [|z l IH]; simpl.
  - intros [<-|[]]; now left.
  - destruct (0 <? compareEntries x z); simpl.
    + intros [<-|H]; [right; now left|].
      destruct (IH H); [now left|right; now right].
    + intros [<-|H]; [now left|now right].
Qed.

Lemma sortEntries_In (y : entry) (l : list entry) :
  In y (sortEntries l) -> In y l.
Proof.
  induction l as [|x l IH]; simpl; [easy|].
  intros H. apply insertEntry_In in H as [->|H]; [now left|right; now apply IH].
Qed.

Lemma inv_flushed (st : scan) : inv st -> inv (flushed st).
Proof.
  intros H. unfold flushed.
  destruct (Str.truthy _); [|assumption].
  destruct (isDataLine _); [now apply inv_parseLine|assumption].
Qed.

Lemma settled_settle (o : outcome) (st : scan) :
  settled (settle o st)
  = match settled st with Some x => Some x | None => Some o end.
Proof. unfold settle. now destruct (settled st) eqn:E. Qed.

Lemma notify_fields (c t : Z) (st : scan) :
  entries (notify hasCb c t st) = entries st
  /\ settled (notify hasCb c t st) = settled st
  /\ parsedCount (notify hasCb c t st) = parsedCount st.
Proof. unfold notify. now destruct hasCb. Qed.

Lemma onEnd_settled (st : scan) :
  settled (onEnd maxPort hasCb names st)
  = match settled (flushed st) with
    | Some x => Some x
    | None => Some (Resolved (sortEntries (entries (flushed st))))
    end.
Proof.
  unfold onEnd. fold (Aux.flushed maxPort names st). rewrite settled_settle. simpl.
  destruct (notify_fields (parsedCount (flushed st)) (parsedCount (flushed st))
              (flushed st)) as [-> [-> _]].
  reflexivity.
Qed.

Lemma onEnd_resolved (st : scan) (l : list entry) :
  inv st -> settled (onEnd maxPort hasCb names st) = Some (Resolved l) ->
  Forall goodEntry l.
Proof.
  intros H. rewrite onEnd_settled.
  pose proof (inv_flushed st H) as [He _ _ _ Hu].
  destruct (settled (flushed st)) as [o|] eqn:E.
  - intros Ho. now apply Hu in Ho.
  - intros Ho; injection Ho as <-.
    apply Forall_forall; intros e Hin; apply sortEntries_In in Hin.
    now apply (proj1 (Forall_forall _ _) He).
Qed.

Lemma onEnd_notifications (st : scan) :
  inv st ->
  StronglySorted Z.le (map fst (notifications (onEnd maxPort hasCb names st)))
  /\ (if hasCb
      then exists front n,
          notifications (onEnd maxPort hasCb names st) = front ++ [(n, n)]
      else notifications (onEnd maxPort hasCb names st) = []).
Proof.
  intros H. unfold onEnd. fold (Aux.flushed maxPort names st).
  pose proof (inv_flushed st H) as H1.
  pose proof (inv_notify (parsedCount (flushed st)) (flushed st) H1) as [_ Hs _ Hn _].
  assert (E : forall s o, notifications (settle o s) = notifications s).
  { intros s o. unfold settle. now destruct (settled s). }
  rewrite E. simpl. split; [exact Hs|].
  unfold notify in *. destruct hasCb; simpl in *.
  - eexists _, _. reflexivity.
  - now apply Hn.
Qed.

Lemma settled_dataLine (st : scan) (x : jsstring) :
  settled (dataLine maxPort hasCb names st x) = settled st.
Proof.
  unfold dataLine.
  destruct (negb (Str.truthy (Str.trim x)) || negb (isDataLine (Str.trim x)));
    [reflexivity|].
  unfold throttle, notify.
  assert (P : settled (parseLine maxPort names (Str.trim x) st) = settled st).
  { destruct (parseLine_cases (Str.trim x) st) as [->|[->|[e [_ ->]]]]; reflexivity. }
  destruct (_ =? 0); [|exact P]. destruct hasCb; exact P.
Qed.

Lemma settled_feed (st : scan) (t : jsstring) :
  settled (feed maxPort hasCb names st t) = settled st.
Proof.
  rewrite feed_unfold.
  change (settled (setLeftover ?l ?s)) with (settled s).
  generalize (fst (popLines (leftover st ++ t))) as lines.
  intros lines; revert st; induction lines as [|x lines IH]; intros st; simpl;
    [reflexivity|].
  now rewrite IH, settled_dataLine.
Qed.

Lemma onEnd_settles (st : scan) :
  settled st = None ->
  exists l, settled (onEnd maxPort hasCb names st) = Some (Resolved l).
Proof.
  intros H. rewrite onEnd_settled.
  assert (F : settled (flushed st) = None).
  { unfold flushed. destruct (Str.truthy _); [|assumption].
    destruct (isDataLine _); [|assumption].
    destruct (parseLine_cases (Str.trim (leftover st)) st) as [->|[->|[e [_ ->]]]];
      assumption. }
  rewrite F. eexists; reflexivity.
Qed.

End ScanFacts.

(* ===================================================================== *)
(** * Integers as numbers *)
(* ===================================================================== *)

Section Integers.
Local Open Scope Z_scope.

Lemma iter_xO_mul (p k : positive) :
  Zpos (Pos.iter xO p k) = Zpos p * 2 ^ Zpos k.
Proof.
  induction k as [|k IH] using Pos.peano_ind.
  - simpl Pos.iter. rewrite Z.pow_1_r. lia.
  - rewrite Pos.iter_succ, Pos2Z.inj_succ, Z.pow_succ_r by lia.
    change (Zpos (Pos.iter xO p k)~0) with (2 * Zpos (Pos.iter xO p k)). lia.
Qed.

Lemma digits2_iter_xO (p k : positive) :
  digits2_pos (Pos.iter xO p k) = (digits2_pos p + k)%positive.
Proof.
  induction k as [|k IH] using Pos.peano_ind.
  - simpl. lia.
  - rewrite Pos.iter_succ. simpl. rewrite IH. lia.
Qed.

Lemma digits2_bounds (p : positive) :
  2 ^ (Zpos (digits2_pos p) - 1) <= Zpos p < 2 ^ Zpos (digits2_pos p).
Proof.
  induction p as [p IH|p IH|]; simpl digits2_pos.
  - rewrite Pos2Z.inj_succ.
    replace (Z.succ (Zpos (digits2_pos p)) - 1) with (Z.succ (Zpos (digits2_pos p) - 1)) by lia.
    rewrite !Z.pow_succ_r by lia. lia.
  - rewrite Pos2Z.inj_succ.
    replace (Z.succ (Zpos (digits2_pos p)) - 1) with (Z.succ (Zpos (digits2_pos p) - 1)) by lia.
    rewrite !Z.pow_succ_r by lia. lia.
  - simpl. lia.
Qed.

Lemma binary_round_aux_exact (sx : bool) (mz : positive) (ez : Z) :
  Zdigits2 (Zpos mz) = 53 ->
  fexp Num.prec Num.emax (53 + ez) = ez ->
  ez <= 971 ->
  binary_round_aux Num.prec Num.emax sx (Zpos mz) ez loc_Exact
  = S754_finite sx mz ez.
Proof.
  intros Hd Hf He. unfold binary_round_aux, shr_fexp.
  rewrite Hd, Hf, Z.sub_diag.
  cbv beta iota delta [shr shr_record_of_loc round_nearest_even loc_of_shr_record shr_m].
  rewrite Hd, Hf, Z.sub_diag.
  cbv beta iota delta [shr shr_record_of_loc shr_m].
  replace (ez <=? Num.emax - Num.prec) with true; [reflexivity|].
  symmetry. apply Z.leb_le. unfold Num.emax, Num.prec. lia.
Qed.

(** The number of a positive integer below 2^52: the integer shifted to 53
    bits. *)
Lemma ofZ_small (p : positive) :
  Zpos (digits2_pos p) < 53 ->
  Num.ofZ (Zpos p)
  = S754_finite false (Pos.iter xO p (Z.to_pos (53 - Zpos (digits2_pos p))))
      (Zpos (digits2_pos p) - 53).
Proof.
  intros Hd. set (d := digits2_pos p) in *.
  set (k := Z.to_pos (53 - Zpos d)).
  assert (Hk : Zpos k = 53 - Zpos d) by (unfold k; rewrite Z2Pos.id; lia).
  unfold Num.ofZ, binary_normalize, binary_round.
  assert (E1 : fexp Num.prec Num.emax (Zpos (digits2_pos p) + 0) = Zpos d - 53).
  { unfold fexp, emin, Num.prec, Num.emax. fold d. lia. }
  rewrite E1. unfold shl_align.
  replace (Zpos d - 53 - 0) with (Zneg k) by lia.
  apply binary_round_aux_exact.
  - simpl. rewrite digits2_iter_xO. fold d. lia.
  - unfold fexp, emin, Num.prec, Num.emax. lia.
  - lia.
Qed.

Lemma digits2_small (p : positive) (n : Z) :
  0 <= n -> Zpos p < 2 ^ n -> Zpos (digits2_pos p) <= n.
Proof.
  intros Hn Hp. destruct (Z.le_gt_cases (Zpos (digits2_pos p)) n) as [H|H]; [exact H|].
  pose proof (digits2_bounds p) as [Hl _].
  assert (2 ^ n <= 2 ^ (Zpos (digits2_pos p) - 1)) by (apply Z.pow_le_mono_r; lia).
  lia.
Qed.

Lemma floor_ofZ (p : positive) :
  Zpos (digits2_pos p) < 53 -> Num.floor (Num.ofZ (Zpos p)) = Num.ofZ (Zpos p).
Proof.
  intros Hd. rewrite (ofZ_small p Hd) at 1. unfold Num.floor.
  set (k := Z.to_pos (53 - Zpos (digits2_pos p))).
  assert (Hk : Zpos k = 53 - Zpos (digits2_pos p)) by (unfold k; rewrite Z2Pos.id; lia).
  replace (Zpos (digits2_pos p) - 53) with (- Zpos k) by lia.
  replace (0 <=? - Zpos k) with false by (symmetry; apply Z.leb_gt; lia).
  rewrite Z.opp_involutive, Z.shiftr_div_pow2, iter_xO_mul by lia.
  rewrite Z.div_mul by (apply Z.pow_nonzero; lia).
  reflexivity.
Qed.

Lemma comparison_match_id (c : comparison) :
  match c with Eq => Eq | Lt => Lt | Gt => Gt end = c.
Proof. now destruct c. Qed.

Lemma SFcompare_positive (m1 m2 : positive) (e1 e2 : Z) :
  SFcompare (S754_finite false m1 e1) (S754_finite false m2 e2)
  = Some match e1 ?= e2 with
         | Lt => Lt
         | Gt => Gt
         | Eq => Pos.compare_cont Eq m1 m2
         end.
Proof. reflexivity. Qed.

Lemma compare_ofZ (a b : positive) :
  Zpos (digits2_pos a) < 53 -> Zpos (digits2_pos b) < 53 ->
  SFcompare (Num.ofZ (Zpos a)) (Num.ofZ (Zpos b)) = Some (Zpos a ?= Zpos b).
Proof.
  intros Ha Hb. rewrite (ofZ_small a Ha), (ofZ_small b Hb), SFcompare_positive.
  pose proof (digits2_bounds a) as [La Ua].
  pose proof (digits2_bounds b) as [Lb Ub].
  f_equal.
  destruct (Z.compare_spec (Zpos (digits2_pos a) - 53) (Zpos (digits2_pos b) - 53))
    as [E|E|E].
  - assert (E' : digits2_pos a = digits2_pos b) by lia. rewrite E'.
    set (k := Z.to_pos (53 - Zpos (digits2_pos b))).
    rewrite Pos.compare_cont_spec. unfold Pos.switch_Eq.
    assert (K : (Zpos (Pos.iter xO a k) ?= Zpos (Pos.iter xO b k)) = (Zpos a ?= Zpos b)).
    { rewrite !iter_xO_mul.
      assert (0 < 2 ^ Zpos k) by (apply Z.pow_pos_nonneg; lia).
      destruct (Z.compare_spec (Zpos a) (Zpos b)) as [C|C|C].
      - rewrite C. apply Z.compare_refl.
      - apply Z.compare_lt_iff. nia.
      - apply Z.compare_gt_iff. nia. }
    rewrite <- K.
    exact (comparison_match_id _).
  - symmetry. apply Z.compare_lt_iff.
    assert (2 ^ Zpos (digits2_pos a) <= 2 ^ (Zpos (digits2_pos b) - 1))
      by (apply Z.pow_le_mono_r; lia).
    lia.
  - symmetry. apply Z.compare_gt_iff.
    assert (2 ^ Zpos (digits2_pos b) <= 2 ^ (Zpos (digits2_pos a) - 1))
      by (apply Z.pow_le_mono_r; lia).
    lia.
Qed.

(** A bound that is an integer of [1, 65535] is kept as it is. *)
Lemma clampMaxPort_integer (m : Z) :
  1 <= m <= 65535 -> Ports.clampMaxPort (Some (Num.ofZ m)) = Num.ofZ m.
Proof.
  intros Hm. destruct m as [|p|p]; try lia.
  assert (Hd : Zpos (digits2_pos p) < 53).
  { assert (Zpos (digits2_pos p) <= 16) by (apply digits2_small; lia). lia. }
  unfold Ports.clampMaxPort.
  replace (Num.isFinite (Num.ofZ (Zpos p))) with true
    by (rewrite (ofZ_small p Hd); reflexivity).
  rewrite (floor_ofZ p Hd).
  assert (E1 : Num.max (Num.ofZ 1) (Num.ofZ (Zpos p)) = Num.ofZ (Zpos p)).
  { unfold Num.max. rewrite (compare_ofZ 1 p) by (simpl; lia || assumption).
    destruct (Z.compare_spec 1 (Zpos p)) as [E|E|E]; try lia; [|reflexivity].
    injection E as <-. reflexivity. }
  rewrite E1. unfold Num.min.
  rewrite (compare_ofZ 65535 p) by (simpl; lia || assumption).
  destruct (Z.compare_spec 65535 (Zpos p)) as [E|E|E]; try lia; [|reflexivity].
  injection E as <-. reflexivity.
Qed.

End Integers.

(* ===================================================================== *)
(** * Conversions from text never invent NaN *)
(* ===================================================================== *)

Section Rounding.
Local Open Scope Z_scope.

Lemma shr_1_nonneg (mrs : shr_record) : 0 <= shr_m mrs -> 0 <= shr_m (shr_1 mrs).
Proof.
  destruct mrs as [m r s]. simpl.
  destruct m as [|[p|p|]|[p|p|]]; simpl; lia.
Qed.

Lemma iter_shr_1_nonneg (n : positive) (mrs : shr_record) :
  0 <= shr_m mrs -> 0 <= shr_m (iter_pos shr_1 n mrs).
Proof.
  revert mrs; induction n as [n IH|n IH|]; intros mrs H; simpl.
  - now apply IH, IH, shr_1_nonneg.
  - now apply IH, IH.
  - now apply shr_1_nonneg.
Qed.

Lemma shr_fexp_nonneg (prec emax m e : Z) (l : location) :
  0 <= m -> 0 <= shr_m (fst (shr_fexp prec emax m e l)).
Proof.
  intros H. unfold shr_fexp, shr.
  assert (K : 0 <= shr_m (shr_record_of_loc m l)) by (destruct l as [|[]]; exact H).
  destruct (fexp prec emax (Zdigits2 m + e) - e); simpl; try exact K.
  now apply iter_shr_1_nonneg.
Qed.

Lemma round_nearest_even_nonneg (m : Z) (l : location) :
  0 <= m -> 0 <= round_nearest_even m l.
Proof.
  intros H. destruct l as [|[]]; simpl; try lia.
  destruct (Z.even m); lia.
Qed.

Lemma binary_round_aux_not_nan (prec emax : Z) (sx : bool) (mx ex : Z) (lx : location) :
  0 <= mx -> binary_round_aux prec emax sx mx ex lx <> S754_nan.
Proof.
  intros H. unfold binary_round_aux.
  pose proof (shr_fexp_nonneg prec emax mx ex lx H) as H1.
  destruct (shr_fexp prec emax mx ex lx) as [mrs' e']. simpl in H1.
  pose proof (shr_fexp_nonneg prec emax
                (round_nearest_even (shr_m mrs') (loc_of_shr_record mrs')) e' loc_Exact
                (round_nearest_even_nonneg _ _ H1)) as H2.
  destruct (shr_fexp prec emax _ e' loc_Exact) as [mrs'' e'']. simpl in H2.
  destruct (shr_m mrs'') as [|p|p]; try discriminate; [|lia].
  destruct (e'' <=? emax - prec); discriminate.
Qed.

Lemma binary_normalize_not_nan (prec emax m e : Z) (s : bool) :
  binary_normalize prec emax m e s <> S754_nan.
Proof.
  destruct m as [|p|p]; simpl; try discriminate;
    unfold binary_round;
    destruct (shl_align p e _) as [mz ez]; apply binary_round_aux_not_nan; lia.
Qed.

Lemma ofDecimal_not_nan (neg : bool) (m e : Z) : Num.ofDecimal neg m e <> S754_nan.
Proof.
  unfold Num.ofDecimal. destruct m as [|p|p]; try discriminate.
  destruct (0 <=? e) eqn:Ee; [apply binary_normalize_not_nan|].
  apply Z.leb_gt in Ee.
  pose proof (Z.div_eucl_eq (Z.shiftl (Zpos p) (Zdigits2 (10 ^ (- e)) + 1100)) (10 ^ (- e))) as Hq.
  pose proof (Z.mod_pos_bound (Z.shiftl (Zpos p) (Zdigits2 (10 ^ (- e)) + 1100)) (10 ^ (- e))) as Hr.
  unfold Z.modulo in Hr.
  destruct (Z.div_eucl _ _) as [q r] eqn:E.
  apply binary_round_aux_not_nan.
  destruct (Z.le_gt_cases (10 ^ (- e)) 0) as [Hd|Hd].
  - assert (0 < 10 ^ (- e)) by (apply Z.pow_pos_nonneg; lia). lia.
  - specialize (Hq ltac:(lia)). specialize (Hr Hd).
    assert (0 <= Z.shiftl (Zpos p) (Zdigits2 (10 ^ (- e)) + 1100)).
    { apply Z.shiftl_nonneg. lia. }
    nia.
Qed.

End Rounding.

(* ===================================================================== *)
(** * Facts about the conversions *)
(* ===================================================================== *)

Section NumberFacts.
Import Str.
Local Open Scope N_scope.

Lemma digit_not_space (c : N) : isDigit c = true -> isSpace c = false.
Proof.
  unfold isDigit, isSpace. intros H. apply andb_true_iff in H as [H1 H2].
  apply N.leb_le in H1, H2.
  repeat (apply orb_false_iff; split);
    try (apply N.eqb_neq; lia);
    apply andb_false_iff; [right|left]; apply N.leb_gt; lia.
Qed.

Lemma span_whole (p : N -> bool) (s : jsstring) :
  forallb p s = true -> span p s = (s, []).
Proof.
  induction s as [|c s IH]; simpl; [reflexivity|].
  intros H. apply andb_true_iff in H as [-> H]. now rewrite IH.
Qed.

Lemma forallb_last (p : N -> bool) (s : jsstring) (d : N) :
  s <> [] -> forallb p s = true -> p (last s d) = true.
Proof.
  intros Hs H. destruct (exists_last Hs) as [l [z ->]].
  rewrite last_last. rewrite forallb_app in H.
  apply andb_true_iff in H as [_ H]. simpl in H. now rewrite andb_true_r in H.
Qed.

(** [Number] of a run of decimal digits is the rounded value of the run. *)
Lemma Number_digits (d : jsstring) :
  d <> [] -> forallb isDigit d = true ->
  Num.Number d = Num.ofDecimal false (Num.digitsValue 0 d) 0.
Proof.
  intros Hd Hall. destruct d as [|z d]; [congruence|].
  assert (Hz : isDigit z = true) by (simpl in Hall; now apply andb_true_iff in Hall).
  unfold Num.Number.
  rewrite (trim_id z d 0).
  2:{ now apply digit_not_space. }
  2:{ apply digit_not_space. apply forallb_last; [discriminate|assumption]. }
  assert (Hdec : Num.parseDecimal (z :: d)
                 = Num.ofDecimal false (Num.digitsValue 0 (z :: d)) 0).
  { unfold Num.parseDecimal, Num.takeSign.
    unfold isDigit in Hz. apply andb_true_iff in Hz as [Hz1 Hz2].
    apply N.leb_le in Hz1, Hz2.
    replace (z =? 45) with false by (symmetry; apply N.eqb_neq; lia).
    replace (z =? 43) with false by (symmetry; apply N.eqb_neq; lia).
    unfold Num.parseUnsigned.
    replace (Str.eqb (z :: d) (js "Infinity")) with false.
    2:{ simpl. replace (z =? 73) with false by (symmetry; apply N.eqb_neq; lia).
        reflexivity. }
    rewrite (span_whole _ _ Hall). simpl.
    rewrite app_nil_r. reflexivity. }
  destruct d as [|c r]; [exact Hdec|].
  assert (Hc : isDigit c = true).
  { simpl in Hall. apply andb_true_iff in Hall as [_ Hall].
    now apply andb_true_iff in Hall. }
  unfold isDigit in Hc. apply andb_true_iff in Hc as [Hc1 Hc2].
  apply N.leb_le in Hc1, Hc2.
  replace (c =? 120) with false by (symmetry; apply N.eqb_neq; lia).
  replace (c =? 88) with false by (symmetry; apply N.eqb_neq; lia).
  replace (c =? 111) with false by (symmetry; apply N.eqb_neq; lia).
  replace (c =? 79) with false by (symmetry; apply N.eqb_neq; lia).
  replace (c =? 98) with false by (symmetry; apply N.eqb_neq; lia).
  replace (c =? 66) with false by (symmetry; apply N.eqb_neq; lia).
  simpl orb. cbv iota. destruct (z =? 48); exact Hdec.
Qed.

Lemma Number_digits_not_nan (d : jsstring) :
  d <> [] -> forallb isDigit d = true -> Num.isNaN (Num.Number d) = false.
Proof.
  intros Hd Hall. rewrite (Number_digits d Hd Hall).
  pose proof (ofDecimal_not_nan false (Num.digitsValue 0 d) 0) as H.
  now destruct (Num.ofDecimal false (Num.digitsValue 0 d) 0).
Qed.

Lemma isFinite_not_nan (x : Num.number) : Num.isFinite x = true -> Num.isNaN x = false.
Proof. now destruct x. Qed.

Lemma digits1_spec (s m r : jsstring) :
  Re.digits1 s = Some (m, r) -> m <> [] /\ forallb isDigit m = true /\ s = m ++ r.
Proof.
  unfold Re.digits1. destruct (span isDigit s) as [a b] eqn:E.
  destruct a as [|x a]; [discriminate|]. intros H; injection H as <- <-.
  split; [discriminate|]. split; [eapply span_all; eassumption|].
  now apply span_app in E.
Qed.

End NumberFacts.

Section CaseFacts.
Import Str Unicode Aux.
Local Open Scope N_scope.

Lemma utf16_nonempty (c : N) : utf16 c <> [].
Proof. unfold utf16. destruct (c <? 65536); discriminate. Qed.

Lemma upperUnits_nonempty (c : N) : upperUnits c <> [].
Proof.
  unfold upperUnits. destruct (toUppercase c) as [u us].
  pose proof (utf16_nonempty u). destruct (utf16 u); [congruence|discriminate].
Qed.

(** Upper-casing never empties a string. *)
Lemma toUpperCase_nonempty (s : jsstring) : s <> [] -> toUpperCase s <> [].
Proof.
  destruct s as [|c s]; [congruence|]. intros _. simpl.
  destruct s as [|d s'].
  - apply upperUnits_nonempty.
  - destruct (isHighSurrogate c && isLowSurrogate d).
    + pose proof (upperUnits_nonempty (codePoint c d)).
      destruct (upperUnits (codePoint c d)); [congruence|discriminate].
    + pose proof (upperUnits_nonempty c).
      destruct (upperUnits c); [congruence|discriminate].
Qed.

Lemma ascii_table : forallb asciiCheck (map N.of_nat (seq 0 128)) = true.
Proof. vm_compute. reflexivity. Qed.

(** On ASCII the upper-case mapping only moves the small letters. *)
Lemma toUppercase_ascii (c : N) : c < 128 -> toUppercase c = (asciiUpper c, []).
Proof.
  intros H.
  assert (K : asciiCheck c = true).
  { apply (proj1 (forallb_forall _ _) ascii_table).
    apply in_map_iff. exists (N.to_nat c). split; [apply N2Nat.id|].
    apply in_seq. lia. }
  unfold asciiCheck in K. destruct (toUppercase c) as [v [|x l]]; [|discriminate].
  apply N.eqb_eq in K. now subst.
Qed.

(** Under the [i] flag only the two cases of a letter fold onto it. *)
Lemma canonicalize_letter (c u : N) :
  canonicalize c = u -> 65 <= u <= 90 -> c = u \/ c = u + 32.
Proof.
  unfold canonicalize. intros H Hu.
  destruct (N.lt_ge_cases c 128) as [Hc|Hc].
  - rewrite (toUppercase_ascii c Hc) in H.
    replace (128 <=? c) with false in H by (symmetry; apply N.leb_gt; lia).
    simpl in H. unfold asciiUpper in *.
    destruct ((97 <=? c) && (c <=? 122)) eqn:E.
    + apply andb_true_iff in E as [E1 E2]. apply N.leb_le in E1, E2.
      replace (c - 32 <? 65536) with true in H by (symmetry; apply N.ltb_lt; lia).
      right. lia.
    + destruct (c <? 65536); left; exact H.
  - destruct (toUppercase c) as [v [|x l]]; [|now left].
    replace (128 <=? c) with true in H by (symmetry; apply N.leb_le; lia).
    simpl in H. destruct (v <? 128) eqn:Ev; [now left|].
    apply N.ltb_ge in Ev. destruct (v <? 65536); [lia|now left].
Qed.

Lemma ci_letter (p c u : N) :
  canonicalize p = u -> 65 <= u <= 90 -> ci p c = true -> c = u \/ c = u + 32.
Proof.
  intros Hp Hu H. unfold ci in H. apply N.eqb_eq in H. rewrite Hp in H.
  now apply canonicalize_letter.
Qed.

End CaseFacts.

Section ReFacts.
Import Str Unicode Re.
Local Open Scope N_scope.

Lemma matchAtoms_lit3 (a b c : N) (s m r : jsstring) :
  matchAtoms (lit [a; b; c]) s = Some (m, r) ->
  exists x y z, m = [x; y; z] /\ s = x :: y :: z :: r
                /\ ci a x = true /\ ci b y = true /\ ci c z = true.
Proof.
  simpl. destruct s as [|x [|y [|z s]]]; unfold matchAtom; simpl;
    rewrite ?orb_false_r.
  - discriminate.
  - destruct (ci a x); discriminate.
  - destruct (ci a x); [|discriminate]. destruct (ci b y); discriminate.
  - destruct (ci a x) eqn:Ea; [|discriminate].
    destruct (ci b y) eqn:Eb; [|discriminate].
    destruct (ci c z) eqn:Ec; [|discriminate].
    intros H; injection H as <- <-. now exists x, y, z.
Qed.

(** A match of [tcp] or [udp] under the [i] flag, in either case of the
    pattern, upper-cases to one of the two protocol names. *)
Lemma proto_match (m : jsstring) :
  (exists a b c, In (a, b, c) [(116, 99, 112); (117, 100, 112); (84, 67, 80); (85, 68, 80)]
                 /\ exists s r, matchAtoms (lit [a; b; c]) s = Some (m, r)) ->
  toUpperCase m = js "TCP" \/ toUpperCase m = js "UDP".
Proof.
  intros [a [b [c [Hin [s [r H]]]]]].
  apply matchAtoms_lit3 in H as [x [y [z [-> [_ [Hx [Hy Hz]]]]]]].
  simpl in Hin.
  destruct Hin as [E|[E|[E|[E|[]]]]]; injection E as <- <- <-.
  - apply (ci_letter _ _ 84) in Hx; [|reflexivity|lia].
    apply (ci_letter _ _ 67) in Hy; [|reflexivity|lia].
    apply (ci_letter _ _ 80) in Hz; [|reflexivity|lia].
    left. destruct Hx as [-> | ->], Hy as [-> | ->], Hz as [-> | ->]; reflexivity.
  - apply (ci_letter _ _ 85) in Hx; [|reflexivity|lia].
    apply (ci_letter _ _ 68) in Hy; [|reflexivity|lia].
    apply (ci_letter _ _ 80) in Hz; [|reflexivity|lia].
    right. destruct Hx as [-> | ->], Hy as [-> | ->], Hz as [-> | ->]; reflexivity.
  - apply (ci_letter _ _ 84) in Hx; [|reflexivity|lia].
    apply (ci_letter _ _ 67) in Hy; [|reflexivity|lia].
    apply (ci_letter _ _ 80) in Hz; [|reflexivity|lia].
    left. destruct Hx as [-> | ->], Hy as [-> | ->], Hz as [-> | ->]; reflexivity.
  - apply (ci_letter _ _ 85) in Hx; [|reflexivity|lia].
    apply (ci_letter _ _ 68) in Hy; [|reflexivity|lia].
    apply (ci_letter _ _ 80) in Hz; [|reflexivity|lia].
    right. destruct Hx as [-> | ->], Hy as [-> | ->], Hz as [-> | ->]; reflexivity.
Qed.

Lemma matchAlt_two (p q : list atom) (s m r : jsstring) :
  matchAlt [p; q] s = Some (m, r) ->
  matchAtoms p s = Some (m, r) \/ matchAtoms q s = Some (m, r).
Proof.
  simpl. destruct (matchAtoms p s) as [x|]; [intros ->; now left|].
  destruct (matchAtoms q s) as [x|]; [intros ->; now right|discriminate].
Qed.

Lemma searchWord_match (ps : list (list atom)) (s : jsstring) (prev : option N)
  (b m r : jsstring) :
  searchWord ps prev s = Some (b, m, r) ->
  s = b ++ m ++ r /\ exists s', matchAlt ps s' = Some (m, r).
Proof.
  revert prev b; induction s as [|c s IH]; intros prev b; simpl.
  - unfold matchWordHere.
    destruct (wordBoundary prev (hd_error [])); [|discriminate].
    destruct (matchAlt ps []) as [[m' r']|] eqn:E; [|discriminate].
    destruct (wordBoundary _ _); [|discriminate].
    intros H; injection H as <- <- <-. split; [|now exists []].
    clear -E. induction ps as [|p ps IHp]; simpl in E; [discriminate|].
    destruct p as [|a p]; simpl in E; [now injection E as <- <-|now apply IHp].
  - destruct (matchWordHere ps prev (c :: s)) as [[m' r']|] eqn:E.
    + intros H; injection H as <- <- <-.
      unfold matchWordHere in E.
      destruct (wordBoundary prev _); [|discriminate].
      destruct (matchAlt ps (c :: s)) as [[m'' r'']|] eqn:E2; [|discriminate].
      destruct (wordBoundary _ _); [|discriminate].
      injection E as <- <-. split; [|now exists (c :: s)].
      clear -E2. revert E2. generalize (c :: s) as t.
      induction ps as [|p ps IHp]; intros t E; simpl in E; [discriminate|].
      destruct (matchAtoms p t) as [[x y]|] eqn:Ep; [|now apply IHp].
      injection E as <- <-. clear -Ep. revert t x y Ep.
      induction p as [|a p IHa]; intros t x y E; simpl in E.
      * now injection E as <- <-.
      * destruct t as [|d t]; [discriminate|].
        destruct (matchAtom a d); [|discriminate].
        destruct (matchAtoms p t) as [[x' y']|] eqn:E'; [|discriminate].
        injection E as <- <-. simpl. f_equal. now apply IHa.
    + destruct (searchWord ps (Some c) s) as [[[b' m'] r']|] eqn:E2; [|discriminate].
      intros H; injection H as <- <- <-.
      destruct (IH _ _ E2) as [-> K]. split; [reflexivity|exact K].
Qed.

End ReFacts.

(* ===================================================================== *)
(** * Facts about the extractors *)
(* ===================================================================== *)

Section ParserFacts.
Import Str Unicode Re Parsers Aux.
Local Open Scope N_scope.

Lemma collect_In {A} (f : jsstring -> option A) (lines : list jsstring) (r : A) :
  In r (collect f lines) <-> exists line, In line lines /\ f line = Some r.
Proof.
  unfold collect. rewrite in_flat_map. split.
  - intros [line [Hl Hr]]. exists line. split; [assumption|].
    destruct (f line); simpl in Hr; [destruct Hr as [->|[]]; reflexivity|easy].
  - intros [line [Hl Hr]]. exists line. split; [assumption|].
    rewrite Hr. now left.
Qed.

Lemma matchBracket_digits (addr h d : jsstring) :
  matchBracket addr = Some (h, d) -> d <> [] /\ forallb isDigit d = true.
Proof.
  unfold matchBracket.
  destruct (literal (js "[") addr) as [r|]; [|discriminate].
  destruct (notChar1 93 r) as [[h' r1]|]; [|discriminate].
  destruct (literal (js "]:") r1) as [r2|]; [|discriminate].
  destruct (digits1 r2) as [[d' [|x t]]|] eqn:E; try discriminate.
  intros H; injection H as <- <-.
  apply digits1_spec in E. tauto.
Qed.

(** A port that [splitHostPort] reports is a number, never NaN. *)
Lemma splitHostPort_not_nan (addr : jsstring) (p : Num.number) :
  port (splitHostPort addr) = Some p -> Num.isNaN p = false.
Proof.
  unfold splitHostPort.
  destruct (negb (truthy addr)); [discriminate|].
  destruct (matchBracket addr) as [[h d]|] eqn:E.
  - simpl. intros H; injection H as <-.
    apply matchBracket_digits in E as [E1 E2]. now apply Number_digits_not_nan.
  - assert (O : forall q, port (if Str.eqb addr (js "*:*")
                                then {| host := js "*"; port := None |}
                                else {| host := addr; port := None |}) = Some q -> False).
    { intros q. destruct (Str.eqb addr (js "*:*")); discriminate. }
    destruct (lastIndexOf1 58 addr) as [i|]; [|intros H; now apply O in H].
    destruct (indexOf (js ":") addr) as [j|]; [|intros H; now apply O in H].
    destruct (Nat.eqb j i); [|intros H; now apply O in H].
    simpl. destruct (Num.isFinite _) eqn:F; [|discriminate].
    intros H; injection H as <-. now apply isFinite_not_nan.
Qed.

(** ** Fields after white space is collapsed *)

Lemma collapseSpaces_head (c : N) (s : jsstring) :
  isSpace c = false -> collapseSpaces (c :: s) = c :: collapseSpaces s.
Proof. intros H. simpl. now rewrite H. Qed.

Lemma collapseSpaces_single (s : jsstring) : noDoubleSpace (collapseSpaces s).
Proof.
  induction s as [|c s IH]; [exact I|].
  destruct (isSpace c) eqn:Ec.
  - simpl collapseSpaces. rewrite Ec. destruct s as [|d s']; [exact I|].
    destruct (isSpace d) eqn:Ed; [exact IH|].
    rewrite (collapseSpaces_head d s' Ed) in *.
    split; [|exact IH]. intros [_ ->]. vm_compute in Ed. discriminate.
  - rewrite (collapseSpaces_head c s Ec).
    destruct (collapseSpaces s) as [|b t] eqn:E; [exact I|].
    split; [|exact IH]. intros [-> _]. vm_compute in Ec. discriminate.
Qed.

Lemma split_aux_nonempty (sep : jsstring) (s : jsstring) (skip : nat) (cur : jsstring) :
  split_aux sep skip cur s <> [].
Proof.
  revert skip cur; induction s as [|c s IH]; intros skip cur; simpl; [discriminate|].
  destruct skip; [|apply IH].
  destruct (startsWith sep (c :: s)); [discriminate|apply IH].
Qed.

Lemma split_space_cons (c : N) (t cur : jsstring) :
  split_aux (js " ") 0 cur (c :: t)
  = if 32 =? c then rev cur :: split_aux (js " ") 0 [] t
    else split_aux (js " ") 0 (c :: cur) t.
Proof. simpl. now rewrite andb_true_r. Qed.

Lemma split_space_pieces (t cur : jsstring) :
  noDoubleSpace t -> (cur <> [] \/ headIsNot 32 t) ->
  Forall (fun x => x <> []) (removelast (split_aux (js " ") 0 cur t)).
Proof.
  revert cur; induction t as [|c t IH]; intros cur Hn Hc; [constructor|].
  assert (Ht : noDoubleSpace t) by (destruct t; [exact I|apply Hn]).
  assert (Hne : forall k u, split_aux (js " ") 0 k u <> [])
    by (intros k u; apply split_aux_nonempty).
  rewrite split_space_cons. destruct (32 =? c) eqn:E.
  - apply N.eqb_eq in E. subst c.
    rewrite removelast_cons by apply Hne. constructor.
    + destruct Hc as [Hc|Hc]; [|now simpl in Hc].
      intros K. apply Hc. apply (f_equal (@rev N)) in K.
      now rewrite rev_involutive in K.
    + apply IH; [assumption|]. right.
      destruct t as [|d t']; [exact I|]. simpl. intros ->. now apply (proj1 Hn).
  - apply IH; [assumption|]. left; discriminate.
Qed.

Lemma nth_removelast {A} (l : list A) (i : nat) (d : A) :
  (S i < length l)%nat -> nth i (removelast l) d = nth i l d.
Proof.
  revert i; induction l as [|x l IH]; intros i H; [simpl in H; lia|].
  destruct l as [|y l]; [simpl in H; lia|].
  rewrite removelast_cons by discriminate.
  destruct i as [|i]; [reflexivity|]. simpl nth at 2.
  change (nth (S i) (x :: removelast (y :: l)) d) with (nth i (removelast (y :: l)) d).
  apply IH. simpl in *. lia.
Qed.

Lemma removelast_length {A} (l : list A) : length (removelast l) = pred (length l).
Proof.
  rewrite removelast_firstn_len, length_firstn. lia.
Qed.

(** A field that is neither the first nor the last is never empty. *)
Lemma inner_field_nonempty (line : jsstring) (i : nat) :
  (1 <= i)%nat -> (S i < length (split (js " ") (collapseSpaces line)))%nat ->
  nth i (split (js " ") (collapseSpaces line)) [] <> [].
Proof.
  intros Hi Hlen. pose proof (collapseSpaces_single line) as Hn.
  unfold split in *. destruct (collapseSpaces line) as [|c t] eqn:E.
  - simpl in Hlen. lia.
  - destruct (N.eq_dec c 32) as [->|Hc].
    + rewrite split_space_cons in *. simpl N.eqb in *. cbv iota in *.
      destruct i as [|i]; [lia|]. simpl nth. simpl length in Hlen.
      assert (Ht : noDoubleSpace t) by (destruct t; [exact I|apply Hn]).
      assert (Hh : headIsNot 32 t).
      { destruct t as [|d t']; [exact I|]. simpl. intros ->. now apply (proj1 Hn). }
      pose proof (split_space_pieces t [] Ht (or_intror Hh)) as F.
      rewrite <- nth_removelast by lia.
      apply (proj1 (Forall_forall _ _) F). apply nth_In.
      rewrite removelast_length. lia.
    + pose proof (split_space_pieces (c :: t) [] Hn (or_intror Hc)) as F.
      rewrite <- nth_removelast by lia.
      apply (proj1 (Forall_forall _ _) F). apply nth_In.
      rewrite removelast_length. lia.
Qed.

End ParserFacts.

Section RecordFacts.
Import Str Unicode Re Parsers Aux.
Local Open Scope N_scope.

Lemma token1_nonempty (s m r : jsstring) : token1 s = Some (m, r) -> m <> [].
Proof.
  unfold token1. destruct (span _ s) as [[|x a] b]; [discriminate|].
  intros H; injection H as <- <-. discriminate.
Qed.

Lemma notChar1_nonempty (c : N) (s m r : jsstring) :
  notChar1 c s = Some (m, r) -> m <> [].
Proof.
  unfold notChar1. destruct (span _ s) as [[|x a] b]; [discriminate|].
  intros H; injection H as <- <-. discriminate.
Qed.

(** ** Windows *)

Lemma windowsRecord_spec (line : jsstring) (r : ConnectionRecord) :
  windowsRecord line = Some r ->
  portsAreNumbers r
  /\ ((protocol r = js "TCP" /\ state r <> [])
      \/ (protocol r = js "UDP" /\ state r = js "UNSPECIFIED")).
Proof.
  unfold windowsRecord.
  set (parts := split (js " ") (collapseSpaces line)).
  destruct (Str.eqb _ (js "TCP") && (5 <=? length parts)%nat) eqn:Etcp.
  - intros H; injection H as <-. simpl. split.
    + split; intros p Hp; now apply splitHostPort_not_nan in Hp.
    + left. split; [reflexivity|].
      rewrite or_else_nil. apply toUpperCase_nonempty.
      apply andb_true_iff in Etcp as [_ Hlen]. apply Nat.leb_le in Hlen.
      apply inner_field_nonempty; fold parts; lia.
  - destruct (Str.eqb _ (js "UDP") && (4 <=? length parts)%nat); [|discriminate].
    intros H; injection H as <-. simpl. split.
    + split; intros p Hp; now apply splitHostPort_not_nan in Hp.
    + right. now split.
Qed.

Lemma parseWindowsNetstat_In (text : jsstring) (r : ConnectionRecord) :
  In r (parseWindowsNetstat text) -> exists line, windowsRecord line = Some r.
Proof.
  unfold parseWindowsNetstat. intros H. apply collect_In in H as [line [_ H]].
  now exists line.
Qed.

(** ** Linux ss *)

Lemma matchSS_spec (line m1 m2 m3 m4 : jsstring) (m5 : option jsstring) :
  matchSS line = Some (m1, m2, m3, m4, m5) ->
  (exists r0, matchAlt [lit (js "tcp"); lit (js "udp")] line = Some (m1, r0))
  /\ m2 <> [].
Proof.
  unfold matchSS.
  destruct (matchAlt _ line) as [[a r0]|] eqn:E0; [|discriminate].
  destruct (spaces1 r0) as [[x1 r1]|]; [|discriminate].
  destruct (token1 r1) as [[b r2]|] eqn:E2; [|discriminate].
  destruct (spaces1 r2) as [[x3 r3]|]; [|discriminate].
  destruct (token1 r3) as [[x4 r4]|]; [|discriminate].
  destruct (spaces1 r4) as [[x5 r5]|]; [|discriminate].
  destruct (token1 r5) as [[x6 r6]|]; [|discriminate].
  destruct (spaces1 r6) as [[x7 r7]|]; [|discriminate].
  destruct (token1 r7) as [[c r8]|]; [|discriminate].
  destruct (spaces1 r8) as [[x9 r9]|]; [|discriminate].
  destruct (token1 r9) as [[d r10]|]; [|discriminate].
  intros H; injection H as <- <- <- <- <-.
  split; [now exists r0|]. now apply token1_nonempty in E2.
Qed.

Lemma ssRecord_spec (line : jsstring) (r : ConnectionRecord) :
  ssRecord line = Some r ->
  portsAreNumbers r
  /\ (protocol r = js "TCP" \/ protocol r = js "UDP")
  /\ state r <> []
  /\ exists m1 m2 m3 m4 m5,
      matchSS line = Some (m1, m2, m3, m4, m5) /\ state r = toUpperCase m2.
Proof.
  unfold ssRecord.
  destruct (matchSS line) as [[[[[m1 m2] m3] m4] m5]|] eqn:E; [|discriminate].
  intros H; injection H as <-. simpl.
  apply matchSS_spec in E as K. destruct K as [[r0 K1] K2].
  split; [|split; [|split]].
  - split; intros p Hp; now apply splitHostPort_not_nan in Hp.
  - apply proto_match. apply matchAlt_two in K1 as [K1|K1].
    + exists 116, 99, 112. split; [now left|]. now exists line, r0.
    + exists 117, 100, 112. split; [right; now left|]. now exists line, r0.
  - now apply toUpperCase_nonempty.
  - now exists m1, m2, m3, m4, m5.
Qed.

Lemma parseLinuxSS_In (text : jsstring) (r : ConnectionRecord) :
  In r (parseLinuxSS text) -> exists line, ssRecord line = Some r.
Proof.
  unfold parseLinuxSS. intros H. apply collect_In in H as [line [_ H]].
  now exists line.
Qed.

(** ** lsof *)

Lemma matchStateHere_nonempty (s m : jsstring) :
  matchStateHere s = Some m -> m <> [].
Proof.
  unfold matchStateHere.
  destruct (literal (js "(") s) as [r|]; [|discriminate].
  destruct (notChar1 41 r) as [[m' r1]|] eqn:E; [|discriminate].
  destruct (literal (js ")") r1) as [r2|]; [|discriminate].
  destruct (dropWhile isSpace r2); [|discriminate].
  intros H; injection H as <-. now apply notChar1_nonempty in E.
Qed.

Lemma matchState_nonempty (s b m : jsstring) :
  matchState s = Some (b, m) -> m <> [].
Proof.
  revert b; induction s as [|c s IH]; intros b; simpl.
  - discriminate.
  - destruct (matchStateHere (c :: s)) as [x|] eqn:E.
    + intros H; injection H as <- <-. now apply matchStateHere_nonempty in E.
    + destruct (matchState s) as [[b' m']|]; [|discriminate].
      intros H; injection H as <- <-. now apply (IH b').
Qed.

Lemma matchStateHere_head (c : N) (s : jsstring) :
  (40 =? c) = false -> matchStateHere (c :: s) = None.
Proof.
  intros E. unfold matchStateHere.
  change (literal (js "(") (c :: s)) with (if 40 =? c then Some s else None).
  now rewrite E.
Qed.

(** Without an opening parenthesis there is no state suffix. *)
Lemma matchState_none (s : jsstring) : ~ In 40 s -> matchState s = None.
Proof.
  induction s as [|c s IH]; intros H; [reflexivity|].
  cbn [matchState].
  destruct (40 =? c) eqn:E.
  - apply N.eqb_eq in E. subst c. exfalso. apply H. now left.
  - rewrite (matchStateHere_head c s E), IH; [reflexivity|].
    intros K. apply H. now right.
Qed.

Lemma lsofRecord_spec (line : jsstring) (r : ConnectionRecord) :
  lsofRecord line = Some r ->
  portsAreNumbers r
  /\ (protocol r = js "TCP" \/ protocol r = js "UDP")
  /\ state r <> []
  /\ (~ In 40 line ->
      state r = if Str.eqb (protocol r) (js "UDP") then js "UNSPECIFIED" else js "UNKNOWN").
Proof.
  unfold lsofRecord.
  destruct (searchWord protoWord None line) as [[[b protoM] rest]|] eqn:E; [|discriminate].
  set (afterProto := trim (slice_from _ line)).
  destruct (if includes (js "->") _ then _ else _) as [local remote].
  intros H; injection H as <-. simpl.
  apply searchWord_match in E as [_ [s' K]].
  split; [|split; [|split]].
  - split; intros p Hp; now apply splitHostPort_not_nan in Hp.
  - apply proto_match. apply matchAlt_two in K as [K|K].
    + exists 84, 67, 80. split; [do 2 right; now left|]. now exists s', rest.
    + exists 85, 68, 80. split; [do 3 right; now left|]. now exists s', rest.
  - destruct (matchState afterProto) as [[b' m]|] eqn:Es.
    + apply toUpperCase_nonempty. now apply matchState_nonempty in Es.
    + destruct (Str.eqb _ _); discriminate.
  - intros Hno. rewrite matchState_none; [reflexivity|].
    intros Hin. apply Hno. unfold afterProto, slice_from in Hin.
    apply trim_incl in Hin.
    rewrite <- (firstn_skipn (match indexOf protoM line with Some i => i | None => 0%nat end
                              + length protoM) line).
    apply in_or_app. now right.
Qed.

Lemma parseLsof_In (text : jsstring) (r : ConnectionRecord) :
  In r (parseLsof text) -> exists line, lsofRecord line = Some r.
Proof.
  unfold parseLsof. intros H. apply collect_In in H as [line [_ H]].
  now exists line.
Qed.

End RecordFacts.

(* ===================================================================== *)
(** * Where a port comes from *)
(* ===================================================================== *)

Section PortTextFacts.
Import Str Unicode Re Parsers Aux PortText.
Local Open Scope N_scope.

Lemma literal_app (p s r : jsstring) : literal p s = Some r -> s = p ++ r.
Proof.
  revert s; induction p as [|x p IH]; intros s; simpl.
  - intros H; now injection H as ->.
  - destruct s as [|c s]; [discriminate|].
    destruct (x =? c) eqn:E; [|discriminate].
    apply N.eqb_eq in E. subst c. intros H. now rewrite (IH s H).
Qed.

Lemma matchBracket_shape (addr h d : jsstring) :
  matchBracket addr = Some (h, d) -> addr = js "[" ++ h ++ js "]:" ++ d.
Proof.
  unfold matchBracket.
  destruct (literal (js "[") addr) as [r|] eqn:E0; [|discriminate].
  apply literal_app in E0. subst addr.
  unfold notChar1. destruct (span _ r) as [[|y h'] r1] eqn:E1; [discriminate|].
  apply span_app in E1. subst r.
  destruct (literal (js "]:") r1) as [r2|] eqn:E2; [|discriminate].
  apply literal_app in E2. subst r1.
  destruct (digits1 r2) as [[d' [|z t]]|] eqn:E3; try discriminate.
  apply digits1_spec in E3 as [_ [_ E3]]. rewrite app_nil_r in E3. subst r2.
  intros H; injection H as <- <-. reflexivity.
Qed.

Lemma digits_colon_free (d : jsstring) : forallb isDigit d = true -> ~ In 58 d.
Proof.
  intros H K. rewrite forallb_forall in H. apply H in K. discriminate K.
Qed.

Lemma lastIndexOf1_absent (c : N) (s : jsstring) :
  lastIndexOf1 c s = None -> ~ In c s.
Proof.
  induction s as [|x s IH]; [easy|]. simpl.
  destruct (lastIndexOf1 c s) as [i|]; [discriminate|].
  destruct (x =? c) eqn:E; [discriminate|]. intros _ [->|K].
  - now rewrite N.eqb_refl in E.
  - now apply IH.
Qed.

Lemma lastIndexOf1_cut (c : N) (s : jsstring) (k : nat) :
  lastIndexOf1 c s = Some k ->
  s = firstn k s ++ c :: skipn (k + 1) s /\ ~ In c (skipn (k + 1) s).
Proof.
  revert k; induction s as [|x s IH]; intros k; [discriminate|]. simpl.
  destruct (lastIndexOf1 c s) as [i|] eqn:E.
  - intros H; injection H as <-. destruct (IH i eq_refl) as [H1 H2].
    simpl. split; [now rewrite <- H1|exact H2].
  - destruct (x =? c) eqn:Ex; [|discriminate].
    apply N.eqb_eq in Ex. subst x. intros H; injection H as <-.
    simpl. split; [reflexivity|now apply lastIndexOf1_absent].
Qed.

(** A port [splitHostPort] returns is the number of the text after the last
    colon of its argument. *)
Lemma splitHostPort_readOff (addr : jsstring) (p : Num.number) :
  port (splitHostPort addr) = Some p -> readOff addr p.
Proof.
  intros H. split; [now apply splitHostPort_not_nan in H|].
  revert H. unfold splitHostPort.
  destruct (negb (truthy addr)); [discriminate|].
  destruct (matchBracket addr) as [[h d]|] eqn:E.
  - simpl. intros H; injection H as <-.
    apply matchBracket_digits in E as K. destruct K as [_ K].
    apply matchBracket_shape in E.
    exists (js "[" ++ h ++ js "]"), d. split; [|split].
    + rewrite E. rewrite <- !app_assoc. reflexivity.
    + now apply digits_colon_free.
    + reflexivity.
  - assert (O : forall q, port (if Str.eqb addr (js "*:*")
                                then {| host := js "*"; port := None |}
                                else {| host := addr; port := None |}) = Some q -> False).
    { intros q. destruct (Str.eqb addr (js "*:*")); discriminate. }
    destruct (lastIndexOf1 58 addr) as [i|] eqn:El; [|intros H; now apply O in H].
    destruct (indexOf (js ":") addr) as [j|]; [|intros H; now apply O in H].
    destruct (Nat.eqb j i); [|intros H; now apply O in H].
    simpl. destruct (Num.isFinite _) eqn:F; [|discriminate].
    intros H; injection H as <-.
    apply lastIndexOf1_cut in El as [H1 H2].
    exists (firstn i addr), (skipn (i + 1) addr). split; [exact H1|].
    split; [exact H2|reflexivity].
Qed.

Lemma windowsRecord_tokens (line : jsstring) (r : ConnectionRecord) :
  windowsRecord line = Some r -> portsFromTokens r.
Proof.
  unfold windowsRecord.
  set (parts := split (js " ") (collapseSpaces line)).
  destruct (Str.eqb _ (js "TCP") && (5 <=? length parts)%nat) eqn:Etcp.
  - apply andb_true_iff in Etcp as [Ep _]. apply eqb_eq in Ep.
    intros H; injection H as <-.
    exists (nth 1 parts []), (nth 2 parts []), (nth 4 parts []). cbn.
    split; [now rewrite Ep|].
    split; intros p Hp; now apply splitHostPort_readOff.
  - destruct (Str.eqb _ (js "UDP") && (4 <=? length parts)%nat) eqn:Eudp;
      [|discriminate].
    apply andb_true_iff in Eudp as [Ep _]. apply eqb_eq in Ep.
    intros H; injection H as <-.
    exists (nth 1 parts []), (nth 2 parts []), (nth 3 parts []). cbn.
    split; [now rewrite Ep|].
    split; intros p Hp; now apply splitHostPort_readOff.
Qed.

Lemma ssRecord_tokens (line : jsstring) (r : ConnectionRecord) :
  ssRecord line = Some r -> portsFromTokens r.
Proof.
  unfold ssRecord.
  destruct (matchSS line) as [[[[[m1 m2] m3] m4] m5]|]; [|discriminate].
  intros H; injection H as <-.
  eexists m3, m4, _. cbn. split; [reflexivity|].
  split; intros p Hp; now apply splitHostPort_readOff.
Qed.

Lemma lsofRecord_tokens (line : jsstring) (r : ConnectionRecord) :
  lsofRecord line = Some r -> portsFromTokens r.
Proof.
  unfold lsofRecord.
  destruct (searchWord protoWord None line) as [[[b protoM] rest]|]; [|discriminate].
  destruct (if includes (js "->") _ then _ else _) as [local remote].
  intros H; injection H as <-.
  eexists local, remote, _. cbn. split; [reflexivity|].
  split; intros p Hp; now apply splitHostPort_readOff.
Qed.

(** ** ASCII bytes decode to themselves *)

Lemma decode_ascii (bytes : Utf8.buffer) :
  Forall (fun b => b <= 127) bytes -> Utf8.toString bytes = bytes.
Proof.
  unfold Utf8.toString. induction 1 as [|b bytes Hb _ IH]; [reflexivity|].
  cbn [Utf8.decodeFrom Utf8.step]. unfold Utf8.lead.
  apply N.leb_le in Hb. rewrite Hb. cbn [app]. now rewrite IH.
Qed.

Lemma decode_ascii_chunks (bufs : list Utf8.buffer) :
  Forall (Forall (fun b => b <= 127)) bufs ->
  concat (map Utf8.toString bufs) = concat bufs.
Proof.
  induction 1 as [|buf bufs Hb _ IH]; [reflexivity|].
  cbn [map concat]. now rewrite (decode_ascii buf Hb), IH.
Qed.

End PortTextFacts.

(* ===================================================================== *)
(** * The extractors *)
(* ===================================================================== *)

Section ExtractorTheorems.
Import Str Unicode Re Parsers Sample.
Local Open Scope N_scope.

(** C2.  The line of the example yields exactly one record: protocol TCP,
    local 0.0.0.0 port 135, remote 0.0.0.0 port 0, state LISTENING, pid 900,
    no process name and no owner. *)
Theorem parseWindowsNetstat_listening_line :
  parseWindowsNetstat listeningLine = [listeningRecord].
Proof. vm_compute. reflexivity. Qed.

(** C3.  A line whose state is the French ÉTABLIE keeps that state: no
    replacement of [normalizeLine] mentions it, so the record differs from
    the one of the English line.  A state ÉCOUTE after a blank is not
    replaced either, because [\b] sees no word boundary before É. *)
Theorem parseWindowsNetstat_french_state_kept :
  parseWindowsNetstat etablieLine = [etablieRecord]
  /\ map state (parseWindowsNetstat establishedLine) = [js "ESTABLISHED"]
  /\ map state (parseWindowsNetstat ecouteLine) = [Eacute :: js "COUTE"]
  /\ map state (parseWindowsNetstat listeningLine) = [js "LISTENING"].
Proof. repeat split; vm_compute; reflexivity. Qed.

(** C4, as stated, fails: a port text of 99999 gives the port 99999. *)
Lemma extractor_port_out_of_range :
  exists r p, In r (parseWindowsNetstat bigPortLine)
              /\ localPort r = Some p /\ validPort p = false.
Proof.
  eexists; eexists. split; [vm_compute; left; reflexivity|].
  split; [reflexivity|]. vm_compute. reflexivity.
Qed.

(** C4, amended.  In every record of the three extractors, the key names
    the two address tokens of the line, and a local or remote port that is
    present is the number [Number] gives the text after the last colon of
    the token of its side, never NaN.  No range and no integrality is
    enforced: the port is in [0, 65535] only when that text is. *)
Theorem extractor_ports_are_numbers (text : jsstring) (r : ConnectionRecord) :
  In r (parseWindowsNetstat text) \/ In r (parseLinuxSS text) \/ In r (parseLsof text) ->
  exists local remote pidText,
    key r = keyOf (protocol r) local remote pidText
    /\ (forall p, localPort r = Some p ->
         Num.isNaN p = false
         /\ exists h d, local = h ++ js ":" ++ d /\ ~ In 58 d /\ p = Num.Number d)
    /\ (forall p, remotePort r = Some p ->
         Num.isNaN p = false
         /\ exists h d, remote = h ++ js ":" ++ d /\ ~ In 58 d /\ p = Num.Number d).
Proof.
  intros [H|[H|H]].
  - apply parseWindowsNetstat_In in H as [line H].
    now apply windowsRecord_tokens in H.
  - apply parseLinuxSS_In in H as [line H].
    now apply ssRecord_tokens in H.
  - apply parseLsof_In in H as [line H].
    now apply lsofRecord_tokens in H.
Qed.

Lemma extractor_ports_are_numbers_witness :
  exists local remote pidText,
    key listeningRecord = keyOf (protocol listeningRecord) local remote pidText
    /\ (forall p, localPort listeningRecord = Some p ->
         Num.isNaN p = false
         /\ exists h d, local = h ++ js ":" ++ d /\ ~ In 58 d /\ p = Num.Number d)
    /\ (forall p, remotePort listeningRecord = Some p ->
         Num.isNaN p = false
         /\ exists h d, remote = h ++ js ":" ++ d /\ ~ In 58 d /\ p = Num.Number d).
Proof.
  apply (extractor_ports_are_numbers listeningLine listeningRecord).
  left. vm_compute. left. reflexivity.
Defined.


(** C9.  Every record of the three extractors has protocol TCP or UDP, and a
    TCP record has a state that is not empty; [parseLsof] gives a TCP line
    without a parenthesis the state UNKNOWN. *)
Theorem extractors_protocol_and_state (text : jsstring) (r : ConnectionRecord) :
  In r (parseWindowsNetstat text) \/ In r (parseLinuxSS text) \/ In r (parseLsof text) ->
  (protocol r = js "TCP" \/ protocol r = js "UDP")
  /\ (protocol r = js "TCP" -> state r <> [])
  /\ (forall line, lsofRecord line = Some r -> protocol r = js "TCP" ->
      ~ In 40 line -> state r = js "UNKNOWN").
Proof.
  intros H. assert (K : (protocol r = js "TCP" \/ protocol r = js "UDP")
                        /\ (protocol r = js "TCP" -> state r <> [])).
  { destruct H as [H|[H|H]].
    - apply parseWindowsNetstat_In in H as [line H].
      apply windowsRecord_spec in H as [_ [[H1 H2]|[H1 H2]]].
      + split; [now left|now intros _].
      + split; [now right|]. rewrite H1. discriminate.
    - apply parseLinuxSS_In in H as [line H].
      apply ssRecord_spec in H as [_ [H1 [H2 _]]]. split; [exact H1|now intros _].
    - apply parseLsof_In in H as [line H].
      apply lsofRecord_spec in H as [_ [H1 [H2 _]]]. split; [exact H1|now intros _]. }
  destruct K as [K1 K2]. split; [exact K1|]. split; [exact K2|].
  intros line Hl Ht Hno. apply lsofRecord_spec in Hl as [_ [_ [_ Hd]]].
  rewrite (Hd Hno), Ht. reflexivity.
Qed.

Lemma extractors_protocol_and_state_witness :
  (protocol lsofTcpRecord = js "TCP" \/ protocol lsofTcpRecord = js "UDP")
  /\ (protocol lsofTcpRecord = js "TCP" -> state lsofTcpRecord <> [])
  /\ (forall line, lsofRecord line = Some lsofTcpRecord ->
      protocol lsofTcpRecord = js "TCP" -> ~ In 40 line ->
      state lsofTcpRecord = js "UNKNOWN").
Proof.
  apply (extractors_protocol_and_state lsofTcpLine lsofTcpRecord).
  right. right. vm_compute. left. reflexivity.
Defined.

(** C8.  With nothing after the colon the port is 0, not absent, because
    [Number('')] is 0; a fraction after the colon is kept as well. *)
Theorem splitHostPort_empty_port :
  splitHostPort (js "localhost:")
  = {| host := js "localhost"; port := Some (Num.ofZ 0) |}
  /\ splitHostPort (js "localhost:1.5")
     = {| host := js "localhost"; port := Some (Num.Number (js "1.5")) |}
  /\ Num.Number (js "1.5") = S754_finite false 6755399441055744 (-52).
Proof. repeat split; vm_compute; reflexivity. Qed.

End ExtractorTheorems.

(* ===================================================================== *)
(** * The streaming scan *)
(* ===================================================================== *)

Section ScanTheorems.
Import Ports.
Local Open Scope Z_scope.
Context {Buffer : Type} (decode : Buffer -> jsstring).

(** X26.  Two sequences of chunks whose decoded texts, joined, are the same
    give the same scan: the same settled result and the same progress
    notifications, wherever the text is cut. *)
Theorem scanPorts_chunking (maxPort : option Num.number) (hasCb : bool)
  (tasklist bufs1 bufs2 : list Buffer) :
  concat (map decode bufs1) = concat (map decode bufs2) ->
  scanPorts decode maxPort hasCb tasklist (map StdoutData bufs1)
  = scanPorts decode maxPort hasCb tasklist (map StdoutData bufs2).
Proof.
  intros H. unfold scanPorts. rewrite !runScan_stdout. now rewrite H.
Qed.

(** C5.  With a bound [m] in [1, 65535], every entry of a resolved list has
    a finite local port that is at most [m]; a scan that only receives
    output always resolves. *)
Theorem scanPorts_bound (m : Z) (hasCb : bool) (tasklist : list Buffer) :
  1 <= m <= 65535 ->
  (forall events l e,
      settled (scanPorts decode (Some (Num.ofZ m)) hasCb tasklist events)
      = Some (Resolved l) ->
      In e l ->
      Num.isFinite (localPort e) = true /\ Num.leb (localPort e) (Num.ofZ m) = true)
  /\ (forall bufs, exists l,
         settled (scanPorts decode (Some (Num.ofZ m)) hasCb tasklist
                    (map StdoutData bufs))
         = Some (Resolved l)).
Proof.
  intros Hm. unfold scanPorts. rewrite (clampMaxPort_integer m Hm). split.
  - intros events l e Hs He.
    pose proof (inv_events decode (Num.ofZ m) hasCb (buildPidMapWindows decode tasklist)
                  events initial (inv_initial _ _)) as Hi.
    pose proof (onEnd_resolved _ _ _ _ l Hi Hs) as Hg.
    apply (proj1 (Forall_forall _ _) Hg) in He as [Hk _].
    unfold keep in Hk. now apply andb_true_iff in Hk.
  - intros bufs. rewrite runScan_stdout. apply onEnd_settles.
    now rewrite settled_feed.
Qed.

(** C6.  The [current] values of the progress notifications never decrease,
    and with a callback the last notification has [current = total]; without
    a callback there is none. *)
Theorem scanPorts_progress (maxPort : option Num.number) (hasCb : bool)
  (tasklist : list Buffer) (events : list event) :
  Sorted Z.le (map fst (notifications (scanPorts decode maxPort hasCb tasklist events)))
  /\ (if hasCb
      then exists front n,
          notifications (scanPorts decode maxPort hasCb tasklist events)
          = front ++ [(n, n)]
      else notifications (scanPorts decode maxPort hasCb tasklist events) = []).
Proof.
  unfold scanPorts, runScan.
  pose proof (inv_events decode (clampMaxPort maxPort) hasCb
                (buildPidMapWindows decode tasklist) events initial (inv_initial _ _))
    as Hi.
  destruct (onEnd_notifications _ _ (buildPidMapWindows decode tasklist) _ Hi) as [H1 H2].
  split; [now apply StronglySorted_Sorted|exact H2].
Qed.


End ScanTheorems.

Section ByteTheorems.
Import Ports ByteSample.
Local Open Scope N_scope.

(** C1.  The output of the French example, cut between the two bytes of É,
    resolves with another record than the same bytes in one chunk: the
    handler decodes every chunk on its own, so each half of the character
    becomes U+FFFD before the leftover is put in front. *)
Theorem scanPorts_cut_inside_character :
  concat etablieCut = etablieBytes
  /\ settled (scanPorts Utf8.toString None false [] [StdoutData etablieBytes])
     = Some (Resolved [etablieEntry])
  /\ settled (scanPorts Utf8.toString None false [] (map StdoutData etablieCut))
     = Some (Resolved [garbledEntry])
  /\ state garbledEntry = [65533; 65533] ++ js "TABLIE"
  /\ state etablieEntry = [201] ++ js "TABLIE".
Proof. repeat split; vm_compute; reflexivity. Qed.

(** X27.  When every byte of the output is ASCII, the scan does not depend
    on where the bytes are cut into chunks. *)
Theorem scanPorts_ascii_chunking (maxPort : option Num.number) (hasCb : bool)
  (tasklist bufs1 bufs2 : list Utf8.buffer) :
  Forall (Forall (fun b => b <= 127)) bufs1 ->
  Forall (Forall (fun b => b <= 127)) bufs2 ->
  concat bufs1 = concat bufs2 ->
  scanPorts Utf8.toString maxPort hasCb tasklist (map StdoutData bufs1)
  = scanPorts Utf8.toString maxPort hasCb tasklist (map StdoutData bufs2).
Proof.
  intros H1 H2 H. unfold scanPorts. rewrite !runScan_stdout.
  now rewrite (decode_ascii_chunks bufs1 H1), (decode_ascii_chunks bufs2 H2), H.
Qed.

Lemma scanPorts_ascii_chunking_witness :
  scanPorts Utf8.toString (Some (Num.ofZ 1024)) true [] (map StdoutData asciiCut)
  = scanPorts Utf8.toString (Some (Num.ofZ 1024)) true [] (map StdoutData [asciiWhole]).
Proof.
  apply (scanPorts_ascii_chunking (Some (Num.ofZ 1024)) true [] asciiCut [asciiWhole]).
  - repeat constructor; vm_compute; discriminate.
  - repeat constructor; vm_compute; discriminate.
  - vm_compute. reflexivity.
Defined.

End ByteTheorems.

Section ScanWitnesses.
Import Ports Sample.
Local Open Scope Z_scope.

Lemma scanPorts_chunking_witness :
  scanPorts (fun s => s) (Some (Num.ofZ 1024)) true [] (map StdoutData netstatCut)
  = scanPorts (fun s => s) (Some (Num.ofZ 1024)) true [] (map StdoutData [netstatWhole]).
Proof.
  apply (scanPorts_chunking (fun s : jsstring => s)). vm_compute. reflexivity.
Defined.

Lemma scanPorts_bound_witness :
  Num.isFinite (localPort tcpEntry) = true
  /\ Num.leb (localPort tcpEntry) (Num.ofZ 1024) = true.
Proof.
  assert (Hm : 1 <= 1024 <= 65535) by lia.
  apply (proj1 (scanPorts_bound (fun s : jsstring => s) 1024 true [] Hm)
           (map StdoutData netstatCut) [tcpEntry; udpEntry] tcpEntry).
  - vm_compute. reflexivity.
  - left. reflexivity.
Defined.

End ScanWitnesses.

Section StateTheorem.
Import Str Unicode Re Parsers Sample.
Local Open Scope N_scope.



End StateTheorem.

(* ===================================================================== *)
(** * The Linux owner resolver *)
(* ===================================================================== *)

Section OwnerTheorems.
Import Owners Sample.
Local Open Scope N_scope.

(** C10.  For process 1 of uid 0 and an account root of uid 0 the resolver
    returns the empty mapping: the pattern of [pidToUid] is written with
    doubled backslashes, so it asks for a backslash after [Uid:] and finds
    none in a status file. *)
Theorem ownersLinux_real_status :
  buildUidNameMap linuxFiles = [(js "0", js "root")]
  /\ pidToUid linuxFiles (Num.ofZ 1) = None
  /\ ownersLinux linuxFiles = [].
Proof. repeat split; vm_compute; reflexivity. Qed.

End OwnerTheorems.

(* ===================================================================== *)
(** * More on the streaming scan *)
(* ===================================================================== *)

Section ScanSettling.
Import Ports.
Local Open Scope Z_scope.
Context {Buffer : Type} (decode : Buffer -> jsstring).
Variables (maxPort : Num.number) (hasCb : bool) (names : pidMap).

Lemma settled_stdout (bufs : list Buffer) (st : scan) :
  settled (fold_left (handle decode maxPort hasCb names) (map StdoutData bufs) st)
  = settled st.
Proof.
  revert st; induction bufs as [|b bufs IH]; intros st; simpl; [reflexivity|].
  rewrite IH. unfold onData. apply settled_feed.
Qed.

Lemma settled_handle_kept (o : outcome) (ev : event) (st : scan) :
  settled st = Some o -> settled (handle decode maxPort hasCb names st ev) = Some o.
Proof.
  intros H. destruct ev as [buf|buf|m]; simpl.
  - unfold onData. now rewrite settled_feed.
  - unfold onStderr. destruct (Str.truthy _); [|exact H].
    rewrite settled_settle. now rewrite H.
  - rewrite settled_settle. now rewrite H.
Qed.

Lemma settled_events_kept (o : outcome) (events : list event) (st : scan) :
  settled st = Some o ->
  settled (fold_left (handle decode maxPort hasCb names) events st) = Some o.
Proof.
  revert st; induction events as [|ev events IH]; intros st H; simpl; [exact H|].
  now apply IH, settled_handle_kept.
Qed.

Lemma settled_flushed (st : scan) :
  settled (Aux.flushed maxPort names st) = settled st.
Proof.
  unfold Aux.flushed. destruct (Str.truthy _); [|reflexivity].
  destruct (isDataLine _); [|reflexivity].
  destruct (parseLine_cases maxPort names (Str.trim (leftover st)) st)
    as [->|[->|[e [_ ->]]]]; reflexivity.
Qed.

Lemma settled_onEnd_kept (o : outcome) (st : scan) :
  settled st = Some o -> settled (onEnd maxPort hasCb names st) = Some o.
Proof.
  intros H. rewrite onEnd_settled, settled_flushed. now rewrite H.
Qed.

Lemma runScan_rejected (pre : list Buffer) (ev : event) (post : list event)
  (m : jsstring) :
  (forall st, settled st = None ->
              settled (handle decode maxPort hasCb names st ev) = Some (Rejected m)) ->
  settled (runScan decode maxPort hasCb names (map StdoutData pre ++ ev :: post))
  = Some (Rejected m).
Proof.
  intros H. unfold runScan. rewrite fold_left_app. simpl.
  apply settled_onEnd_kept, settled_events_kept, H.
  now rewrite settled_stdout.
Qed.

Lemma runScan_skip (pre post : list event) (ev : event) :
  (forall st, handle decode maxPort hasCb names st ev = st) ->
  runScan decode maxPort hasCb names (pre ++ ev :: post)
  = runScan decode maxPort hasCb names (pre ++ post).
Proof.
  intros H. unfold runScan. rewrite !fold_left_app. simpl. now rewrite H.
Qed.

End ScanSettling.

Section ScanSettlingTheorems.
Import Ports.
Local Open Scope Z_scope.
Context {Buffer : Type} (decode : Buffer -> jsstring).

(** X1.  An [error] event of the child process after any amount of output
    rejects the promise with that error, whatever happens afterwards. *)
Theorem scanPorts_error_rejects (maxPort : option Num.number) (hasCb : bool)
  (tasklist pre : list Buffer) (message : jsstring) (post : list event) :
  settled (scanPorts decode maxPort hasCb tasklist
             (map StdoutData pre ++ ProcessError message :: post))
  = Some (Rejected message).
Proof.
  unfold scanPorts. apply runScan_rejected.
  intros st H. simpl. rewrite settled_settle. now rewrite H.
Qed.

(** X2.  A chunk on the error stream that is not blank, after any amount of
    output, rejects the promise with the trimmed text behind
    [netstat stderr: ], whatever happens afterwards. *)
Theorem scanPorts_stderr_rejects (maxPort : option Num.number) (hasCb : bool)
  (tasklist pre : list Buffer) (buf : Buffer) (post : list event) :
  Str.trim (decode buf) <> [] ->
  settled (scanPorts decode maxPort hasCb tasklist
             (map StdoutData pre ++ StderrData buf :: post))
  = Some (Rejected (js "netstat stderr: " ++ Str.trim (decode buf))).
Proof.
  intros Hb. unfold scanPorts. apply runScan_rejected.
  intros st H. simpl. unfold onStderr.
  destruct (Str.trim (decode buf)) as [|c t] eqn:E; [congruence|].
  simpl Str.truthy. cbv iota. rewrite settled_settle. now rewrite H.
Qed.

(** X3.  A chunk of white space on the error stream changes nothing: the
    scan is the one without it. *)
Theorem scanPorts_blank_stderr (maxPort : option Num.number) (hasCb : bool)
  (tasklist : list Buffer) (pre post : list event) (buf : Buffer) :
  Str.trim (decode buf) = [] ->
  scanPorts decode maxPort hasCb tasklist (pre ++ StderrData buf :: post)
  = scanPorts decode maxPort hasCb tasklist (pre ++ post).
Proof.
  intros Hb. unfold scanPorts. apply runScan_skip.
  intros st. simpl. unfold onStderr. now rewrite Hb.
Qed.

End ScanSettlingTheorems.

Section ScanSettlingWitnesses.
Import Ports Sample.

Lemma scanPorts_stderr_rejects_witness :
  settled (scanPorts (fun s => s) None false []
             (map StdoutData netstatCut ++ StderrData (js " access denied ") :: []))
  = Some (Rejected (js "netstat stderr: " ++ Str.trim (js " access denied "))).
Proof.
  apply (scanPorts_stderr_rejects (fun s : jsstring => s)).
  vm_compute. discriminate.
Defined.

Lemma scanPorts_blank_stderr_witness :
  scanPorts (fun s => s) None true []
    (map StdoutData netstatCut ++ StderrData (cr ++ lf) :: [])
  = scanPorts (fun s => s) None true [] (map StdoutData netstatCut ++ []).
Proof.
  apply (scanPorts_blank_stderr (fun s : jsstring => s)).
  vm_compute. reflexivity.
Defined.

End ScanSettlingWitnesses.

Section EstimateFacts.
Import Ports Shape.
Local Open Scope Z_scope.
Context {Buffer : Type} (decode : Buffer -> jsstring).
Variables (maxPort : Num.number) (names : pidMap).

Lemma estimate_initial : estimate initial.
Proof. split; simpl; try constructor. lia. Qed.

Lemma estimate_parseLine (line : jsstring) (st : scan) :
  estimate st -> estimate (parseLine maxPort names line st).
Proof.
  intros [H1 H2 H3 H4].
  destruct (parseLine_cases maxPort names line st) as [->|[->|[e [_ ->]]]];
    now split.
Qed.

Lemma estimate_throttle (st : scan) : estimate st -> estimate (throttle true st).
Proof.
  intros [H1 H2 H3 H4]. unfold throttle.
  destruct (parsedCount st mod 25 =? 0) eqn:E; [|now split].
  apply Z.eqb_eq in E. unfold notify. split; simpl.
  - lia.
  - apply Forall_app; split; [assumption|].
    constructor; [|constructor]. unfold throttled; simpl. lia.
  - apply Forall_app; split.
    + eapply Forall_impl; [|exact H3]. simpl; intros; lia.
    + constructor; [simpl; lia|constructor].
  - rewrite map_app. simpl. apply StronglySorted_snoc; [assumption|].
    apply Forall_map. eapply Forall_impl; [|exact H3]. simpl; intros; lia.
Qed.

Lemma estimate_dataLine (raw : jsstring) (st : scan) :
  estimate st -> estimate (dataLine maxPort true names st raw).
Proof.
  intros H. unfold dataLine.
  destruct (negb (Str.truthy (Str.trim raw)) || negb (isDataLine (Str.trim raw)));
    [assumption|].
  now apply estimate_throttle, estimate_parseLine.
Qed.

Lemma estimate_feed (t : jsstring) (st : scan) :
  estimate st -> estimate (feed maxPort true names st t).
Proof.
  intros H. rewrite feed_unfold.
  assert (K : forall l s, estimate s -> estimate (setLeftover l s))
    by (intros l s []; now split).
  apply K.
  generalize (fst (popLines (leftover st ++ t))) as lines.
  intros lines; revert st H; induction lines as [|x lines IH]; intros st H; simpl;
    [assumption|].
  now apply IH, estimate_dataLine.
Qed.

Lemma estimate_settle (o : outcome) (st : scan) : estimate st -> estimate (settle o st).
Proof.
  intros H. unfold settle. destruct (settled st); [assumption|].
  destruct H; now split.
Qed.

Lemma estimate_events (events : list event) (st : scan) :
  estimate st -> estimate (fold_left (handle decode maxPort true names) events st).
Proof.
  revert st; induction events as [|ev events IH]; intros st H; simpl; [assumption|].
  apply IH. destruct ev as [buf|buf|m]; simpl.
  - now apply estimate_feed.
  - unfold onStderr. destruct (Str.truthy _); [now apply estimate_settle|assumption].
  - now apply estimate_settle.
Qed.

Lemma estimate_flushed (st : scan) :
  estimate st -> estimate (Aux.flushed maxPort names st).
Proof.
  intros H. unfold Aux.flushed. destruct (Str.truthy _); [|assumption].
  destruct (isDataLine _); [now apply estimate_parseLine|assumption].
Qed.

Lemma onEnd_notifications_shape (st : scan) :
  estimate st ->
  exists front n,
    notifications (onEnd maxPort true names st) = front ++ [(n, n)]
    /\ Forall throttled front
    /\ Sorted Z.le (map snd front).
Proof.
  intros H. apply estimate_flushed in H as [_ H2 _ H4].
  exists (notifications (Aux.flushed maxPort names st)),
         (parsedCount (Aux.flushed maxPort names st)).
  split; [|split; [assumption|now apply StronglySorted_Sorted]].
  unfold onEnd. fold (Aux.flushed maxPort names st).
  unfold settle, notify. simpl.
  now destruct (settled (Aux.flushed maxPort names st)).
Qed.

End EstimateFacts.

Section EstimateTheorem.
Import Ports Shape.
Local Open Scope Z_scope.
Context {Buffer : Type} (decode : Buffer -> jsstring).

(** X4.  With a callback, every notification before the final one is sent at
    a multiple of 25 parsed lines and carries a total of at least 200 that
    is at least 50 ahead of its count; these totals never decrease. *)
Theorem scanPorts_estimate (maxPort : option Num.number) (tasklist : list Buffer)
  (events : list event) :
  exists front n,
    notifications (scanPorts decode maxPort true tasklist events) = front ++ [(n, n)]
    /\ Forall (fun p => fst p mod 25 = 0 /\ fst p + 50 <= snd p /\ 200 <= snd p) front
    /\ Sorted Z.le (map snd front).
Proof.
  unfold scanPorts, runScan.
  apply (onEnd_notifications_shape (clampMaxPort maxPort)
           (buildPidMapWindows decode tasklist)).
  apply estimate_events, estimate_initial.
Qed.

End EstimateTheorem.

(* ===================================================================== *)
(** * The image name table *)
(* ===================================================================== *)

Section PidMapFacts.
Import Ports Shape.
Context {Buffer : Type} (decode : Buffer -> jsstring).

Lemma pidMapData_feedRows (st : pidMap * jsstring) (buf : Buffer) :
  pidMapData decode st buf = feedRows st (decode buf).
Proof.
  unfold pidMapData, feedRows. destruct st as [m l]. simpl.
  now destruct (popLines (l ++ decode buf)).
Qed.

Lemma feedRows_twice (st : pidMap * jsstring) (a b : jsstring) :
  feedRows (feedRows st a) b = feedRows st (a ++ b).
Proof.
  destruct st as [m l]. unfold feedRows. cbn [fst snd].
  rewrite (app_assoc l a b), (popLines_app (l ++ a) b). cbn [fst snd].
  rewrite fold_left_app. reflexivity.
Qed.

Lemma fold_pidMapData (bufs : list Buffer) (st : pidMap * jsstring) (t : jsstring) :
  fold_left (pidMapData decode) bufs (feedRows st t)
  = feedRows st (t ++ concat (map decode bufs)).
Proof.
  revert t; induction bufs as [|b bufs IH]; intros t; cbn [map concat fold_left].
  - now rewrite app_nil_r.
  - rewrite pidMapData_feedRows, feedRows_twice, IH. now rewrite app_assoc.
Qed.

(** X5.  The table of [buildPidMapWindows] depends on the text of the
    chunks only, not on where [tasklist]'s output was cut. *)
Theorem buildPidMapWindows_chunking (bufs1 bufs2 : list Buffer) :
  concat (map decode bufs1) = concat (map decode bufs2) ->
  buildPidMapWindows decode bufs1 = buildPidMapWindows decode bufs2.
Proof.
  intros H. unfold buildPidMapWindows.
  change (@nil (Num.number * jsstring), @nil N) with (feedRows ([], []) []).
  rewrite !fold_pidMapData. now rewrite H.
Qed.

End PidMapFacts.

Section PidMapWitness.
Import Ports Csv.

Lemma buildPidMapWindows_chunking_witness :
  buildPidMapWindows (fun s => s) tasklistCut
  = buildPidMapWindows (fun s => s) [tasklistWhole].
Proof.
  apply (buildPidMapWindows_chunking (fun s : jsstring => s)).
  vm_compute. reflexivity.
Defined.

End PidMapWitness.

(* ===================================================================== *)
(** * More on the address splitter and the extractors *)
(* ===================================================================== *)

Section SplitterFacts.
Import Str Re Parsers Aux.
Local Open Scope N_scope.

Lemma span_stop (p : N -> bool) (h r : jsstring) (c : N) :
  forallb p h = true -> p c = false -> span p (h ++ c :: r) = (h, c :: r).
Proof.
  intros Hh Hc. induction h as [|x h IH]; simpl.
  - now rewrite Hc.
  - simpl in Hh. apply andb_true_iff in Hh as [-> Hh]. now rewrite IH.
Qed.

Lemma notIn_forallb (c : N) (s : jsstring) :
  ~ In c s -> forallb (fun x => negb (x =? c)) s = true.
Proof.
  induction s as [|x s IH]; intros H; simpl; [reflexivity|].
  rewrite IH by (intros K; apply H; now right).
  replace (x =? c) with false; [reflexivity|].
  symmetry. apply N.eqb_neq. intros ->. apply H. now left.
Qed.

Lemma startsWith_one (c x : N) (s : jsstring) : startsWith [c] (x :: s) = (c =? x).
Proof. simpl. apply andb_true_r. Qed.

Lemma indexOf_first (c : N) (a r : jsstring) :
  ~ In c a -> indexOf [c] (a ++ c :: r) = Some (length a).
Proof.
  induction a as [|x a IH]; intros H.
  - simpl app. cbn [indexOf]. rewrite startsWith_one, N.eqb_refl. reflexivity.
  - simpl app. cbn [indexOf]. rewrite startsWith_one.
    replace (c =? x) with false
      by (symmetry; apply N.eqb_neq; intros ->; apply H; now left).
    rewrite IH by (intros K; apply H; now right). reflexivity.
Qed.

Lemma indexOf_none (c : N) (s : jsstring) : ~ In c s -> indexOf [c] s = None.
Proof.
  induction s as [|x s IH]; intros H; [reflexivity|].
  cbn [indexOf]. rewrite startsWith_one.
  replace (c =? x) with false
    by (symmetry; apply N.eqb_neq; intros ->; apply H; now left).
  rewrite IH by (intros K; apply H; now right). reflexivity.
Qed.

Lemma lastIndexOf1_none (c : N) (s : jsstring) : ~ In c s -> lastIndexOf1 c s = None.
Proof.
  induction s as [|x s IH]; intros H; [reflexivity|].
  simpl. rewrite IH by (intros K; apply H; now right).
  replace (x =? c) with false; [reflexivity|].
  symmetry. apply N.eqb_neq. intros ->. apply H. now left.
Qed.

Lemma lastIndexOf1_last (c : N) (a r : jsstring) :
  ~ In c r -> lastIndexOf1 c (a ++ c :: r) = Some (length a).
Proof.
  intros H. induction a as [|x a IH]; simpl.
  - rewrite (lastIndexOf1_none c r H), N.eqb_refl. reflexivity.
  - now rewrite IH.
Qed.

Lemma matchBracket_head (addr : jsstring) :
  headIsNot 91 addr -> matchBracket addr = None.
Proof.
  unfold matchBracket. destruct addr as [|x s]; [reflexivity|].
  simpl. intros H. apply N.eqb_neq in H. rewrite N.eqb_sym in H.
  change (match x with 0 => false | N.pos q => (91 =? q)%positive end) with (91 =? x).
  now rewrite H.
Qed.

Lemma matchBracket_colon (addr : jsstring) (hd : jsstring * jsstring) :
  matchBracket addr = Some hd -> In 58 addr.
Proof.
  unfold matchBracket.
  destruct addr as [|x s]; [discriminate|].
  destruct (literal (js "[") (x :: s)) as [r|] eqn:E0; [|discriminate].
  assert (r = s) as ->.
  { change (literal (js "[") (x :: s)) with (if 91 =? x then Some s else None) in E0.
    destruct (91 =? x); congruence. }
  unfold notChar1. destruct (span _ s) as [[|y h] r1] eqn:E; [discriminate|].
  apply span_app in E. subst s.
  destruct r1 as [|a [|b r2]]; [discriminate| |].
  - change (literal (js "]:") [a]) with (if 93 =? a then @None jsstring else None).
    destruct (93 =? a); discriminate.
  - change (literal (js "]:") (a :: b :: r2))
      with (if 93 =? a then if 58 =? b then Some r2 else None else None).
    destruct (93 =? a); [|discriminate].
    destruct (58 =? b) eqn:Eb; [|discriminate].
    apply N.eqb_eq in Eb. subst b. intros _.
    right. apply in_or_app. right. right. now left.
Qed.

Lemma bracketed_token (h d : jsstring) :
  h <> [] -> ~ In 93 h -> d <> [] -> forallb isDigit d = true ->
  splitHostPort (js "[" ++ h ++ js "]:" ++ d)
  = {| host := h; port := Some (Num.Number d) |}.
Proof.
  intros Hh Hb Hd Hall. unfold splitHostPort.
  change (js "[" ++ h ++ js "]:" ++ d) with (91 :: (h ++ 93 :: 58 :: d)).
  cbn [truthy negb]. cbv iota.
  assert (E : matchBracket (91 :: (h ++ 93 :: 58 :: d)) = Some (h, d)).
  { unfold matchBracket.
    change (literal (js "[") (91 :: (h ++ 93 :: 58 :: d))) with (Some (h ++ 93 :: 58 :: d)).
    cbv iota. unfold notChar1.
    rewrite (span_stop _ h (58 :: d) 93 (notIn_forallb 93 h Hb) eq_refl).
    destruct h as [|x h']; [congruence|].
    change (literal (js "]:") (93 :: 58 :: d)) with (Some d). cbv iota.
    unfold digits1. rewrite (span_whole _ _ Hall).
    destruct d; [congruence|reflexivity]. }
  rewrite E. reflexivity.
Qed.

Lemma single_colon_token (h p : jsstring) :
  ~ In 58 h -> ~ In 58 p -> headIsNot 91 h ->
  splitHostPort (h ++ js ":" ++ p)
  = {| host := h;
       port := if Num.isFinite (Num.Number p) then Some (Num.Number p) else None |}.
Proof.
  intros Hh Hp Hb. unfold splitHostPort.
  change (h ++ js ":" ++ p) with (h ++ 58 :: p).
  assert (T : truthy (h ++ 58 :: p) = true) by (destruct h; reflexivity).
  rewrite T. cbn [negb]. cbv iota.
  rewrite matchBracket_head.
  2:{ destruct h as [|x h']; simpl; [discriminate|exact Hb]. }
  rewrite (lastIndexOf1_last 58 h p Hp).
  change (js ":") with [58]. rewrite (indexOf_first 58 h p Hh).
  rewrite Nat.eqb_refl. unfold slice_from, slice_to.
  replace (length h + 1)%nat with (length h + 1 + 0)%nat by lia.
  rewrite firstn_app, Nat.sub_diag, firstn_all. simpl firstn. rewrite app_nil_r.
  replace (length h + 1 + 0)%nat with (length (h ++ [58])) by (rewrite length_app; simpl; lia).
  change (h ++ 58 :: p) with (h ++ [58] ++ p). rewrite app_assoc.
  rewrite skipn_app, Nat.sub_diag, skipn_all. reflexivity.
Qed.

End SplitterFacts.

Section SplitterTheorems.
Import Str Re Parsers Aux.
Local Open Scope N_scope.

(** X6.  A bracketed token [[host]:digits] is taken apart into the host
    without its brackets and the number of the digits. *)
Theorem splitHostPort_bracketed (h d : jsstring) :
  h <> [] -> ~ In 93 h -> d <> [] -> forallb isDigit d = true ->
  splitHostPort (js "[" ++ h ++ js "]:" ++ d)
  = {| host := h; port := Some (Num.Number d) |}.
Proof. apply bracketed_token. Qed.

(** X7.  A token with exactly one colon that does not open with a bracket
    is cut at the colon: the host is the text before it, the port the number
    of the text after it when that number is finite, and absent otherwise. *)
Theorem splitHostPort_single_colon (h p : jsstring) :
  ~ In 58 h -> ~ In 58 p -> headIsNot 91 h ->
  splitHostPort (h ++ js ":" ++ p)
  = {| host := h;
       port := if Num.isFinite (Num.Number p) then Some (Num.Number p) else None |}.
Proof. apply single_colon_token. Qed.

(** X8.  A token without a colon, and an unbracketed token with two or more
    colons (an IPv6 literal), is a host without a port. *)
Theorem splitHostPort_no_port :
  (forall addr, ~ In 58 addr -> splitHostPort addr = {| host := addr; port := None |})
  /\ (forall a b c, ~ In 58 a -> ~ In 58 c -> headIsNot 91 a ->
        splitHostPort (a ++ js ":" ++ b ++ js ":" ++ c)
        = {| host := a ++ js ":" ++ b ++ js ":" ++ c; port := None |}).
Proof.
  split.
  - intros addr H. unfold splitHostPort.
    destruct addr as [|x s] eqn:E; [reflexivity|]. rewrite <- E in *.
    assert (T : truthy addr = true) by (subst; reflexivity).
    rewrite T. cbn [negb]. cbv iota.
    destruct (matchBracket addr) as [hd|] eqn:Em.
    { exfalso. apply H. eapply matchBracket_colon; eassumption. }
    rewrite (lastIndexOf1_none 58 addr H).
    destruct (Str.eqb addr (js "*:*")) eqn:Es; [|reflexivity].
    apply eqb_eq in Es. exfalso. apply H. rewrite Es. right. now left.
  - intros a b c Ha Hc Hb. unfold splitHostPort.
    change (a ++ js ":" ++ b ++ js ":" ++ c) with (a ++ 58 :: (b ++ 58 :: c)).
    assert (T : truthy (a ++ 58 :: (b ++ 58 :: c)) = true) by (destruct a; reflexivity).
    rewrite T. cbn [negb]. cbv iota.
    rewrite matchBracket_head.
    2:{ destruct a as [|x a']; simpl; [discriminate|exact Hb]. }
    change (js ":") with [58].
    rewrite (indexOf_first 58 a (b ++ 58 :: c) Ha).
    replace (a ++ 58 :: b ++ 58 :: c) with ((a ++ 58 :: b) ++ 58 :: c)
      by (rewrite <- app_assoc; reflexivity).
    rewrite (lastIndexOf1_last 58 (a ++ 58 :: b) c Hc).
    replace (Nat.eqb (length a) (length (a ++ 58 :: b))) with false.
    2:{ symmetry. apply Nat.eqb_neq. rewrite length_app. simpl. lia. }
    destruct (Str.eqb ((a ++ 58 :: b) ++ 58 :: c) (js "*:*")) eqn:Es; [|reflexivity].
    apply eqb_eq in Es. exfalso.
    assert (K : lastIndexOf1 58 ((a ++ 58 :: b) ++ 58 :: c) = Some 1%nat)
      by (rewrite Es; reflexivity).
    rewrite (lastIndexOf1_last 58 (a ++ 58 :: b) c Hc) in K.
    injection K as K. rewrite length_app in K. simpl in K.
    assert (a = []) by (destruct a; [reflexivity|simpl in K; lia]). subst a.
    simpl in K. assert (b = []) by (destruct b; [reflexivity|simpl in K; lia]). subst b.
    simpl in Es. discriminate.
Qed.

End SplitterTheorems.

Section SplitterWitnesses.
Import Str Re Parsers Aux.
Local Open Scope N_scope.

Lemma splitHostPort_bracketed_witness :
  splitHostPort (js "[" ++ js "::1" ++ js "]:" ++ js "8080")
  = {| host := js "::1"; port := Some (Num.Number (js "8080")) |}.
Proof.
  apply (splitHostPort_bracketed (js "::1") (js "8080")).
  - discriminate.
  - vm_compute. intuition discriminate.
  - discriminate.
  - reflexivity.
Defined.

Lemma splitHostPort_single_colon_witness :
  splitHostPort (js "127.0.0.1" ++ js ":" ++ js "80")
  = {| host := js "127.0.0.1";
       port := if Num.isFinite (Num.Number (js "80"))
               then Some (Num.Number (js "80")) else None |}.
Proof.
  apply (splitHostPort_single_colon (js "127.0.0.1") (js "80")).
  - vm_compute. intuition discriminate.
  - vm_compute. intuition discriminate.
  - vm_compute. discriminate.
Defined.

Lemma splitHostPort_no_port_witness :
  splitHostPort (js "localhost") = {| host := js "localhost"; port := None |}
  /\ splitHostPort (js "fe80" ++ js ":" ++ js "" ++ js ":" ++ js "1")
     = {| host := js "fe80" ++ js ":" ++ js "" ++ js ":" ++ js "1"; port := None |}.
Proof.
  split.
  - apply (proj1 splitHostPort_no_port (js "localhost")).
    vm_compute. intuition discriminate.
  - apply (proj2 splitHostPort_no_port (js "fe80") (js "") (js "1")).
    + vm_compute. intuition discriminate.
    + vm_compute. intuition discriminate.
    + vm_compute. discriminate.
Defined.

End SplitterWitnesses.

Section LineFacts.
Import Str Re Parsers Aux Shape2.
Local Open Scope N_scope.

Lemma length_collect {A} (f : jsstring -> option A) (lines : list jsstring) :
  (length (collect f lines) <= length lines)%nat.
Proof.
  unfold collect. induction lines as [|l lines IH]; simpl; [lia|].
  rewrite length_app. destruct (f l); simpl; lia.
Qed.

Lemma length_filter {A} (p : A -> bool) (l : list A) :
  (length (filter p l) <= length l)%nat.
Proof. induction l as [|x l IH]; simpl; [lia|]. destruct (p x); simpl; lia. Qed.

Lemma collect_app {A} (f : jsstring -> option A) (l m : list jsstring) :
  collect f (l ++ m) = collect f l ++ collect f m.
Proof. unfold collect. apply flat_map_app. Qed.

(** ** A text and its lines *)

Lemma splitLines_lf_free (l b : jsstring) :
  ~ In 10 l -> splitLines (l ++ 10 :: b) = stripCR l :: splitLines b.
Proof.
  induction l as [|c l IH]; intros H; [reflexivity|].
  assert (H10 : c <> 10) by (intros ->; apply H; now left).
  assert (Hl : ~ In 10 l) by (intros K; apply H; now right).
  destruct l as [|d l'].
  - destruct (N.eq_dec c 13) as [->|H13]; [reflexivity|].
    simpl app. rewrite splitLines_other; [|assumption|intros; contradiction].
    rewrite splitLines_lf. simpl. apply N.eqb_neq in H13. now rewrite H13.
  - rewrite <- app_comm_cons. rewrite splitLines_other; [|assumption|].
    + rewrite (IH Hl). reflexivity.
    + intros _. simpl. intros ->. apply Hl. now left.
Qed.

Lemma splitLines_aux_lf_free (s cur : jsstring) :
  ~ In 10 cur -> Forall (fun p => ~ In 10 p) (splitLines_aux cur s).
Proof.
  revert cur; induction s as [|c s IH]; intros cur Hc; simpl.
  - constructor; [|constructor]. now rewrite <- in_rev.
  - destruct (c =? 10) eqn:E10.
    + constructor; [now rewrite <- in_rev|]. apply IH. easy.
    + apply N.eqb_neq in E10.
      assert (Hc' : ~ In 10 (c :: cur)) by (intros [->|H]; [congruence|contradiction]).
      destruct (c =? 13); [|now apply IH].
      destruct s as [|d s']; [now apply IH|].
      destruct (d =? 10) eqn:Ed; [|now apply IH].
      constructor; [now rewrite <- in_rev|].
      pose proof (IH [] (fun x => x)) as K2. simpl in K2. rewrite Ed in K2.
      now inversion K2.
Qed.

Lemma last_lf_free (s : jsstring) : ~ In 10 (last (splitLines s) []).
Proof.
  pose proof (splitLines_aux_lf_free s [] (fun x => x)) as F.
  fold (splitLines s) in F.
  destruct (exists_last (splitLines_nonempty s)) as [l [z E]].
  rewrite E in *. rewrite last_last. apply Forall_app in F as [_ F]. now inversion F.
Qed.

Lemma dropWhile_app_stop (p : N -> bool) (s t : jsstring) :
  existsb (fun c => negb (p c)) s = true -> dropWhile p (s ++ t) = dropWhile p s ++ t.
Proof.
  induction s as [|c s IH]; simpl; [discriminate|].
  destruct (p c); simpl; [exact IH|reflexivity].
Qed.

Lemma dropWhile_all (p : N -> bool) (s : jsstring) :
  existsb (fun c => negb (p c)) s = false -> dropWhile p s = [].
Proof.
  induction s as [|c s IH]; simpl; [reflexivity|].
  destruct (p c); simpl; [exact IH|discriminate].
Qed.

(** White space at the end does not change [trim]. *)
Lemma trim_snoc_space (s : jsstring) (c : N) :
  isSpace c = true -> trim (s ++ [c]) = trim s.
Proof.
  intros Hc. unfold trim, trimStart, trimEnd.
  destruct (existsb (fun x => negb (isSpace x)) s) eqn:E.
  - rewrite dropWhile_app_stop by assumption.
    rewrite rev_app_distr. simpl. now rewrite Hc.
  - rewrite (dropWhile_all _ _ E).
    assert (K : dropWhile isSpace (s ++ [c]) = []).
    { apply dropWhile_all. rewrite existsb_app, E. simpl. now rewrite Hc. }
    now rewrite K.
Qed.

Lemma stripCR_snoc (t : jsstring) (z : N) :
  stripCR (t ++ [z]) = if z =? 13 then t else t ++ [z].
Proof.
  induction t as [|y t IH]; [reflexivity|].
  change ((y :: t) ++ [z]) with (y :: (t ++ [z])).
  assert (E : stripCR (y :: (t ++ [z])) = y :: stripCR (t ++ [z])).
  { destruct t; reflexivity. }
  rewrite E, IH. now destruct (z =? 13).
Qed.

Lemma trim_stripCR (l : jsstring) : trim (stripCR l) = trim l.
Proof.
  destruct l as [|c l]; [reflexivity|].
  destruct (@exists_last _ (c :: l)) as [t [z E]]; [discriminate|].
  rewrite E, stripCR_snoc. destruct (z =? 13) eqn:Ez; [|reflexivity].
  apply N.eqb_eq in Ez. subst z. symmetry. now apply trim_snoc_space.
Qed.

Lemma map_trim_lines (a b : jsstring) :
  map trim (splitLines (a ++ 10 :: b))
  = map trim (splitLines a) ++ map trim (splitLines b).
Proof.
  rewrite splitLines_app.
  rewrite (splitLines_lf_free _ b (last_lf_free a)).
  rewrite map_app. simpl map. rewrite trim_stripCR.
  rewrite (app_removelast_last [] (splitLines_nonempty a)) at 3.
  rewrite map_app. simpl. now rewrite <- app_assoc.
Qed.

End LineFacts.

Section LineTheorems.
Import Str Re Parsers Aux.
Local Open Scope N_scope.

(** X9.  The records of a text whose parts are joined by a line feed are
    the records of the first part followed by those of the second:
    [parseWindowsNetstat] reads line by line. *)
Theorem parseWindowsNetstat_lines (a b : jsstring) :
  parseWindowsNetstat (a ++ [10] ++ b)
  = parseWindowsNetstat a ++ parseWindowsNetstat b.
Proof.
  unfold parseWindowsNetstat. change (a ++ [10] ++ b) with (a ++ 10 :: b).
  rewrite map_trim_lines, filter_app, map_app, filter_app, collect_app.
  reflexivity.
Qed.

(** X10.  No extractor returns more records than its text has lines. *)
Theorem extractors_at_most_one_per_line (text : jsstring) :
  (length (parseWindowsNetstat text) <= length (splitLines text))%nat
  /\ (length (parseLinuxSS text) <= length (splitLines text))%nat
  /\ (length (parseLsof text) <= length (splitLines text))%nat.
Proof.
  unfold parseWindowsNetstat, parseLinuxSS, parseLsof.
  repeat split.
  - eapply Nat.le_trans; [apply length_collect|].
    eapply Nat.le_trans; [apply length_filter|].
    rewrite length_map.
    eapply Nat.le_trans; [apply length_filter|].
    now rewrite length_map.
  - eapply Nat.le_trans; [apply length_collect|].
    eapply Nat.le_trans; [apply length_filter|]. apply length_filter.
  - eapply Nat.le_trans; [apply length_collect|]. apply length_filter.
Qed.

End LineTheorems.

Section LsofFacts.
Import Str Re Parsers Aux.
Local Open Scope N_scope.

Lemma includes_arrow (s : jsstring) : includes (js "->") s = true -> In 62 s.
Proof.
  unfold includes. induction s as [|c s IH]; [discriminate|].
  cbn [indexOf].
  destruct (startsWith (js "->") (c :: s)) eqn:E.
  - intros _. destruct s as [|d s']; [simpl in E; now rewrite andb_false_r in E|].
    change (startsWith (js "->") (c :: d :: s')) with ((45 =? c) && ((62 =? d) && true)) in E.
    apply andb_true_iff in E as [_ E]. apply andb_true_iff in E as [E _].
    apply N.eqb_eq in E. subst d. right. now left.
  - destruct (indexOf (js "->") s); [|discriminate].
    intros _. right. now apply IH.
Qed.

Lemma matchState_prefix (s b m : jsstring) (x : N) :
  matchState s = Some (b, m) -> In x b -> In x s.
Proof.
  revert b; induction s as [|c s IH]; intros b; cbn [matchState].
  - destruct (matchStateHere []); [|discriminate].
    intros H; injection H as <- <-. easy.
  - destruct (matchStateHere (c :: s)).
    + intros H; injection H as <- <-. easy.
    + destruct (matchState s) as [[b' m']|]; [|discriminate].
      intros H; injection H as <- <-. intros [->|K]; [now left|].
      right. now apply (IH b').
Qed.

(** X11.  A line without the character [>] has no remote side: [parseLsof]
    gives its record the remote address [*] and no remote port. *)
Theorem lsofRecord_no_arrow (line : jsstring) (r : ConnectionRecord) :
  ~ In 62 line -> lsofRecord line = Some r ->
  remoteAddress r = js "*" /\ remotePort r = None.
Proof.
  intros Hno. unfold lsofRecord.
  destruct (searchWord protoWord None line) as [[[b protoM] rest]|]; [|discriminate].
  set (afterProto := trim (slice_from _ line)).
  set (arrow := trim (match matchState afterProto with
                      | Some (b0, _) => b0
                      | None => afterProto
                      end)).
  assert (Ha : forall x, In x afterProto -> In x line).
  { intros x Hx. unfold afterProto, slice_from in Hx. apply trim_incl in Hx.
    rewrite <- (firstn_skipn (match indexOf protoM line with Some i => i | None => 0%nat end
                              + length protoM) line).
    apply in_or_app. now right. }
  destruct (includes (js "->") arrow) eqn:Ei.
  - exfalso. apply Hno. apply includes_arrow in Ei. unfold arrow in Ei.
    apply trim_incl in Ei. apply Ha.
    destruct (matchState afterProto) as [[b0 m0]|] eqn:Es; [|exact Ei].
    eapply matchState_prefix; eassumption.
  - intros H; injection H as <-. simpl. split; reflexivity.
Qed.

End LsofFacts.

Section LsofWitness.
Import Str Re Parsers Aux Sample.
Local Open Scope N_scope.

Lemma lsofRecord_no_arrow_witness :
  remoteAddress lsofTcpRecord = js "*" /\ remotePort lsofTcpRecord = None.
Proof.
  apply (lsofRecord_no_arrow lsofTcpLine lsofTcpRecord).
  - vm_compute. intuition discriminate.
  - vm_compute. reflexivity.
Defined.

End LsofWitness.

(* ===================================================================== *)
(** * More on the Linux owner resolver *)
(* ===================================================================== *)

Section ToStringFacts.
Import Str.
Local Open Scope Z_scope.

Lemma digitsOf_aux_chars (fuel : nat) (n : Z) (acc : jsstring) :
  Forall (fun c => c <> 78%N) acc ->
  Forall (fun c => c <> 78%N) (Num.digitsOf_aux fuel n acc).
Proof.
  revert n acc; induction fuel as [|f IH]; intros n acc H; simpl; [exact H|].
  assert (K : Forall (fun c => c <> 78%N) (Z.to_N (n mod 10 + 48) :: acc)).
  { constructor; [|exact H].
    pose proof (Z.mod_pos_bound n 10 ltac:(lia)). lia. }
  destruct (n <? 10); [exact K|now apply IH].
Qed.

Lemma digitsOf_chars (n : Z) : Forall (fun c => c <> 78%N) (Num.digitsOf n).
Proof. apply digitsOf_aux_chars. constructor. Qed.

Lemma zeros_chars (n : Z) : Forall (fun c => c <> 78%N) (Num.zeros n).
Proof.
  unfold Num.zeros. induction (Z.to_nat n); simpl; constructor; [discriminate|assumption].
Qed.

Lemma Forall_firstn_skipn {A} (P : A -> Prop) (n : nat) (l : list A) :
  Forall P l -> Forall P (firstn n l) /\ Forall P (skipn n l).
Proof.
  intros H. rewrite <- (firstn_skipn n l) in H. now apply Forall_app in H.
Qed.

Lemma positiveToString_chars (m : positive) (e : Z) :
  Forall (fun c => c <> 78%N) (Num.positiveToString m e).
Proof.
  unfold Num.positiveToString.
  destruct (Num.shortest _ _ _ _ _) as [[[s n] k]|]; [|constructor].
  pose proof (digitsOf_chars s) as Hd.
  destruct ((k <=? n) && (n <=? 21)).
  { apply Forall_app; split; [exact Hd|apply zeros_chars]. }
  destruct ((0 <? n) && (n <=? 21)).
  { destruct (Forall_firstn_skipn _ (Z.to_nat n) _ Hd) as [H1 H2].
    apply Forall_app; split; [exact H1|].
    apply Forall_app; split; [|exact H2]. constructor; [discriminate|constructor]. }
  destruct ((-6 <? n) && (n <=? 0)).
  { apply Forall_app; split; [repeat constructor; discriminate|].
    apply Forall_app; split; [apply zeros_chars|exact Hd]. }
  assert (He : Forall (fun c => c <> 78%N)
                 ([101%N; if 0 <=? n - 1 then 43%N else 45%N]
                  ++ Num.digitsOf (Z.abs (n - 1)))).
  { apply Forall_app; split; [|apply digitsOf_chars].
    constructor; [discriminate|]. constructor; [|constructor].
    destruct (0 <=? n - 1); discriminate. }
  destruct (Num.digitsOf s) as [|d [|d' r]].
  - exact He.
  - apply Forall_app; split; [exact Hd|exact He].
  - inversion Hd; subst. constructor; [assumption|].
    constructor; [discriminate|]. apply Forall_app; split; assumption.
Qed.

(** The text of a finite number is never the text of NaN. *)
Lemma toString_finite (x : Num.number) :
  Num.isFinite x = true -> Num.toString x <> js "NaN".
Proof.
  destruct x as [s|s| |s m e]; intros Hf; try discriminate Hf.
  - intros K. change (js "0" = js "NaN") in K. discriminate K.
  - cbn [Num.toString]. intros K.
    change (js "NaN") with [78%N; 97%N; 78%N] in K.
    destruct s; [discriminate K|].
    pose proof (positiveToString_chars m e) as F.
    rewrite K in F. inversion F; subst. congruence.
Qed.

End ToStringFacts.

Section OwnerFacts.
Import Str Re Owners.
Local Open Scope N_scope.

Lemma objSet_keys (P : jsstring -> Prop) (o : object) (k v : jsstring) :
  Forall (fun kv => P (fst kv)) o -> P k -> Forall (fun kv => P (fst kv)) (objSet o k v).
Proof.
  intros Ho Hk. induction o as [|[k' v'] o IH]; simpl.
  - constructor; [exact Hk|constructor].
  - inversion Ho; subst. destruct (Str.eqb k' k).
    + constructor; assumption.
    + destruct (listedBefore k k').
      * constructor; [exact Hk|exact Ho].
      * constructor; [assumption|now apply IH].
Qed.

Lemma objGet_missing (o : object) (k : jsstring) :
  Forall (fun kv => fst kv <> k) o -> objGet o k = None.
Proof.
  induction 1 as [|[k' v'] o Hk Ho IH]; simpl; [reflexivity|].
  destruct (Str.eqb k' k) eqn:E; [|exact IH].
  apply eqb_eq in E. simpl in Hk. congruence.
Qed.

Lemma passwdLine_keys (map : object) (line : jsstring) :
  Forall (fun kv => fst kv <> js "NaN") map ->
  Forall (fun kv => fst kv <> js "NaN") (passwdLine map line).
Proof.
  intros H. unfold passwdLine.
  destruct (negb (truthy line) || startsWith (js "#") line); [exact H|].
  destruct (3 <=? length (split (js ":") line))%nat; [|exact H].
  destruct (Num.isFinite _) eqn:F; [|exact H].
  apply (objSet_keys (fun k => k <> js "NaN")); [exact H|].
  now apply toString_finite.
Qed.

Lemma buildUidNameMap_keys (fs : fileSystem) :
  Forall (fun kv => fst kv <> js "NaN") (buildUidNameMap fs).
Proof.
  unfold buildUidNameMap.
  generalize (splitEscaped (readPasswd fs)) as lines.
  assert (G : forall lines map, Forall (fun kv => fst kv <> js "NaN") map ->
              Forall (fun kv => fst kv <> js "NaN") (fold_left passwdLine lines map)).
  { induction lines as [|l lines IH]; intros map H; simpl; [exact H|].
    now apply IH, passwdLine_keys. }
  intros lines. apply G. constructor.
Qed.

Lemma matchUidHere_shape (s m : jsstring) :
  matchUidHere s = Some m ->
  exists d ds, m = backslash :: d :: ds /\ forallb (fun c => c =? 100) (d :: ds) = true.
Proof.
  unfold matchUidHere.
  destruct (literal _ s) as [r|]; [|discriminate].
  destruct (span (fun c => c =? 115) r) as [[|x a] r1]; [discriminate|].
  destruct (literal [backslash] r1) as [r2|]; [|discriminate].
  destruct (span (fun c => c =? 100) r2) as [[|d ds] r3] eqn:E; [discriminate|].
  intros H; injection H as <-. exists d, ds. split; [reflexivity|].
  eapply span_all; eassumption.
Qed.

Lemma matchUid_shape (s m : jsstring) (b : bool) :
  matchUid b s = Some m ->
  exists d ds, m = backslash :: d :: ds /\ forallb (fun c => c =? 100) (d :: ds) = true.
Proof.
  revert b; induction s as [|c s IH]; intros b; cbn [matchUid].
  - destruct b; [|discriminate].
    destruct (matchUidHere []) eqn:E; [|discriminate].
    intros H; injection H as <-. now apply matchUidHere_shape in E.
  - destruct (if b then matchUidHere (c :: s) else None) eqn:E.
    + intros H; injection H as <-. destruct b; [|discriminate].
      now apply matchUidHere_shape in E.
    + apply IH.
Qed.

(** What the pattern of [pidToUid] captures is never a numeral. *)
Lemma Number_capture (d : N) (ds : jsstring) :
  forallb (fun c => c =? 100) (d :: ds) = true ->
  Num.Number (backslash :: d :: ds) = Num.NaN.
Proof.
  intros H. unfold Num.Number.
  rewrite (trim_id backslash (d :: ds) 0); [|reflexivity|].
  2:{ assert (K : (last (backslash :: d :: ds) 0 =? 100) = true).
      { change (last (backslash :: d :: ds) 0) with (last (d :: ds) 0).
        apply (forallb_last (fun c => c =? 100)); [discriminate|exact H]. }
      apply N.eqb_eq in K. now rewrite K. }
  reflexivity.
Qed.

Lemma pidToUid_nan (fs : fileSystem) (pid uid : Num.number) :
  pidToUid fs pid = Some uid -> uid = Num.NaN.
Proof.
  unfold pidToUid. destruct (readFile fs _) as [txt|]; [|discriminate].
  destruct (matchUid true txt) as [m|] eqn:E; [|discriminate].
  intros H; injection H as <-.
  apply matchUid_shape in E as [d [ds [-> Hd]]]. now apply Number_capture.
Qed.

Lemma procEntry_nothing (fs : fileSystem) (map : object) (name : jsstring) :
  procEntry fs (buildUidNameMap fs) map name = map.
Proof.
  unfold procEntry. destruct (negb (Num.isFinite _)); [reflexivity|].
  destruct (pidToUid fs _) as [uid|] eqn:E; [|reflexivity].
  apply pidToUid_nan in E. subst uid.
  change (Num.toString Num.NaN) with (js "NaN").
  now rewrite (objGet_missing _ _ (buildUidNameMap_keys fs)).
Qed.

Lemma escapedNewline_head (s : jsstring) :
  Aux.headIsNot backslash s -> escapedNewline s = None.
Proof.
  destruct s as [|a [|b [|c r]]]; try reflexivity.
  unfold escapedNewline. simpl Aux.headIsNot. intros H.
  apply N.eqb_neq in H. now rewrite H.
Qed.

Lemma splitEscaped_plain (s cur : jsstring) :
  ~ In backslash s -> splitEscaped_aux 0 cur s = [rev cur ++ s].
Proof.
  revert cur; induction s as [|c s IH]; intros cur H.
  - simpl. now rewrite app_nil_r.
  - cbn [splitEscaped_aux]. rewrite escapedNewline_head.
    + rewrite IH by (intros K; apply H; now right).
      simpl. now rewrite <- app_assoc.
    + simpl. intros ->. apply H. now left.
Qed.

End OwnerFacts.

Section OwnerExtraTheorems.
Import Str Re Owners.
Local Open Scope N_scope.

Lemma ownersLinux_nil (fs : fileSystem) : ownersLinux fs = [].
Proof.
  unfold ownersLinux.
  generalize (match readdir fs (js "/proc") with Some l => l | None => [] end) as names.
  induction names as [|n names IH]; simpl; [reflexivity|].
  now rewrite procEntry_nothing.
Qed.

(** X12.  Whatever the files hold, [ownersLinux] returns the empty mapping:
    the pattern of [pidToUid] can only capture a backslash followed by
    letters d, which [Number] turns into NaN, and no account is stored under
    NaN. *)
Theorem ownersLinux_always_empty (fs : fileSystem) : ownersLinux fs = [].
Proof. apply ownersLinux_nil. Qed.

(** X13.  [pidToUid] never returns a usable uid: its result is absent or
    NaN. *)
Theorem pidToUid_never_a_uid (fs : fileSystem) (pid : Num.number) :
  pidToUid fs pid = None \/ pidToUid fs pid = Some Num.NaN.
Proof.
  destruct (pidToUid fs pid) as [uid|] eqn:E; [|now left].
  right. apply pidToUid_nan in E. now subst.
Qed.

(** X14.  An account database without a backslash is read as one line, so
    [buildUidNameMap] knows at most one account, the first. *)
Theorem buildUidNameMap_one_line (fs : fileSystem) :
  ~ In backslash (readPasswd fs) ->
  buildUidNameMap fs = passwdLine [] (readPasswd fs)
  /\ (length (buildUidNameMap fs) <= 1)%nat.
Proof.
  intros H. unfold buildUidNameMap, splitEscaped.
  rewrite (splitEscaped_plain _ [] H). simpl. split; [reflexivity|].
  unfold passwdLine.
  destruct (negb (truthy _) || startsWith (js "#") _); [simpl; lia|].
  destruct (3 <=? length _)%nat; [|simpl; lia].
  destruct (Num.isFinite _); simpl; lia.
Qed.

End OwnerExtraTheorems.

Section OwnerExtraWitness.
Import Owners Sample.

Lemma buildUidNameMap_one_line_witness :
  buildUidNameMap linuxFiles = passwdLine [] (readPasswd linuxFiles)
  /\ (length (buildUidNameMap linuxFiles) <= 1)%nat.
Proof.
  apply (buildUidNameMap_one_line linuxFiles).
  vm_compute. intuition discriminate.
Defined.

End OwnerExtraWitness.

(* ===================================================================== *)
(** * The formatting helpers of the page *)
(* ===================================================================== *)

Section InspectorFacts.
Import Str Re Parsers Aux Inspector.
Local Open Scope N_scope.

Lemma replaceAll1_In (c : N) (by_ s : jsstring) (x : N) :
  In x (replaceAll1 c by_ s) -> (In x s /\ x <> c) \/ In x by_.
Proof.
  unfold replaceAll1. rewrite in_flat_map. intros [y [Hy Hx]].
  destruct (y =? c) eqn:E; [now right|].
  destruct Hx as [<-|[]]. left. split; [assumption|now apply N.eqb_neq].
Qed.

Lemma count_replaceAll1 (s : jsstring) :
  count_occ N.eq_dec (replaceAll1 34 [34; 34] s) 34
  = (2 * count_occ N.eq_dec s 34%N)%nat.
Proof.
  induction s as [|x s IH]; [reflexivity|].
  unfold replaceAll1 in *. cbn [flat_map]. rewrite count_occ_app, IH.
  destruct (N.eq_dec x 34) as [->|Hx].
  - rewrite count_occ_cons_eq by reflexivity. simpl. lia.
  - rewrite count_occ_cons_neq by assumption.
    apply N.eqb_neq in Hx as Hx'. rewrite Hx'.
    rewrite count_occ_cons_neq by assumption. simpl. lia.
Qed.

Lemma existsb_special_quote (s : jsstring) :
  existsb (fun c => (c =? 34) || (c =? 44) || (c =? 13) || (c =? 10)) s = false ->
  ~ In 34 s /\ ~ In 44 s /\ ~ In 13 s /\ ~ In 10 s.
Proof.
  intros H.
  assert (K : forall x, In x s ->
              ((x =? 34) || (x =? 44) || (x =? 13) || (x =? 10)) = false).
  { intros x Hx. destruct ((x =? 34) || (x =? 44) || (x =? 13) || (x =? 10)) eqn:E;
      [|reflexivity].
    rewrite <- H. symmetry. apply existsb_exists. now exists x. }
  repeat split; intros Hin; apply K in Hin; discriminate Hin.
Qed.

Lemma includes_colon (s : jsstring) : includes (js ":") s = false -> ~ In 58 s.
Proof.
  unfold includes. change (js ":") with [58].
  induction s as [|x s IH]; [easy|].
  cbn [indexOf]. rewrite startsWith_one.
  destruct (58 =? x) eqn:E; [discriminate|].
  destruct (indexOf [58] s) eqn:Ei; [discriminate|].
  intros _ [->|H]; [discriminate E|]. now apply IH.
Qed.

Lemma startsWith_bracket (s : jsstring) :
  startsWith (js "[") s = false -> headIsNot 91 s.
Proof.
  destruct s as [|x s]; [easy|].
  change (js "[") with [91]. rewrite startsWith_one. simpl.
  intros H K. subst x. discriminate H.
Qed.

Lemma digits_no_colon (d : jsstring) : forallb isDigit d = true -> ~ In 58 d.
Proof.
  intros H K. rewrite forallb_forall in H. apply H in K. discriminate K.
Qed.

End InspectorFacts.

Section InspectorTheorems.
Import Str Re Parsers Aux Inspector.
Local Open Scope N_scope.

(** X15.  The text [escapeHtml] returns holds none of the characters
    [<], [>], the double quote and the apostrophe, whatever it is given. *)
Theorem escapeHtml_safe (s : jsstring) :
  Forall (fun x => x <> 60 /\ x <> 62 /\ x <> 34 /\ x <> 39) (escapeHtml s).
Proof.
  apply Forall_forall. intros x. unfold escapeHtml. intros H.
  apply replaceAll1_In in H as [[H H39]|H].
  2:{ vm_compute in H. repeat split; intuition (subst; discriminate). }
  apply replaceAll1_In in H as [[H H34]|H].
  2:{ vm_compute in H. repeat split; intuition (subst; discriminate). }
  apply replaceAll1_In in H as [[H H62]|H].
  2:{ vm_compute in H. repeat split; intuition (subst; discriminate). }
  apply replaceAll1_In in H as [[H H60]|H].
  2:{ vm_compute in H. repeat split; intuition (subst; discriminate). }
  repeat split; assumption.
Qed.

(** X16.  A field written by [csvEscape] holds an even number of double
    quotes, and one that holds a comma, a carriage return or a line feed
    starts and ends with a double quote. *)
Theorem csvEscape_balanced (s : jsstring) :
  Nat.Even (count_occ N.eq_dec (csvEscape s) 34)
  /\ (In 44 (csvEscape s) \/ In 13 (csvEscape s) \/ In 10 (csvEscape s) ->
      exists body, csvEscape s = [34] ++ body ++ [34]).
Proof.
  unfold csvEscape.
  destruct (existsb _ s) eqn:E.
  - split.
    + rewrite !count_occ_app, count_replaceAll1. simpl.
      exists (S (count_occ N.eq_dec s 34)). lia.
    + intros _. now exists (replaceAll1 34 [34; 34] s).
  - apply existsb_special_quote in E as [H34 [H44 [H13 H10]]]. split.
    + exists 0%nat. simpl. now apply count_occ_not_In.
    + intros [H|[H|H]]; contradiction.
Qed.

(** X17.  What [hp] writes for a host and a port, [splitHostPort] reads
    back: the host is returned as it was, brackets around a host with a
    colon included, and the port is the number of the port's text. *)
Theorem hp_splitHostPort (h : jsstring) (p : Num.number) :
  h <> [] -> ~ In 93 h -> headIsNot 91 h ->
  Num.toString p <> [] -> forallb isDigit (Num.toString p) = true ->
  Num.isFinite (Num.Number (Num.toString p)) = true ->
  Inspector.splitHostPort (hp h (Some p))
  = {| host := h; port := Some (Num.Number (Num.toString p)) |}.
Proof.
  intros Hh H93 H91 Hd Hdig Hfin. unfold Inspector.splitHostPort, hp.
  assert (T : truthy h = true) by (destruct h; [congruence|reflexivity]).
  rewrite T. cbn [negb]. cbv iota.
  destruct (includes (js ":") h && negb (startsWith (js "[") h)) eqn:E.
  - now apply bracketed_token.
  - rewrite single_colon_token.
    + now rewrite Hfin.
    + apply includes_colon. apply andb_false_iff in E as [E|E]; [exact E|].
      exfalso. apply negb_false_iff in E.
      destruct h as [|x h']; [congruence|].
      change (js "[") with [91] in E. rewrite startsWith_one in E.
      apply N.eqb_eq in E. simpl in H91. congruence.
    + now apply digits_no_colon.
    + exact H91.
Qed.

End InspectorTheorems.

Section InspectorWitnesses.
Import Str Re Parsers Aux Inspector.
Local Open Scope N_scope.

Lemma hp_splitHostPort_witness :
  Inspector.splitHostPort (hp (js "::1") (Some (Num.ofZ 443)))
  = {| host := js "::1"; port := Some (Num.Number (Num.toString (Num.ofZ 443))) |}.
Proof.
  apply (hp_splitHostPort (js "::1") (Num.ofZ 443)).
  - discriminate.
  - vm_compute. intuition discriminate.
  - vm_compute. discriminate.
  - vm_compute. discriminate.
  - vm_compute. reflexivity.
  - vm_compute. reflexivity.
Defined.

End InspectorWitnesses.

(* ===================================================================== *)
(** * The collector and the tables it consults *)
(* ===================================================================== *)

Section CollectorFacts.
Import Str Re Parsers Aux Shape2 Owners Collector.
Local Open Scope N_scope.

Lemma splitLines_aux_no_lf (s cur : jsstring) :
  ~ In 10 s -> splitLines_aux cur s = [rev cur ++ s].
Proof.
  revert cur; induction s as [|c s IH]; intros cur H.
  - simpl. now rewrite app_nil_r.
  - assert (Hc : c <> 10) by (intros ->; apply H; now left).
    assert (Hs : ~ In 10 s) by (intros K; apply H; now right).
    assert (E : splitLines_aux cur (c :: s) = splitLines_aux (c :: cur) s).
    { cbn [splitLines_aux]. apply N.eqb_neq in Hc. rewrite Hc.
      destruct (c =? 13); [|reflexivity].
      destruct s as [|d s']; [reflexivity|].
      replace (d =? 10) with false; [reflexivity|].
      symmetry. apply N.eqb_neq. intros ->. apply Hs. now left. }
    rewrite E, (IH _ Hs). simpl. now rewrite <- app_assoc.
Qed.

Lemma splitLines_two_rows (a b : jsstring) :
  ~ In 10 a -> ~ In 10 b ->
  splitLines (a ++ [13; 10] ++ b ++ [13; 10]) = [a; b; []].
Proof.
  intros Ha Hb.
  replace (a ++ [13; 10] ++ b ++ [13; 10])
    with ((a ++ [13]) ++ 10 :: ((b ++ [13]) ++ 10 :: [])).
  2:{ rewrite <- !app_assoc. reflexivity. }
  rewrite splitLines_lf_free.
  2:{ intros K. apply in_app_or in K as [K|[K|[]]]; [contradiction|discriminate]. }
  rewrite splitLines_lf_free.
  2:{ intros K. apply in_app_or in K as [K|[K|[]]]; [contradiction|discriminate]. }
  now rewrite !stripCR_snoc.
Qed.

Lemma startsWith_separator (s : jsstring) :
  headIsNot 34 s -> startsWith fieldSeparator s = false.
Proof.
  destruct s as [|x s]; [reflexivity|]. simpl. intros H.
  change (match x with 0 => false | N.pos q => (34 =? q)%positive end) with (34 =? x).
  replace (34 =? x) with false; [reflexivity|].
  symmetry. apply N.eqb_neq. congruence.
Qed.

Lemma split_separator_free (s cur : jsstring) :
  ~ In 34 s -> split_aux fieldSeparator 0 cur s = [rev cur ++ s].
Proof.
  revert cur; induction s as [|c s IH]; intros cur H.
  - simpl. now rewrite app_nil_r.
  - cbn [split_aux]. rewrite startsWith_separator.
    + rewrite IH by (intros K; apply H; now right).
      simpl. now rewrite <- app_assoc.
    + simpl. intros ->. apply H. now left.
Qed.

Lemma split_two_fields (d n cur : jsstring) :
  ~ In 34 d -> ~ In 34 n ->
  split_aux fieldSeparator 0 cur (d ++ fieldSeparator ++ n) = [rev cur ++ d; n].
Proof.
  intros Hd Hn. revert cur; induction d as [|c d IH]; intros cur.
  - change ([] ++ fieldSeparator ++ n) with (34 :: 44 :: 34 :: n).
    cbn [split_aux]. change (startsWith fieldSeparator (34 :: 44 :: 34 :: n)) with true.
    cbv iota. change (length fieldSeparator - 1)%nat with 2%nat.
    cbn [split_aux]. rewrite (split_separator_free n [] Hn).
    now rewrite app_nil_r.
  - change ((c :: d) ++ fieldSeparator ++ n) with (c :: (d ++ fieldSeparator ++ n)).
    cbn [split_aux]. rewrite startsWith_separator.
    + rewrite IH by (intros K; apply Hd; now right).
      simpl. now rewrite <- app_assoc.
    + simpl. intros ->. apply Hd. now left.
Qed.

Lemma stripQuotes_quoted (body : jsstring) :
  stripQuotes ([34] ++ body ++ [34]) = body.
Proof.
  unfold stripQuotes. cbn [app]. change (34 =? 34) with true.
  cbv beta iota zeta. rewrite rev_app_distr. cbn [rev app].
  change (34 =? 34) with true. cbv iota. apply rev_involutive.
Qed.

Lemma pidRow_quoted (map : objectU) (d n : jsstring) :
  ~ In 34 d -> ~ In 34 n ->
  pidRow map ([34] ++ (d ++ fieldSeparator ++ n) ++ [34])
  = if Num.isFinite (Num.Number d)
    then objSetU map (Num.toString (Num.Number d)) (Some n) else map.
Proof.
  intros Hd Hn. unfold pidRow. rewrite stripQuotes_quoted.
  unfold split. rewrite (split_two_fields d n [] Hd Hn). reflexivity.
Qed.

Lemma fold_no_rows {A} (f : A -> jsstring -> A) (out : jsstring) (a : A) :
  ~ In backslash out ->
  fold_left f (skipn 1 (filter truthy (splitEscaped out))) a = a
  /\ fold_left f (skipn 1 (splitEscaped out)) a = a.
Proof.
  intros H. unfold splitEscaped. rewrite (splitEscaped_plain out [] H).
  simpl. destruct (truthy out); split; reflexivity.
Qed.

Lemma getOwnerMap_nil (platform : jsstring) (exec : shell) (fs : fileSystem) :
  (forall cmd out, exec cmd = Some out -> ~ In backslash out) ->
  getOwnerMap platform exec fs = [].
Proof.
  intros H. unfold getOwnerMap.
  destruct (Str.eqb platform (js "win32")).
  { unfold ownersWindows. destruct (exec cmdWmi) as [out|] eqn:E; [|reflexivity].
    apply (fold_no_rows ownerRow out []). eapply H; eassumption. }
  destruct (Str.eqb platform (js "linux")); [apply ownersLinux_nil|].
  destruct (Str.eqb platform (js "darwin")); [|reflexivity].
  unfold ownersDarwin. destruct (exec cmdPs) as [out|] eqn:E; [|reflexivity].
  apply (fold_no_rows psRow out []). eapply H; eassumption.
Qed.

Lemma enrichOwner_nil (c : ConnectionRecord) : enrichOwner [] c = c.
Proof.
  unfold enrichOwner. destruct (pid c) as [p|]; [|reflexivity].
  now destruct (Num.truthy p).
Qed.

Lemma map_enrichOwner_nil (l : list ConnectionRecord) : map (enrichOwner []) l = l.
Proof.
  induction l as [|c l IH]; simpl; [reflexivity|]. now rewrite enrichOwner_nil, IH.
Qed.

Lemma finiteOrNull_finite (x : option Num.number) (p : Num.number) :
  finiteOrNull x = Some p -> Num.isFinite p = true.
Proof.
  unfold finiteOrNull. destruct x as [q|]; [|discriminate].
  destruct (Num.isFinite q) eqn:E; [|discriminate]. congruence.
Qed.

Lemma textOrNull_nonempty (s : jsstring) : textOrNull s <> Some [].
Proof. destruct s; discriminate. Qed.

Lemma ssRecord_owner (line : jsstring) (r : ConnectionRecord) :
  ssRecord line = Some r -> owner r = None.
Proof.
  unfold ssRecord.
  destruct (matchSS line) as [[[[[m1 m2] m3] m4] m5]|]; [|discriminate].
  intros H; injection H as <-. reflexivity.
Qed.

Lemma collected_some (platform : jsstring) (exec : shell) (fs : fileSystem)
  (r : collected) :
  collectConnections platform exec fs = Some r ->
  exists conns,
    platformConnections platform exec = Some conns
    /\ connections r = normalize (map (enrichOwner (getOwnerMap platform exec fs)) conns).
Proof.
  unfold collectConnections.
  destruct (platformConnections platform exec) as [conns|]; [|discriminate].
  intros H; injection H as <-. now exists conns.
Qed.

End CollectorFacts.

Section CollectorTheorems.
Import Str Re Parsers Aux Shape2 Owners Collector.
Local Open Scope N_scope.

(** X18.  [tryExec] rejects exactly when every command of its list fails,
    and otherwise resolves with the output of the first that succeeds. *)
Theorem tryExec_first (exec : shell) (cmds : list jsstring) :
  (tryExec exec cmds = None <-> Forall (fun cmd => exec cmd = None) cmds)
  /\ (forall pre cmd post out,
        cmds = pre ++ cmd :: post ->
        Forall (fun c => exec c = None) pre -> exec cmd = Some out ->
        tryExec exec cmds = Some out).
Proof.
  split.
  - induction cmds as [|c cmds IH]; simpl.
    + split; [constructor|reflexivity].
    + destruct (exec c) as [out|] eqn:E.
      * split; [discriminate|]. intros H. inversion H; subst. congruence.
      * rewrite IH. split; [now constructor|]. intros H. now inversion H.
  - intros pre cmd post out -> Hpre Hcmd.
    induction Hpre as [|c pre Hc Hpre IH]; simpl.
    + now rewrite Hcmd.
    + now rewrite Hc.
Qed.

(** X19.  A well-formed row of the process list, two quoted fields without
    a quote inside, is stored under the text of its first field read as a
    number; [getWindowsPidMap] skips the header row and keeps that row. *)
Theorem getWindowsPidMap_row (exec : shell) (header d n : jsstring) :
  header <> [] -> ~ In 10 header ->
  ~ In 34 d -> ~ In 10 d -> ~ In 34 n -> ~ In 10 n ->
  exec cmdGetProcess
  = Some (header ++ [13; 10]
          ++ ([34] ++ (d ++ fieldSeparator ++ n) ++ [34]) ++ [13; 10]) ->
  getWindowsPidMap exec
  = if Num.isFinite (Num.Number d)
    then [(Num.toString (Num.Number d), Some n)] else [].
Proof.
  intros Hh Hh10 Hd Hd10 Hn Hn10 E. unfold getWindowsPidMap. rewrite E.
  rewrite splitLines_two_rows; [|assumption|].
  2:{ intros K. rewrite !in_app_iff in K.
      destruct K as [[K|[]]|[[K|[K|K]]|[K|[]]]];
        try discriminate K; try contradiction.
      vm_compute in K. intuition discriminate. }
  assert (T : truthy header = true) by (destruct header; [congruence|reflexivity]).
  cbn [filter]. rewrite T.
  change (truthy ([34] ++ (d ++ fieldSeparator ++ n) ++ [34])) with true.
  change (truthy []) with false. cbv iota. cbn [skipn fold_left].
  rewrite (pidRow_quoted [] d n Hd Hn).
  now destruct (Num.isFinite (Num.Number d)).
Qed.

(** X20.  When no command prints a backslash, the owner table is empty on
    every platform: the rows of the command output are cut at a backslash
    followed by n, never at a line break. *)
Theorem getOwnerMap_without_backslash (platform : jsstring) (exec : shell)
  (fs : fileSystem) :
  (forall cmd out, exec cmd = Some out -> ~ In backslash out) ->
  getOwnerMap platform exec fs = [].
Proof. apply getOwnerMap_nil. Qed.

(** X21.  On Linux, when [ss] answers and at least one of its lines is a
    record, [collectConnections] resolves with the normalized records of
    [ss], as many as were parsed, and none of them has an owner. *)
Theorem collectConnections_linux_ss (exec : shell) (fs : fileSystem) (out : jsstring) :
  exec cmdSS = Some out -> parseLinuxSS out <> [] ->
  collectConnections (js "linux") exec fs
  = Some {| ok := true; count := length (parseLinuxSS out);
            connections := normalize (parseLinuxSS out);
            platformName := js "linux" |}
  /\ Forall (fun c => nOwner c = None) (normalize (parseLinuxSS out)).
Proof.
  intros E Hne. split.
  - unfold collectConnections, platformConnections.
    change (Str.eqb (js "linux") (js "win32")) with false.
    change (Str.eqb (js "linux") (js "linux")) with true. cbv iota.
    unfold linuxConnections. rewrite E.
    destruct (parseLinuxSS out) as [|c l] eqn:Ep; [congruence|].
    unfold getOwnerMap.
    change (Str.eqb (js "linux") (js "win32")) with false.
    change (Str.eqb (js "linux") (js "linux")) with true. cbv iota.
    rewrite ownersLinux_nil, map_enrichOwner_nil.
    unfold normalize. now rewrite length_map.
  - unfold normalize. apply Forall_map. apply Forall_forall. intros r Hr.
    apply parseLinuxSS_In in Hr as [line Hr].
    apply ssRecord_owner in Hr. simpl. now rewrite Hr.
Qed.

(** X22.  On Linux, when [ss] fails or none of its lines is a record, the
    result of [collectConnections] is that of [lsof]: the normalized records
    of its output, and a rejection when [lsof] fails too. *)
Theorem collectConnections_linux_fallback (exec : shell) (fs : fileSystem) :
  (forall out, exec cmdSS = Some out -> parseLinuxSS out = []) ->
  collectConnections (js "linux") exec fs
  = option_map (fun out => {| ok := true; count := length (parseLsof out);
                              connections := normalize (parseLsof out);
                              platformName := js "linux" |})
               (exec cmdLsof).
Proof.
  intros H. unfold collectConnections, platformConnections.
  change (Str.eqb (js "linux") (js "win32")) with false.
  change (Str.eqb (js "linux") (js "linux")) with true. cbv iota.
  assert (L : linuxConnections exec = option_map parseLsof (exec cmdLsof)).
  { unfold linuxConnections. destruct (exec cmdSS) as [out|]; [|reflexivity].
    now rewrite (H out eq_refl). }
  rewrite L. destruct (exec cmdLsof) as [out|]; [|reflexivity]. simpl.
  unfold getOwnerMap.
  change (Str.eqb (js "linux") (js "win32")) with false.
  change (Str.eqb (js "linux") (js "linux")) with true. cbv iota.
  rewrite ownersLinux_nil, map_enrichOwner_nil.
  unfold normalize. now rewrite length_map.
Qed.

(** X23.  In every record [collectConnections] resolves with, a port or a
    process id that is present is a finite number, and a text field that is
    present is not empty. *)
Theorem collectConnections_normal (platform : jsstring) (exec : shell)
  (fs : fileSystem) (r : collected) (c : Connection) :
  collectConnections platform exec fs = Some r -> In c (connections r) ->
  (forall p, nLocalPort c = Some p \/ nRemotePort c = Some p \/ nPid c = Some p ->
             Num.isFinite p = true)
  /\ nProtocol c <> Some [] /\ nLocalAddress c <> Some []
  /\ nRemoteAddress c <> Some [] /\ nState c <> Some []
  /\ nProcessName c <> Some [] /\ nOwner c <> Some [].
Proof.
  intros H Hc. apply collected_some in H as [conns [_ H]].
  rewrite H in Hc. unfold normalize in Hc. apply in_map_iff in Hc as [d [<- _]].
  unfold normalizeRecord. cbn.
  split; [|repeat split; try apply textOrNull_nonempty].
  - intros p [K|[K|K]]; eapply finiteOrNull_finite; eassumption.
  - destruct (processName d); [apply textOrNull_nonempty|discriminate].
  - destruct (owner d); [apply textOrNull_nonempty|discriminate].
Qed.

(** X24.  Whenever [collectConnections] resolves, [getRawOSOutput] on the
    same machine resolves too. *)
Theorem collected_has_raw_output (platform : jsstring) (exec : shell)
  (fs : fileSystem) (r : collected) :
  collectConnections platform exec fs = Some r ->
  exists out, getRawOSOutput platform exec = Some out.
Proof.
  intros H. apply collected_some in H as [conns [H _]].
  unfold platformConnections in H. unfold getRawOSOutput.
  destruct (Str.eqb platform (js "win32")).
  { destruct (exec cmdNetstat) as [out|]; [now exists out|discriminate]. }
  destruct (Str.eqb platform (js "linux")).
  { unfold linuxConnections in H.
    destruct (exec cmdSS) as [out|]; [now exists out|].
    destruct (exec cmdLsof) as [out|]; [now exists out|discriminate]. }
  simpl in H. destruct (exec cmdLsof) as [out|]; [now exists out|discriminate].
Qed.

End CollectorTheorems.

Section CollectorWitnesses.
Import Str Re Parsers Aux Shape2 Owners Collector CollectorSample.
Local Open Scope N_scope.

Lemma tryExec_first_witness :
  tryExec ssShell [cmdLsof; cmdSS; cmdPs] = Some Sample.ssUdpLine.
Proof.
  apply (proj2 (tryExec_first ssShell [cmdLsof; cmdSS; cmdPs])
           [cmdLsof] cmdSS [cmdPs] Sample.ssUdpLine).
  - reflexivity.
  - constructor; [vm_compute; reflexivity|constructor].
  - vm_compute. reflexivity.
Defined.

Lemma getWindowsPidMap_row_witness :
  getWindowsPidMap processShell
  = if Num.isFinite (Num.Number (js "4321"))
    then [(Num.toString (Num.Number (js "4321")), Some (js "node"))] else [].
Proof.
  apply (getWindowsPidMap_row processShell processHeader (js "4321") (js "node")).
  - discriminate.
  - vm_compute. intuition discriminate.
  - vm_compute. intuition discriminate.
  - vm_compute. intuition discriminate.
  - vm_compute. intuition discriminate.
  - vm_compute. intuition discriminate.
  - reflexivity.
Defined.

Lemma getOwnerMap_without_backslash_witness :
  getOwnerMap (js "darwin") plainShell noFiles = [].
Proof.
  apply (getOwnerMap_without_backslash (js "darwin") plainShell noFiles).
  intros cmd out H. injection H as <-. vm_compute. intuition discriminate.
Defined.

Lemma collectConnections_linux_ss_witness :
  collectConnections (js "linux") ssShell noFiles
  = Some {| ok := true; count := length (parseLinuxSS Sample.ssUdpLine);
            connections := normalize (parseLinuxSS Sample.ssUdpLine);
            platformName := js "linux" |}
  /\ Forall (fun c => nOwner c = None) (normalize (parseLinuxSS Sample.ssUdpLine)).
Proof.
  apply (collectConnections_linux_ss ssShell noFiles Sample.ssUdpLine).
  - reflexivity.
  - vm_compute. discriminate.
Defined.

Lemma collectConnections_linux_fallback_witness :
  collectConnections (js "linux") plainShell noFiles
  = option_map (fun out => {| ok := true; count := length (parseLsof out);
                              connections := normalize (parseLsof out);
                              platformName := js "linux" |})
               (plainShell cmdLsof).
Proof.
  apply (collectConnections_linux_fallback plainShell noFiles).
  intros out H. injection H as <-. vm_compute. reflexivity.
Defined.

Lemma collectConnections_normal_witness :
  (forall p, nLocalPort (normalizeRecord Sample.ssUdpRecord) = Some p
             \/ nRemotePort (normalizeRecord Sample.ssUdpRecord) = Some p
             \/ nPid (normalizeRecord Sample.ssUdpRecord) = Some p ->
             Num.isFinite p = true)
  /\ nProtocol (normalizeRecord Sample.ssUdpRecord) <> Some []
  /\ nLocalAddress (normalizeRecord Sample.ssUdpRecord) <> Some []
  /\ nRemoteAddress (normalizeRecord Sample.ssUdpRecord) <> Some []
  /\ nState (normalizeRecord Sample.ssUdpRecord) <> Some []
  /\ nProcessName (normalizeRecord Sample.ssUdpRecord) <> Some []
  /\ nOwner (normalizeRecord Sample.ssUdpRecord) <> Some [].
Proof.
  apply (collectConnections_normal (js "linux") ssShell noFiles
           {| ok := true; count := 1%nat;
              connections := [normalizeRecord Sample.ssUdpRecord];
              platformName := js "linux" |}).
  - vm_compute. reflexivity.
  - now left.
Defined.

Lemma collected_has_raw_output_witness :
  exists out, getRawOSOutput (js "linux") ssShell = Some out.
Proof.
  apply (collected_has_raw_output (js "linux") ssShell noFiles
           {| ok := true; count := 1%nat;
              connections := [normalizeRecord Sample.ssUdpRecord];
              platformName := js "linux" |}).
  vm_compute. reflexivity.
Defined.

End CollectorWitnesses.

(* ===================================================================== *)
(** * The columns of a quoted row *)
(* ===================================================================== *)

Section CsvFacts.
Import Str Ports Csv.
Local Open Scope N_scope.

Lemma csvCols_inside (f rest cur : jsstring) (cols : list jsstring) :
  ~ In 34 f ->
  csvCols cols cur true (f ++ 34 :: rest) = csvCols cols (rev f ++ cur) false rest.
Proof.
  intros H. revert cur; induction f as [|c f IH]; intros cur.
  - reflexivity.
  - assert (Hc : (c =? 34) = false)
      by (apply N.eqb_neq; intros ->; apply H; now left).
    change ((c :: f) ++ 34 :: rest) with (c :: (f ++ 34 :: rest)).
    cbn [csvCols]. rewrite Hc, andb_false_r.
    rewrite IH by (intros K; apply H; now right).
    simpl rev. now rewrite <- app_assoc.
Qed.

Lemma csvCols_quoted (f rest : jsstring) (cols : list jsstring) :
  ~ In 34 f ->
  csvCols cols [] false (quoted f ++ rest) = csvCols cols (rev f) false rest.
Proof.
  intros H. unfold quoted.
  change (([34] ++ f ++ [34]) ++ rest) with (34 :: ((f ++ [34]) ++ rest)).
  rewrite <- app_assoc. change ([34] ++ rest) with (34 :: rest).
  cbn [csvCols]. change (34 =? 34) with true. cbv iota. cbn [negb].
  rewrite (csvCols_inside f rest [] cols H). now rewrite app_nil_r.
Qed.

Lemma csvCols_row (fs : list jsstring) (cols : list jsstring) :
  fs <> [] -> Forall (fun f => ~ In 34 f) fs ->
  csvCols cols [] false (row fs) = rev cols ++ fs.
Proof.
  intros Hne Hall. revert Hne cols.
  induction Hall as [|f fs Hf Hall IH]; intros Hne cols;
    [exfalso; apply Hne; reflexivity|].
  destruct fs as [|g fs'].
  - cbn [row]. rewrite <- (app_nil_r (quoted f)).
    rewrite (csvCols_quoted f [] cols Hf). cbn [csvCols].
    rewrite rev_involutive. reflexivity.
  - change (row (f :: g :: fs')) with (quoted f ++ [44] ++ row (g :: fs')).
    rewrite (csvCols_quoted f _ cols Hf).
    change ([44] ++ row (g :: fs')) with (44 :: row (g :: fs')).
    cbn [csvCols]. change (44 =? 34) with false. change (44 =? 44) with true.
    cbn [negb andb]. cbv iota.
    rewrite rev_involutive, IH by discriminate.
    cbn [rev]. now rewrite <- app_assoc.
Qed.

End CsvFacts.

Section CsvTheorems.
Import Str Ports Csv.
Local Open Scope N_scope.

(** X25.  The column loop of [buildPidMapWindows] reads a row of quoted
    fields back: the columns are the fields without their quotes, commas
    inside a field included. *)
Theorem csvCols_quoted_fields (fs : list jsstring) :
  fs <> [] -> Forall (fun f => ~ In 34 f) fs ->
  csvCols [] [] false (row fs) = fs.
Proof. intros Hne Hall. now rewrite csvCols_row. Qed.

End CsvTheorems.

Section CsvWitnesses.
Import Str Ports Csv.
Local Open Scope N_scope.

Lemma csvCols_quoted_fields_witness :
  csvCols [] [] false (row tasklistFields) = tasklistFields.
Proof.
  apply (csvCols_quoted_fields tasklistFields).
  - discriminate.
  - repeat constructor; vm_compute; intuition discriminate.
Defined.

End CsvWitnesses.
